(** * Validator health monitor: a shallow embedding of
      [validator_health_monitor.py] and its verified properties.

    The development follows the pipeline of the program:
    the resilient fetcher ([get_api_data]), the consensus address
    deriver ([convert_pubkey_to_cons_address]), the record merger
    ([collect_validator_records]), the classifier
    ([determine_health_status]), the report assembler
    ([prepare_report_data]), the console report
    ([print_validator_report]) and the entry point ([main]).

    Python values are modelled as follows: [int] is [Z], [str] is
    [string] (the UTF-8 bytes of the text, whose bytewise order is the
    code point order Python compares strings by), [bytes] is
    [list byte], a [dict] is a [gmap], an exception is a constructor of
    [exn] carried by [result]. *)

From Stdlib Require Import ZArith List String Ascii Lia Bool.
From Stdlib Require Import Permutation Sorted QArith Qround DecimalString.
From Stdlib.Strings Require Import Byte.
From stdpp Require Import gmap strings list fin_maps.

#[local] Set Warnings "-register-all,-clear-no-such-hyp".
#[local] Open Scope string_scope.
#[local] Open Scope list_scope.
#[local] Open Scope Z_scope.

(** ** Exceptions and fallible computations *)

Inductive exn : Type :=
| ValueError (msg : string)
| TypeError (msg : string)
| ApiClientError (msg : string)
| AttributeError (msg : string)
| IndexError (msg : string)
| OverflowError (msg : string)
| RecursionError (msg : string).

Inductive result (A : Type) : Type :=
| Ok (a : A)
| Raise (e : exn).

Arguments Ok {A} a.
Arguments Raise {A} e.

Definition bind {A B : Type} (m : result A) (k : A -> result B) : result B :=
  match m with
  | Ok a => k a
  | Raise e => Raise e
  end.

Notation "'let*' x ':=' m 'in' k" := (bind m (fun x => k))
  (at level 10, x name, m at level 100, k at level 200).

Fixpoint mapM {A B : Type} (f : A -> result B) (l : list A) : result (list B) :=
  match l with
  | [] => Ok []
  | x :: l' =>
      let* y := f x in
      let* ys := mapM f l' in
      Ok (y :: ys)
  end.

(** Bytes as the integers Python yields when iterating over [bytes]. *)
Definition byte_to_Z (b : byte) : Z := Z.of_N (Byte.to_N b).

Definition byte_of_Z (z : Z) : byte :=
  match Byte.of_N (Z.to_N (z mod 256)) with
  | Some b => b
  | None => x00
  end.

(** ** SHA-256 (FIPS 180-4), the function behind [hashlib.sha256] *)

Module Sha256.

Definition w32 (x : Z) : Z := x mod 2 ^ 32.

Definition add32 (x y : Z) : Z := w32 (x + y).

Definition rotr (n x : Z) : Z :=
  Z.lor (Z.shiftr x n) (w32 (Z.shiftl x (32 - n))).

Definition Ch (x y z : Z) : Z :=
  Z.lxor (Z.land x y) (Z.land (Z.lnot x) z).

Definition Maj (x y z : Z) : Z :=
  Z.lxor (Z.lxor (Z.land x y) (Z.land x z)) (Z.land y z).

Definition Sigma0 (x : Z) : Z :=
  Z.lxor (Z.lxor (rotr 2 x) (rotr 13 x)) (rotr 22 x).

Definition Sigma1 (x : Z) : Z :=
  Z.lxor (Z.lxor (rotr 6 x) (rotr 11 x)) (rotr 25 x).

Definition sigma0 (x : Z) : Z :=
  Z.lxor (Z.lxor (rotr 7 x) (rotr 18 x)) (Z.shiftr x 3).

Definition sigma1 (x : Z) : Z :=
  Z.lxor (Z.lxor (rotr 17 x) (rotr 19 x)) (Z.shiftr x 10).

(** The constants of the standard are fractional parts of roots of the
    first primes: 32 bits of the cube roots for the round constants, 32
    bits of the square roots for the initial chaining value. *)
Definition primes : list Z :=
  [2; 3; 5; 7; 11; 13; 17; 19; 23; 29; 31; 37; 41; 43; 47; 53;
   59; 61; 67; 71; 73; 79; 83; 89; 97; 101; 103; 107; 109; 113; 127; 131;
   137; 139; 149; 151; 157; 163; 167; 173; 179; 181; 191; 193; 197; 199;
   211; 223; 227; 229; 233; 239; 241; 251; 257; 263; 269; 271; 277; 281;
   283; 293; 307; 311].

(** Integer cube root by bisection on the [n] low bits. *)
Fixpoint cube_root (n : nat) (x r : Z) : Z :=
  match n with
  | O => r
  | S n' =>
      let r' := r + 2 ^ Z.of_nat n' in
      if r' * r' * r' <=? x then cube_root n' x r' else cube_root n' x r
  end.

Definition K : list Z :=
  List.map (fun p => w32 (cube_root 36 (p * 2 ^ 96) 0)) primes.

(** The eight working variables a..h, also the chaining value. *)
Definition state : Type := (Z * Z * Z * Z * Z * Z * Z * Z)%type.

Definition frac_sqrt (p : Z) : Z := w32 (Z.sqrt (p * 2 ^ 64)).

Definition H0 : state :=
  (frac_sqrt 2, frac_sqrt 3, frac_sqrt 5, frac_sqrt 7,
   frac_sqrt 11, frac_sqrt 13, frac_sqrt 17, frac_sqrt 19).

(** Message padding: a one bit, zeros up to 56 modulo 64, and the bit
    length as a 64-bit big-endian integer. *)
Definition be_bytes (n : nat) (x : Z) : list Z :=
  List.map (fun i => Z.shiftr x (8 * Z.of_nat i) mod 256) (rev (seq 0 n)).

Definition pad (msg : list Z) : list Z :=
  let len := Z.of_nat (length msg) in
  let zeros := Z.to_nat ((55 - len) mod 64) in
  msg ++ [0x80] ++ repeat 0 zeros ++ be_bytes 8 (8 * len).

Fixpoint be_words (n : nat) (bs : list Z) : list Z :=
  match n, bs with
  | S n', b0 :: b1 :: b2 :: b3 :: rest =>
      (b0 * 2 ^ 24 + b1 * 2 ^ 16 + b2 * 2 ^ 8 + b3) :: be_words n' rest
  | _, _ => []
  end.

(** The message schedule, kept newest word first: [ws] holds
    W(t-1), W(t-2), ... *)
Fixpoint extend (n : nat) (ws : list Z) : list Z :=
  match n with
  | O => ws
  | S n' =>
      let w := add32 (add32 (sigma1 (nth 1 ws 0)) (nth 6 ws 0))
                     (add32 (sigma0 (nth 14 ws 0)) (nth 15 ws 0)) in
      extend n' (w :: ws)
  end.

Definition schedule (block : list Z) : list Z :=
  rev (extend 48 (rev (be_words 16 block))).

Definition round (s : state) (kw : Z * Z) : state :=
  let '(a, b, c, d, e, f, g, h) := s in
  let t1 := add32 (add32 (add32 h (Sigma1 e)) (add32 (Ch e f g) (fst kw))) (snd kw) in
  let t2 := add32 (Sigma0 a) (Maj a b c) in
  (add32 t1 t2, a, b, c, add32 d t1, e, f, g).

Definition compress (s : state) (block : list Z) : state :=
  let '(a, b, c, d, e, f, g, h) := s in
  let '(a', b', c', d', e', f', g', h') :=
    fold_left round (combine K (schedule block)) s in
  (add32 a a', add32 b b', add32 c c', add32 d d',
   add32 e e', add32 f f', add32 g g', add32 h h').

Fixpoint blocks (n : nat) (s : state) (bs : list Z) : state :=
  match n with
  | O => s
  | S n' => blocks n' (compress s (firstn 64 bs)) (skipn 64 bs)
  end.

Definition state_bytes (s : state) : list Z :=
  let '(a, b, c, d, e, f, g, h) := s in
  be_bytes 4 a ++ be_bytes 4 b ++ be_bytes 4 c ++ be_bytes 4 d ++
  be_bytes 4 e ++ be_bytes 4 f ++ be_bytes 4 g ++ be_bytes 4 h.

Definition digest (msg : list byte) : list byte :=
  let padded := pad (List.map byte_to_Z msg) in
  List.map byte_of_Z
    (state_bytes (blocks (length padded / 64) H0 padded)).

End Sha256.

(** Hexadecimal rendering, used to compare digests with published
    test vectors. *)
Definition hex_digit (n : Z) : ascii :=
  nth (Z.to_nat n) (list_ascii_of_string "0123456789abcdef") "0"%char.

Definition hexdigest (bs : list byte) : string :=
  string_of_list_ascii
    (flat_map (fun b => [hex_digit (byte_to_Z b / 16); hex_digit (byte_to_Z b mod 16)]) bs).

Definition bytes_of_string (s : string) : list byte := list_byte_of_string s.

Example sha256_constants :
  nth 0 Sha256.K 0 = 0x428a2f98 /\ nth 63 Sha256.K 0 = 0xc67178f2
  /\ Sha256.H0.2 = 0x5be0cd19.
Proof. vm_compute. repeat split. Qed.

Example sha256_abc :
  hexdigest (Sha256.digest (bytes_of_string "abc"))
  = "ba7816bf8f01cfea414140de5dae2223b00361a396177a9cb410ff61f20015ad".
Proof. vm_compute. reflexivity. Qed.

Example sha256_empty :
  hexdigest (Sha256.digest [])
  = "e3b0c44298fc1c149afbf4c8996fb92427ae41e4649b934ca495991b7852b855".
Proof. vm_compute. reflexivity. Qed.

Example sha256_two_blocks :
  hexdigest (Sha256.digest (List.map (fun i => byte_of_Z (Z.of_nat i)) (seq 0 70)))
  = "5767d69a906d4860db9079eb7e90ab4a543e5cb032fce846554aef6ceb600e1d".
Proof. vm_compute. reflexivity. Qed.

Example sha256_56_a :
  hexdigest (Sha256.digest (repeat "a"%byte 56))
  = "b35439a4ac6f0948b6d6f9e3c6af0f5f590ce20f1bde7090ef7970686ec6738a".
Proof. vm_compute. reflexivity. Qed.

(** ** Bech32 (BIP-173), the functions imported from the [bech32] package *)

Module Bech32.

Definition CHARSET : string := "qpzry9x8gf2tvdw0s3jn54khce6mua7l".

Definition generator : list Z :=
  [0x3b6a57b2; 0x26508e6d; 0x1ea119fa; 0x3d4233dd; 0x2a1462b3].

(** One iteration of the loop over [values] in [bech32_polymod]. *)
Definition polymod_step (chk value : Z) : Z :=
  let top := Z.shiftr chk 25 in
  let chk := Z.lxor (Z.shiftl (Z.land chk 0x1ffffff) 5) value in
  fold_left
    (fun chk i =>
       Z.lxor chk
         (if Z.land (Z.shiftr top (Z.of_nat i)) 1 =? 0 then 0
          else nth i generator 0))
    (seq 0 5) chk.

Definition bech32_polymod (values : list Z) : Z :=
  fold_left polymod_step values 1.

Definition ord (c : ascii) : Z := Z.of_N (N_of_ascii c).

Definition bech32_hrp_expand (hrp : string) : list Z :=
  List.map (fun x => Z.shiftr (ord x) 5) (list_ascii_of_string hrp)
  ++ [0]
  ++ List.map (fun x => Z.land (ord x) 31) (list_ascii_of_string hrp).

Definition bech32_create_checksum (hrp : string) (data : list Z) : list Z :=
  let values := bech32_hrp_expand hrp ++ data in
  let polymod := Z.lxor (bech32_polymod (values ++ [0; 0; 0; 0; 0; 0])) 1 in
  List.map (fun i => Z.land (Z.shiftr polymod (5 * (5 - Z.of_nat i))) 31) (seq 0 6).

(** [CHARSET[d]]: Python indexing, negative indices counted from the
    end, anything outside the string an [IndexError]. *)
Definition charset_at (d : Z) : result ascii :=
  let n := Z.of_nat (String.length CHARSET) in
  let i := if d <? 0 then d + n else d in
  if (0 <=? i) && (i <? n) then
    match String.get (Z.to_nat i) CHARSET with
    | Some c => Ok c
    | None => Raise (IndexError "string index out of range")
    end
  else Raise (IndexError "string index out of range").

Definition bech32_encode (hrp : string) (data : list Z) : result string :=
  let combined := data ++ bech32_create_checksum hrp data in
  let* symbols := mapM charset_at combined in
  Ok (hrp +:+ "1" +:+ string_of_list_ascii symbols).

(** The inner [while bits >= tobits] loop of [convertbits], run for at
    most [fuel] iterations; [drain_exits] below shows that the fuel
    [convert_loop] passes always lets the loop reach its exit test. *)
Fixpoint drain (fuel : nat) (acc bits tobits maxv : Z) (ret : list Z)
  : Z * list Z :=
  match fuel with
  | O => (bits, ret)
  | S fuel' =>
      if bits >=? tobits then
        let bits := bits - tobits in
        drain fuel' acc bits tobits maxv (ret ++ [Z.land (Z.shiftr acc bits) maxv])
      else (bits, ret)
  end.

(** The [for value in data] loop of [convertbits]; [None] is Python's
    [None], returned for a value that does not fit [frombits] bits. *)
Fixpoint convert_loop (data : list Z) (frombits tobits maxv max_acc : Z)
    (acc bits : Z) (ret : list Z) : option (Z * Z * list Z) :=
  match data with
  | [] => Some (acc, bits, ret)
  | value :: data' =>
      if (value <? 0) || negb (Z.shiftr value frombits =? 0) then None
      else
        let acc := Z.land (Z.lor (Z.shiftl acc frombits) value) max_acc in
        let bits := bits + frombits in
        let '(bits, ret) := drain (Z.to_nat bits) acc bits tobits maxv ret in
        convert_loop data' frombits tobits maxv max_acc acc bits ret
  end.

Definition convertbits (data : list Z) (frombits tobits : Z) (pad : bool)
  : option (list Z) :=
  let maxv := Z.shiftl 1 tobits - 1 in
  let max_acc := Z.shiftl 1 (frombits + tobits - 1) - 1 in
  match convert_loop data frombits tobits maxv max_acc 0 0 [] with
  | None => None
  | Some (acc, bits, ret) =>
      if pad then
        if negb (bits =? 0)
        then Some (ret ++ [Z.land (Z.shiftl acc (tobits - bits)) maxv])
        else Some ret
      else if (bits >=? frombits)
              || negb (Z.land (Z.shiftl acc (tobits - bits)) maxv =? 0)
      then None
      else Some ret
  end.

End Bech32.

Example bech32_bip173_a : Bech32.bech32_encode "a" [] = Ok "a12uel5l".
Proof. vm_compute. reflexivity. Qed.

Example bech32_bip173_abcdef :
  Bech32.bech32_encode "abcdef" (List.map Z.of_nat (seq 0 32))
  = Ok "abcdef1qpzry9x8gf2tvdw0s3jn54khce6mua7lmqqqxw".
Proof. vm_compute. reflexivity. Qed.

Example convertbits_8_to_5 :
  Bech32.convertbits [0xff; 0x00; 0x81] 8 5 true = Some [31; 28; 0; 8; 2].
Proof. vm_compute. reflexivity. Qed.

(** ** Base64 with validation

    [base64.b64decode(s, validate=True)] on a string: the text must be
    characters of the alphabet followed by at most two [=], or the call
    raises; the characters are then decoded four at a time by
    [binascii.a2b_base64]. A last group of two characters needs both
    [=], a last group of three needs one (a second is ignored), a last
    group of one is an error, and [=] after whole groups are ignored.
    The deriver below is stated for an arbitrary decoder; this one
    instantiates it. *)

Module Base64.

Definition alphabet : list ascii :=
  list_ascii_of_string
    "ABCDEFGHIJKLMNOPQRSTUVWXYZabcdefghijklmnopqrstuvwxyz0123456789+/".

Fixpoint index_of (c : ascii) (l : list ascii) (i : Z) : option Z :=
  match l with
  | [] => None
  | x :: l' => if Ascii.eqb c x then Some i else index_of c l' (i + 1)
  end.

Definition sextet (c : ascii) : option Z := index_of c alphabet 0.

Definition pad_char : ascii := "="%char.

(** The values of the characters before the padding and the number of
    [=] that end the text; [None] when the text has another shape. *)
Fixpoint sextets (cs : list ascii) : option (list Z * nat) :=
  match cs with
  | [] => Some ([], 0%nat)
  | c :: cs' =>
      if Ascii.eqb c pad_char then
        if forallb (Ascii.eqb pad_char) cs' then Some ([], S (length cs')) else None
      else
        match sextet c, sextets cs' with
        | Some s, Some (l, pads) => Some (s :: l, pads)
        | _, _ => None
        end
  end.

(** The bytes of the groups of four, and the number of characters of
    the last, incomplete group with the bytes it already gives. *)
Fixpoint quads (l : list Z) : list Z * nat :=
  match l with
  | [] => ([], 0%nat)
  | [_] => ([], 1%nat)
  | [sa; sb] => ([Z.lor (Z.shiftl sa 2) (Z.shiftr sb 4)], 2%nat)
  | [sa; sb; sc] =>
      ([Z.lor (Z.shiftl sa 2) (Z.shiftr sb 4);
        Z.lor (Z.shiftl (Z.land sb 15) 4) (Z.shiftr sc 2)], 3%nat)
  | sa :: sb :: sc :: sd :: rest =>
      let '(bytes, quad_pos) := quads rest in
      (Z.lor (Z.shiftl sa 2) (Z.shiftr sb 4)
       :: Z.lor (Z.shiftl (Z.land sb 15) 4) (Z.shiftr sc 2)
       :: Z.lor (Z.shiftl (Z.land sc 3) 6) sd
       :: bytes, quad_pos)
  end.

Definition decode (cs : list ascii) : option (list Z) :=
  match sextets cs with
  | None => None
  | Some (l, pads) =>
      if (2 <? pads)%nat then None
      else
        let '(bytes, quad_pos) := quads l in
        match quad_pos with
        | 0%nat => Some bytes
        | 1%nat => None
        | 2%nat => if (pads =? 2)%nat then Some bytes else None
        | _ => if (1 <=? pads)%nat then Some bytes else None
        end
  end.

Definition b64decode_strict (s : string) : option (list byte) :=
  option_map (List.map byte_of_Z) (decode (list_ascii_of_string s)).

End Base64.

Example b64decode_ABC :
  Base64.b64decode_strict "QUJD" = Some (bytes_of_string "ABC").
Proof. vm_compute. reflexivity. Qed.

Example b64decode_padded :
  Base64.b64decode_strict "QUI=" = Some (bytes_of_string "AB")
  /\ Base64.b64decode_strict "QQ==" = Some (bytes_of_string "A")
  /\ Base64.b64decode_strict "QUI==" = Some (bytes_of_string "AB")
  /\ Base64.b64decode_strict "QUJD=" = Some (bytes_of_string "ABC")
  /\ Base64.b64decode_strict "QUJD==" = Some (bytes_of_string "ABC").
Proof. repeat split; vm_compute; reflexivity. Qed.

Example b64decode_rejects :
  Base64.b64decode_strict "QUJ" = None
  /\ Base64.b64decode_strict "QQ=" = None
  /\ Base64.b64decode_strict "QUJDQ" = None
  /\ Base64.b64decode_strict "QU=D" = None
  /\ Base64.b64decode_strict "QUJD!" = None
  /\ Base64.b64decode_strict "QUJD===" = None
  /\ Base64.b64decode_strict "=QUJ" = None.
Proof. repeat split; vm_compute; reflexivity. Qed.

(** ** The monitor *)

Section Monitor.

#[local] Set Default Proof Using "Type".

(** *** The boundary of the embedding

    Floating point numbers stay abstract, with the builtins the
    program applies to them and the exceptions these raise; so do the
    clock, Unicode lower-casing, the encoding of the console, the
    validating base64 decoder and the REST server. *)

Variable flt : Type.
(** [x ** n] for an [int] exponent: a float, or the [OverflowError] of
    a power that leaves the float range *)
Variable float_pow : flt -> Z -> result flt.
(** [time.sleep(seconds)]: it returns, or raises [OverflowError] on a
    delay too large for the clock and [ValueError] on a negative one *)
Variable sleep : flt -> result unit.
(** [bool(x)] *)
Variable float_truthy : flt -> bool.
(** [float(n)] and [float(s)] *)
Variable float_of_int : Z -> result flt.
Variable float_of_str : string -> result flt.
(** [int(x)] and [int(s)] *)
Variable int_of_float : flt -> result Z.
Variable int_of_str : string -> result Z.
(** [f"{rate * 100:.2f}%"] *)
Variable format_percent : flt -> string.
(** [s.lower()] *)
Variable lower : string -> string.
(** whether [icon.encode(sys.stdout.encoding or "utf-8")] succeeds *)
Variable stdout_can_encode : string -> bool.
(** [base64.b64decode(s, validate=True)]; [None] stands for the
    [binascii.Error] or [ValueError] it raises *)
Variable b64decode : string -> option (list byte).

(** *** JSON values, as [response.json()] returns them *)

Inductive json : Type :=
| JNull
| JBool (b : bool)
| JInt (n : Z)
| JFloat (f : flt)
| JStr (s : string)
| JList (items : list json)
| JDict (fields : gmap string json).

Definition type_name (v : json) : string :=
  match v with
  | JNull => "NoneType"
  | JBool _ => "bool"
  | JInt _ => "int"
  | JFloat _ => "float"
  | JStr _ => "str"
  | JList _ => "list"
  | JDict _ => "dict"
  end.

(** [bool(v)] *)
Definition truthy (v : json) : bool :=
  match v with
  | JNull => false
  | JBool b => b
  | JInt n => negb (n =? 0)
  | JFloat f => float_truthy f
  | JStr s => negb (String.eqb s "")
  | JList items => match items with [] => false | _ => true end
  | JDict fields => negb (size fields =? 0)%nat
  end.

(** [a or b] *)
Definition py_or (a b : json) : json := if truthy a then a else b.

(** [d.get(key, dflt)] on a dictionary *)
Definition dict_get (d : gmap string json) (key : string) (dflt : json) : json :=
  default dflt (d !! key).

(** [v.get(key, dflt)] on an arbitrary value: only a dictionary has
    the method *)
Definition value_get (v : json) (key : string) (dflt : json) : result json :=
  match v with
  | JDict d => Ok (dict_get d key dflt)
  | _ => Raise (AttributeError ("'" +:+ type_name v +:+ "' object has no attribute 'get'"))
  end.

Definition isinstance_dict (v : json) : bool :=
  match v with JDict _ => true | _ => false end.

(** [int(v)] *)
Definition py_int (v : json) : result Z :=
  match v with
  | JInt n => Ok n
  | JBool b => Ok (if b then 1 else 0)
  | JFloat f => int_of_float f
  | JStr s => int_of_str s
  | _ => Raise (TypeError "int() argument must be a string, a bytes-like object or a real number")
  end.

(** [float(v)] *)
Definition py_float (v : json) : result flt :=
  match v with
  | JFloat f => Ok f
  | JInt n => float_of_int n
  | JBool b => float_of_int (if b then 1 else 0)
  | JStr s => float_of_str s
  | _ => Raise (TypeError "float() argument must be a string or a real number")
  end.

(** *** Configuration and report structures *)

Record AppConfig : Type := {
  base_url : string;
  missed_blocks_threshold : Z;
  max_retries : Z;
  retry_backoff : flt;
  hide_healthy : bool;
  max_results : Z;
  html_output : option string;
  html_title : string
}.

(** The dictionary [collect_validator_records] builds per validator. *)
Record ValidatorRecord : Type := {
  rec_moniker : json;
  rec_operator_address : json;
  rec_consensus_address : string;
  rec_jailed : bool;
  rec_missed_blocks : Z;
  rec_commission_rate : option flt
}.

Record ReportRow : Type := {
  row_status : string;
  row_icon_text : string;
  row_icon_html : string;
  row_moniker : json;
  row_missed_blocks : Z;
  row_commission_display : string;
  row_reason : string
}.

Record ReportData : Type := {
  rows : list ReportRow;
  status_counts : gmap string nat;
  total_records : nat;
  total_shown : nat;
  filtered_out_healthy : bool
}.

(** The two-key dictionary [determine_health_status] returns. *)
Record Health : Type := {
  health_status : string;
  health_reason : string
}.

Definition STATUS_ICONS : gmap string string :=
  <["JAILED" := string_of_list_byte [xe2; x9d; x8c]]>
  (<["AT_RISK" := string_of_list_byte [xe2; x9a; xa0; xef; xb8; x8f]]>
  (<["HEALTHY" := string_of_list_byte [xe2; x9c; x85]]> ∅)).

Definition STATUS_ICONS_ASCII : gmap string string :=
  <["JAILED" := "X"]> (<["AT_RISK" := "!"]> (<["HEALTHY" := "+"]> ∅)).

(** *** Classifier *)

Definition determine_health_status (jailed : bool) (missed_blocks : Z)
    (config : AppConfig) : Health :=
  if jailed then
    {| health_status := "JAILED"; health_reason := "Validator jailed" |}
  else if missed_blocks >? missed_blocks_threshold config then
    {| health_status := "AT_RISK"; health_reason := "High missed blocks" |}
  else
    {| health_status := "HEALTHY"; health_reason := "All checks passed" |}.

(** *** Consensus address deriver *)

Definition convert_pubkey_to_cons_address (pubkey_b64 : string) : result string :=
  match b64decode pubkey_b64 with
  | None => Raise (ValueError "Invalid base64 consensus public key")
  | Some pubkey_bytes =>
      let hash_digest := Sha256.digest pubkey_bytes in
      let address_bytes := take 20 hash_digest in
      match Bech32.convertbits (List.map byte_to_Z address_bytes) 8 5 true with
      | None =>
          Raise (ValueError "Failed to convert consensus public key to bech32 format")
      | Some converted => Bech32.bech32_encode "cosmosvalcons" converted
      end
  end.

(** *** Resilient fetcher

    The server answers the n-th GET sent to a URL either with a
    transport, timeout or status failure ([requests.RequestException],
    also what [raise_for_status] raises) or with a response, of which
    the program only uses [response.json()]. That call returns the
    decoded value, or raises [json.JSONDecodeError] on a body that is
    not JSON, or raises another exception of the decoder, such as the
    [RecursionError] of a body nested too deeply and the [ValueError] of
    an integer literal longer than the digit limit. *)

Inductive json_outcome : Type :=
| JsonValue (data : json)
| JsonDecodeError
| JsonRaises (e : exn).

Inductive http_outcome : Type :=
| HttpError (exc : string)
| HttpResponse (body : json_outcome).

Variable server : string -> nat -> http_outcome.

(** Keeps the context of a proof to what its statement mentions. *)
#[local] Ltac tidy :=
  try clear server; try clear b64decode; try clear stdout_can_encode;
  try clear lower; try clear format_percent; try clear int_of_str;
  try clear int_of_float; try clear float_of_str; try clear float_of_int;
  try clear float_truthy; try clear sleep; try clear float_pow; try clear flt.

Inductive event : Type :=
| EvGet (url : string)
| EvWarning (exc : string) (attempt max_retries : Z) (sleep_for : flt)
| EvSleep (seconds : flt).

Definition is_get (e : event) : bool :=
  match e with EvGet _ => true | _ => false end.

Definition count_gets (trace : list event) : nat :=
  length (List.filter is_get trace).

(** The [while True] loop of [get_api_data]; [None] when the fuel runs
    out before the loop is left by [break] or by an exception. The
    power and the sleep run inside the [except] handler, where nothing
    catches what they raise. *)
Fixpoint retry_loop (fuel : nat) (url : string) (max_retries : Z)
    (retry_backoff : flt) (attempt : Z) (trace : list event)
  : option (result json_outcome * list event) :=
  match fuel with
  | O => None
  | S fuel' =>
      match server url (count_gets trace) with
      | HttpResponse body => Some (Ok body, trace ++ [EvGet url])
      | HttpError exc =>
          let trace := trace ++ [EvGet url] in
          if attempt >=? max_retries then
            Some (Raise (ApiClientError ("Failed to fetch data from " +:+ url)), trace)
          else
            match float_pow retry_backoff (attempt - 1) with
            | Raise e => Some (Raise e, trace)
            | Ok sleep_for =>
                let trace :=
                  trace ++ [EvWarning exc attempt max_retries sleep_for;
                            EvSleep sleep_for] in
                match sleep sleep_for with
                | Raise e => Some (Raise e, trace)
                | Ok _ =>
                    retry_loop fuel' url max_retries retry_backoff (attempt + 1) trace
                end
            end
      end
  end.

Definition get_api_data (endpoint base_url : string) (max_retries : Z)
    (retry_backoff : flt)
  : option (result (gmap string json) * list event) :=
  if negb (String.prefix "/" endpoint) then
    Some (Raise (ValueError "Endpoint must start with '/'."), [])
  else
    let url := base_url +:+ endpoint in
    match retry_loop (S (Z.to_nat max_retries)) url max_retries retry_backoff 1 [] with
    | None => None
    | Some (Raise e, trace) => Some (Raise e, trace)
    | Some (Ok JsonDecodeError, trace) =>
        Some (Raise (ApiClientError ("Invalid JSON response from " +:+ url)), trace)
    | Some (Ok (JsonRaises e), trace) => Some (Raise e, trace)
    | Some (Ok (JsonValue (JDict data)), trace) => Some (Ok data, trace)
    | Some (Ok (JsonValue data), trace) =>
        Some (Raise (ApiClientError
                       ("Unexpected response type from " +:+ url +:+ ": "
                        +:+ type_name data)), trace)
    end.

(** *** Record merger

    The body of the [for validator in validators] loop: [Ok None] is a
    validator skipped by [continue], [Raise] an exception that leaves
    the loop and the function. The calls of [logging.warning] on the
    two skip paths do not influence the result and are left out. *)

Definition recover_value_type_error {A : Type} (m : result A) (dflt : A) : result A :=
  match m with
  | Ok a => Ok a
  | Raise (TypeError _) => Ok dflt
  | Raise (ValueError _) => Ok dflt
  | Raise e => Raise e
  end.

Definition merge_validator (signing_info_map : gmap string (gmap string json))
    (validator : gmap string json) : result (option ValidatorRecord) :=
  let* moniker :=
    if isinstance_dict (dict_get validator "description" JNull)
    then value_get (dict_get validator "description" (JDict ∅)) "moniker" JNull
    else Ok JNull in
  let moniker :=
    py_or (py_or moniker (dict_get validator "moniker" JNull)) (JStr "Unknown") in
  let consensus_pubkey :=
    py_or (dict_get validator "consensus_pubkey" JNull) (JDict ∅) in
  let* pubkey_b64 := value_get consensus_pubkey "key" JNull in
  match pubkey_b64 with
  | JStr pubkey_b64 =>
      match convert_pubkey_to_cons_address pubkey_b64 with
      | Raise (ValueError _) => Ok None
      | Raise e => Raise e
      | Ok consensus_address =>
          let signing_info := default ∅ (signing_info_map !! consensus_address) in
          let missed_blocks_raw :=
            dict_get signing_info "missed_blocks_counter" (JStr "0") in
          let* missed_blocks :=
            recover_value_type_error (py_int missed_blocks_raw) 0 in
          let* commission_rates :=
            if isinstance_dict (dict_get validator "commission" JNull)
            then value_get (dict_get validator "commission" (JDict ∅))
                   "commission_rates" (JDict ∅)
            else Ok (JDict ∅) in
          let* commission_rate_raw := value_get commission_rates "rate" JNull in
          let* commission_rate :=
            recover_value_type_error
              (let* rate := py_float commission_rate_raw in Ok (Some rate)) None in
          Ok (Some {| rec_moniker := moniker;
                      rec_operator_address := dict_get validator "operator_address" JNull;
                      rec_consensus_address := consensus_address;
                      rec_jailed := truthy (dict_get validator "jailed" JNull);
                      rec_missed_blocks := missed_blocks;
                      rec_commission_rate := commission_rate |})
      end
  | _ => Ok None
  end.

Fixpoint collect_loop (signing_info_map : gmap string (gmap string json))
    (validators : list (gmap string json)) (records : list ValidatorRecord)
  : result (list ValidatorRecord) :=
  match validators with
  | [] => Ok records
  | validator :: validators' =>
      let* merged := merge_validator signing_info_map validator in
      collect_loop signing_info_map validators'
        (match merged with
         | Some record => records ++ [record]
         | None => records
         end)
  end.

Definition collect_validator_records
    (signing_info_map : gmap string (gmap string json))
    (validators : list (gmap string json)) : result (list ValidatorRecord) :=
  collect_loop signing_info_map validators [].

(** *** Report assembler *)

(** [sorted(l, key=...)]: the keys are computed first, one call per
    element in list order; the elements are then put in ascending key
    order, elements with equal keys keeping their relative order.
    Keys are the pairs [sort_key] builds, compared as Python compares
    tuples, with [<] on the first components that differ. *)
Definition sortkey : Type := (Z * string)%type.

Definition key_lt (k1 k2 : sortkey) : bool :=
  (k1.1 <? k2.1) || ((k1.1 =? k2.1) && String.ltb k1.2 k2.2).

Fixpoint insert_sorted {A : Type} (x : sortkey * A) (l : list (sortkey * A))
  : list (sortkey * A) :=
  match l with
  | [] => [x]
  | y :: l' =>
      if key_lt y.1 x.1 then y :: insert_sorted x l' else x :: y :: l'
  end.

Definition stable_sort {A : Type} (l : list (sortkey * A)) : list (sortkey * A) :=
  foldr insert_sorted [] l.

Definition sorted {A : Type} (key : A -> result sortkey) (l : list A)
  : result (list A) :=
  let* keys := mapM key l in
  Ok (List.map snd (stable_sort (combine keys l))).

Definition status_order : gmap string Z :=
  <["JAILED" := 0]> (<["AT_RISK" := 1]> (<["HEALTHY" := 2]> ∅)).

(** [v.lower()] on an arbitrary value: only a string has the method *)
Definition value_lower (v : json) : result string :=
  match v with
  | JStr s => Ok (lower s)
  | _ => Raise (AttributeError ("'" +:+ type_name v +:+ "' object has no attribute 'lower'"))
  end.

Definition sort_key (config : AppConfig) (entry : ValidatorRecord) : result sortkey :=
  let health :=
    determine_health_status (rec_jailed entry) (rec_missed_blocks entry) config in
  let* lowered := value_lower (rec_moniker entry) in
  Ok (default 99 (status_order !! health_status health), lowered).

Definition resolve_status_icon (status : string) : string :=
  let icon := default "" (STATUS_ICONS !! status) in
  if String.eqb icon "" then default "" (STATUS_ICONS_ASCII !! status)
  else if stdout_can_encode icon then icon
  else default "" (STATUS_ICONS_ASCII !! status).

(** The row appended for a record that is not skipped. *)
Definition make_row (config : AppConfig) (record : ValidatorRecord) : ReportRow :=
  let health :=
    determine_health_status (rec_jailed record) (rec_missed_blocks record) config in
  let status := health_status health in
  let commission_display :=
    match rec_commission_rate record with
    | Some commission_rate => format_percent commission_rate
    | None => "N/A"
    end in
  {| row_status := status;
     row_icon_text := resolve_status_icon status;
     row_icon_html :=
       default (default "" (STATUS_ICONS_ASCII !! status)) (STATUS_ICONS !! status);
     row_moniker := rec_moniker record;
     row_missed_blocks := rec_missed_blocks record;
     row_commission_display := commission_display;
     row_reason := health_reason health |}.

(** The [for record in sorted(...)] loop, with its [continue] and
    [break]; [status_counts] is the [defaultdict(int)]. *)
Fixpoint report_loop (config : AppConfig) (todo : list ValidatorRecord)
    (rows : list ReportRow) (status_counts : gmap string nat)
  : list ReportRow * gmap string nat :=
  match todo with
  | [] => (rows, status_counts)
  | record :: todo' =>
      let health :=
        determine_health_status (rec_jailed record) (rec_missed_blocks record) config in
      let status := health_status health in
      if hide_healthy config && String.eqb status "HEALTHY" then
        report_loop config todo' rows status_counts
      else
        let rows := rows ++ [make_row config record] in
        let status_counts :=
          <[status := S (default 0%nat (status_counts !! status))]> status_counts in
        if negb (max_results config =? 0)
           && (Z.of_nat (length rows) >=? max_results config)
        then (rows, status_counts)
        else report_loop config todo' rows status_counts
  end.

Definition prepare_report_data (records : list ValidatorRecord)
    (config : AppConfig) : result ReportData :=
  let total_records := length records in
  let* ordered := sorted (sort_key config) records in
  let '(rows, status_counts) := report_loop config ordered [] ∅ in
  let filtered_out_healthy :=
    hide_healthy config && (0 <? total_records)%nat && (length rows =? 0)%nat in
  Ok {| rows := rows;
        status_counts := status_counts;
        total_records := total_records;
        total_shown := length rows;
        filtered_out_healthy := filtered_out_healthy |}.

(** *** Properties of the classifier *)

Definition JAILED : Health :=
  {| health_status := "JAILED"; health_reason := "Validator jailed" |}.
Definition AT_RISK : Health :=
  {| health_status := "AT_RISK"; health_reason := "High missed blocks" |}.
Definition HEALTHY : Health :=
  {| health_status := "HEALTHY"; health_reason := "All checks passed" |}.

(** C2. The classifier assigns exactly one of the three tiers: a
    jailed validator is JAILED whatever its missed-blocks count;
    otherwise a count strictly above the threshold is AT_RISK and any
    other count HEALTHY. At the threshold itself the tier is HEALTHY,
    one above it AT_RISK. *)
Theorem determine_health_status_tiers (jailed : bool) (missed_blocks : Z)
    (config : AppConfig) :
  let T := missed_blocks_threshold config in
  let h := determine_health_status jailed missed_blocks config in
  (jailed = true -> h = JAILED)
  /\ (jailed = false -> missed_blocks > T -> h = AT_RISK)
  /\ (jailed = false -> missed_blocks <= T -> h = HEALTHY)
  /\ (h = JAILED \/ h = AT_RISK \/ h = HEALTHY)
  /\ JAILED <> AT_RISK /\ JAILED <> HEALTHY /\ AT_RISK <> HEALTHY
  /\ determine_health_status false T config = HEALTHY
  /\ determine_health_status false (T + 1) config = AT_RISK.
Proof.
  intros T h. subst h T. unfold determine_health_status, JAILED, AT_RISK, HEALTHY.
  repeat split; try discriminate.
  - intros ->. reflexivity.
  - intros -> Hgt. destruct (Z.gtb_spec missed_blocks (missed_blocks_threshold config));
      [reflexivity | lia].
  - intros -> Hle. destruct (Z.gtb_spec missed_blocks (missed_blocks_threshold config));
      [lia | reflexivity].
  - destruct jailed; [now left |].
    destruct (missed_blocks >? missed_blocks_threshold config); [right; now left | now do 2 right].
  - destruct (Z.gtb_spec (missed_blocks_threshold config) (missed_blocks_threshold config));
      [lia | reflexivity].
  - destruct (Z.gtb_spec (missed_blocks_threshold config + 1) (missed_blocks_threshold config));
      [reflexivity | lia].
Qed.

(** *** The order on sort keys *)

(** [k1 <= k2] for the tuples [sort_key] builds. *)
Definition key_le (k1 k2 : sortkey) : Prop :=
  k1.1 < k2.1 \/ (k1.1 = k2.1 /\ String.leb k1.2 k2.2 = true).

Lemma ascii_compare_refl (c : ascii) : Ascii.compare c c = Eq.
Proof. unfold Ascii.compare. apply N.compare_refl. Qed.

Lemma ascii_compare_lt_trans (a b c : ascii) :
  Ascii.compare a b = Lt -> Ascii.compare b c = Lt -> Ascii.compare a c = Lt.
Proof.
  unfold Ascii.compare. rewrite !N.compare_lt_iff. intros. etransitivity; eassumption.
Qed.

Lemma string_compare_refl (s : string) : String.compare s s = Eq.
Proof.
  induction s as [| c s IH]; simpl; [reflexivity |].
  rewrite ascii_compare_refl. exact IH.
Qed.

Lemma string_compare_lt_trans (s1 s2 s3 : string) :
  String.compare s1 s2 = Lt -> String.compare s2 s3 = Lt ->
  String.compare s1 s3 = Lt.
Proof.
  revert s2 s3. induction s1 as [| c1 s1 IH]; intros [| c2 s2] [| c3 s3];
    simpl; try discriminate; try reflexivity.
  destruct (Ascii.compare c1 c2) eqn:H12; try discriminate.
  - apply Ascii.compare_eq_iff in H12. subst c2.
    destruct (Ascii.compare c1 c3); try discriminate; eauto.
  - intros _. destruct (Ascii.compare c2 c3) eqn:H23; try discriminate.
    + apply Ascii.compare_eq_iff in H23. subst c3. rewrite H12. reflexivity.
    + rewrite (ascii_compare_lt_trans _ _ _ H12 H23). reflexivity.
Qed.

Lemma string_leb_refl (s : string) : String.leb s s = true.
Proof. unfold String.leb. rewrite string_compare_refl. reflexivity. Qed.

Lemma string_ltb_false_leb (s1 s2 : string) :
  String.ltb s1 s2 = false <-> String.leb s2 s1 = true.
Proof.
  unfold String.ltb, String.leb. rewrite (String.compare_antisym s2 s1).
  destruct (String.compare s1 s2); simpl; split; congruence.
Qed.

Lemma string_leb_trans (s1 s2 s3 : string) :
  String.leb s1 s2 = true -> String.leb s2 s3 = true -> String.leb s1 s3 = true.
Proof.
  unfold String.leb.
  destruct (String.compare s1 s2) eqn:H12; try discriminate;
    destruct (String.compare s2 s3) eqn:H23; try discriminate; intros _ _.
  - apply String.compare_eq_iff in H12, H23. subst. rewrite string_compare_refl. reflexivity.
  - apply String.compare_eq_iff in H12. subst. rewrite H23. reflexivity.
  - apply String.compare_eq_iff in H23. subst. rewrite H12. reflexivity.
  - rewrite (string_compare_lt_trans _ _ _ H12 H23). reflexivity.
Qed.

Lemma string_ltb_irrefl (s : string) : String.ltb s s = false.
Proof. unfold String.ltb. rewrite string_compare_refl. reflexivity. Qed.

Lemma key_lt_false_le (k1 k2 : sortkey) : key_lt k1 k2 = false <-> key_le k2 k1.
Proof.
  unfold key_lt, key_le. destruct k1 as [a1 s1], k2 as [a2 s2]; simpl.
  rewrite orb_false_iff, andb_false_iff, Z.ltb_ge, Z.eqb_neq, string_ltb_false_leb.
  split.
  - intros [Hge [Hne | Hle]]; [left; lia |].
    destruct (Z.eq_dec a2 a1); [right; auto | left; lia].
  - intros [Hlt | [-> Hle]]; (split; [lia |]); [left; lia | right; exact Hle].
Qed.

Lemma key_lt_irrefl (k : sortkey) : key_lt k k = false.
Proof.
  unfold key_lt. rewrite Z.ltb_irrefl, string_ltb_irrefl, andb_false_r. reflexivity.
Qed.

Lemma key_le_refl (k : sortkey) : key_le k k.
Proof. right. split; [reflexivity | apply string_leb_refl]. Qed.

Lemma key_le_trans (k1 k2 k3 : sortkey) : key_le k1 k2 -> key_le k2 k3 -> key_le k1 k3.
Proof.
  unfold key_le. intros [H12 | [E12 L12]] [H23 | [E23 L23]].
  - left; lia.
  - left; lia.
  - left; lia.
  - right. split; [congruence | eapply string_leb_trans; eassumption].
Qed.

Lemma key_le_total (k1 k2 : sortkey) : key_le k1 k2 \/ key_le k2 k1.
Proof.
  destruct (key_lt k1 k2) eqn:H; [| right; apply key_lt_false_le; exact H].
  left. unfold key_lt in H. unfold key_le.
  apply orb_true_iff in H as [H | H]; [left; lia |].
  apply andb_true_iff in H as [He Hl]. right. split; [lia |].
  unfold String.ltb in Hl. unfold String.leb.
  destruct (String.compare k1.2 k2.2); congruence.
Qed.

Lemma key_le_antisym (k1 k2 : sortkey) : key_le k1 k2 -> key_le k2 k1 -> k1 = k2.
Proof.
  destruct k1 as [a1 s1], k2 as [a2 s2]. unfold key_le; simpl.
  intros [H12 | [E12 L12]] [H21 | [E21 L21]]; try lia.
  subst. f_equal. apply String.leb_antisym; assumption.
Qed.

(** *** The stable sort *)

Section StableSort.

Context {A : Type}.

Implicit Types (x : sortkey * A) (l : list (sortkey * A)).

Definition fst_le (x y : sortkey * A) : Prop := key_le x.1 y.1.

Lemma insert_sorted_perm x l : insert_sorted x l ≡ₚ x :: l.
Proof.
  induction l as [| y l IH]; simpl; [reflexivity |].
  destruct (key_lt y.1 x.1); [| reflexivity].
  rewrite IH. apply Permutation_swap.
Qed.

Lemma stable_sort_perm l : stable_sort l ≡ₚ l.
Proof.
  induction l as [| x l IH]; simpl; [reflexivity |].
  rewrite insert_sorted_perm. rewrite IH. reflexivity.
Qed.

Lemma insert_sorted_sorted x l :
  StronglySorted fst_le l -> StronglySorted fst_le (insert_sorted x l).
Proof.
  induction l as [| y l IH]; simpl; intros Hs.
  - constructor; [constructor | constructor].
  - apply StronglySorted_inv in Hs as [Hs Hy].
    destruct (key_lt y.1 x.1) eqn:Hlt.
    + constructor; [apply IH; exact Hs |].
      rewrite insert_sorted_perm. constructor; [| exact Hy].
      destruct (key_le_total y.1 x.1) as [H | H]; [exact H |].
      apply key_lt_false_le in H. congruence.
    + apply key_lt_false_le in Hlt.
      constructor; [constructor; assumption |].
      constructor; [exact Hlt |].
      eapply Forall_impl; [exact Hy |].
      intros z Hz. eapply key_le_trans; eassumption.
Qed.

Lemma stable_sort_sorted l : StronglySorted fst_le (stable_sort l).
Proof.
  induction l as [| x l IH]; simpl; [constructor |].
  apply insert_sorted_sorted. exact IH.
Qed.

(** Stability: the elements that carry a given key come out in the
    order they went in. *)
Lemma insert_sorted_stable (k : sortkey) x l :
  filter (fun y => y.1 = k) (insert_sorted x l) = filter (fun y => y.1 = k) (x :: l).
Proof.
  induction l as [| y l IH]; simpl; [reflexivity |].
  destruct (key_lt y.1 x.1) eqn:Hlt; [| reflexivity].
  rewrite filter_cons, IH, !filter_cons.
  destruct (decide (y.1 = k)) as [Hy |]; [| reflexivity].
  destruct (decide (x.1 = k)) as [Hx |]; [| reflexivity].
  rewrite Hy, Hx, key_lt_irrefl in Hlt. discriminate.
Qed.

Lemma stable_sort_stable (k : sortkey) l :
  filter (fun y => y.1 = k) (stable_sort l) = filter (fun y => y.1 = k) l.
Proof.
  induction l as [| x l IH]; simpl; [reflexivity |].
  rewrite insert_sorted_stable, !filter_cons, IH. reflexivity.
Qed.

End StableSort.

(** *** The report assembler, in closed form *)

Definition tier (config : AppConfig) (r : ValidatorRecord) : string :=
  health_status (determine_health_status (rec_jailed r) (rec_missed_blocks r) config).

Definition severity (status : string) : Z := default 99 (status_order !! status).

Definition lowered (v : json) : string :=
  match v with JStr s => lower s | _ => "" end.

(** The key [sort_key] computes for a record whose moniker is a string. *)
Definition record_key (config : AppConfig) (r : ValidatorRecord) : sortkey :=
  (severity (tier config r), lowered (rec_moniker r)).

Definition row_key (row : ReportRow) : sortkey :=
  (severity (row_status row), lowered (row_moniker row)).

Definition record_le (config : AppConfig) (a b : ValidatorRecord) : Prop :=
  key_le (record_key config a) (record_key config b).

Definition row_le (a b : ReportRow) : Prop := key_le (row_key a) (row_key b).

Definition str_moniker (r : ValidatorRecord) : Prop :=
  exists s, rec_moniker r = JStr s.

(** The full sorted record sequence. *)
Definition ordered (config : AppConfig) (records : list ValidatorRecord)
  : list ValidatorRecord :=
  List.map snd (stable_sort (List.map (fun r => (record_key config r, r)) records)).

(** A record survives the hide-healthy filter. *)
Definition shown (config : AppConfig) (r : ValidatorRecord) : bool :=
  negb (hide_healthy config && String.eqb (tier config r) "HEALTHY").

(** What the [break] of the loop keeps of the records still to come,
    [n] rows having been appended already. *)
Definition cap {A : Type} (config : AppConfig) (n : nat) (l : list A) : list A :=
  if max_results config =? 0 then l
  else take (Z.to_nat (Z.max 1 (max_results config - Z.of_nat n))) l.

(** The records that get a row. *)
Definition displayed (config : AppConfig) (records : list ValidatorRecord)
  : list ValidatorRecord :=
  cap config 0 (filter (shown config) (ordered config records)).

(** The counters after counting a list of statuses. *)
Definition tally (counts : gmap string nat) (statuses : list string) : gmap string nat :=
  foldl (fun m s => <[s := S (default 0%nat (m !! s))]> m) counts statuses.

(** [sum(d.values())] *)
Definition sum_values (d : gmap string nat) : nat :=
  foldr Nat.add 0%nat (List.map snd (map_to_list d)).

Lemma sort_key_ok config r :
  str_moniker r -> sort_key config r = Ok (record_key config r).
Proof. intros [s Hs]. unfold sort_key, record_key, lowered, tier, severity. rewrite Hs. reflexivity. Qed.

Lemma sort_key_raises config r :
  ~ str_moniker r -> exists e, sort_key config r = Raise e.
Proof.
  intros Hn. unfold sort_key.
  destruct (rec_moniker r) eqn:Hm; simpl; eauto.
  exfalso. apply Hn. eexists. exact Hm.
Qed.

Lemma mapM_sort_key config records :
  Forall str_moniker records ->
  mapM (sort_key config) records = Ok (List.map (record_key config) records).
Proof.
  induction 1 as [| r records Hr _ IH]; simpl; [reflexivity |].
  rewrite (sort_key_ok _ _ Hr). simpl. rewrite IH. reflexivity.
Qed.

Lemma mapM_sort_key_inv config records keys :
  mapM (sort_key config) records = Ok keys -> Forall str_moniker records.
Proof.
  revert keys. induction records as [| r records IH]; intros keys; simpl; [constructor |].
  destruct (sort_key config r) as [k |] eqn:Hk; simpl; [| discriminate].
  destruct (mapM (sort_key config) records) as [ks |] eqn:Hks; simpl; [| discriminate].
  intros _. constructor; [| eapply IH; reflexivity].
  unfold sort_key in Hk. destruct (rec_moniker r) eqn:Hm; simpl in Hk; try discriminate.
  eexists. exact Hm.
Qed.

Lemma combine_map_self {A B : Type} (f : A -> B) (l : list A) :
  combine (List.map f l) l = List.map (fun x => (f x, x)) l.
Proof. induction l as [| x l IH]; simpl; [reflexivity | rewrite IH; reflexivity]. Qed.

Lemma sorted_ok config records :
  Forall str_moniker records ->
  sorted (sort_key config) records = Ok (ordered config records).
Proof.
  intros H. unfold sorted, ordered. rewrite (mapM_sort_key _ _ H). simpl.
  rewrite combine_map_self. reflexivity.
Qed.

(** The decorated list stays decorated by the key of each record. *)
Lemma stable_sort_decorated config records :
  stable_sort (List.map (fun r => (record_key config r, r)) records)
  = List.map (fun r => (record_key config r, r)) (ordered config records).
Proof.
  unfold ordered.
  set (d := stable_sort _).
  assert (Hd : Forall (fun p => p = (record_key config p.2, p.2)) d).
  { unfold d. rewrite stable_sort_perm. apply List.Forall_forall.
    intros p Hp. apply in_map_iff in Hp as [r [<- _]]. reflexivity. }
  clearbody d. induction Hd as [| p d Hp _ IH]; simpl; [reflexivity |].
  rewrite <- IH, <- Hp. reflexivity.
Qed.

Lemma ordered_perm config records : ordered config records ≡ₚ records.
Proof.
  unfold ordered. rewrite stable_sort_perm, List.map_map. simpl.
  rewrite List.map_id. reflexivity.
Qed.

Lemma ordered_sorted config records :
  StronglySorted (record_le config) (ordered config records).
Proof.
  pose proof (stable_sort_sorted
                (List.map (fun r => (record_key config r, r)) records)) as Hs.
  rewrite stable_sort_decorated in Hs.
  induction (ordered config records) as [| r l IH]; [constructor |].
  simpl in Hs. apply StronglySorted_inv in Hs as [Hs Hr].
  constructor; [apply IH; exact Hs |].
  apply List.Forall_forall. intros x Hx.
  rewrite List.Forall_forall in Hr.
  apply (Hr (record_key config x, x)). apply in_map_iff. eauto.
Qed.

Lemma filter_map_decorated config (k : sortkey) (l : list ValidatorRecord) :
  List.map snd
    (filter (fun y : sortkey * ValidatorRecord => y.1 = k)
       (List.map (fun r => (record_key config r, r)) l))
  = filter (fun r => record_key config r = k) l.
Proof.
  induction l as [| r l IH]; simpl; [reflexivity |].
  rewrite !filter_cons. simpl.
  destruct (decide (record_key config r = k)); simpl; rewrite IH; reflexivity.
Qed.

Lemma ordered_stable config records (k : sortkey) :
  filter (fun r => record_key config r = k) (ordered config records)
  = filter (fun r => record_key config r = k) records.
Proof.
  rewrite <- !filter_map_decorated, <- stable_sort_decorated, stable_sort_stable.
  reflexivity.
Qed.

(** Sortedness and stability leave no choice: two sorted lists that
    agree key by key are equal. Any stable sort, Python's included,
    therefore returns [ordered]. *)
Lemma sorted_stable_unique {A : Type} (key : A -> sortkey) (l1 : list A) :
  forall l2,
  StronglySorted (fun a b => key_le (key a) (key b)) l1 ->
  StronglySorted (fun a b => key_le (key a) (key b)) l2 ->
  (forall k, filter (fun y => key y = k) l1 = filter (fun y => key y = k) l2) ->
  l1 = l2.
Proof.
  induction l1 as [| x l1 IH]; intros l2 Hs1 Hs2 Hf.
  - destruct l2 as [| y l2]; [reflexivity |].
    specialize (Hf (key y)). rewrite filter_nil, filter_cons_True in Hf by reflexivity.
    discriminate.
  - destruct l2 as [| y l2].
    { specialize (Hf (key x)). rewrite filter_nil, filter_cons_True in Hf by reflexivity.
      discriminate. }
    apply StronglySorted_inv in Hs1 as [Hs1 Hx], Hs2 as [Hs2 Hy].
    assert (Hk : key x = key y).
    { destruct (decide (key x = key y)) as [| Hne]; [assumption |].
      apply key_le_antisym.
      - pose proof (Hf (key y)) as Hfy.
        rewrite (filter_cons_True _ y), (filter_cons_False _ x) in Hfy by auto.
        assert (Hin : y ∈ l1).
        { eapply (proj1 (list_elem_of_filter _ _ _)). rewrite Hfy. left. }
        rewrite Forall_forall in Hx. exact (Hx y Hin).
      - pose proof (Hf (key x)) as Hfx.
        rewrite (filter_cons_True _ x), (filter_cons_False _ y) in Hfx by auto.
        assert (Hin : x ∈ l2).
        { eapply (proj1 (list_elem_of_filter _ _ _)). rewrite <- Hfx. left. }
        rewrite Forall_forall in Hy. exact (Hy x Hin). }
    assert (Hxy : x = y).
    { pose proof (Hf (key x)) as Hfx.
      rewrite !filter_cons_True in Hfx by auto. congruence. }
    subst y. f_equal. apply IH; [assumption | assumption |].
    intros k. specialize (Hf k). rewrite !filter_cons in Hf.
    destruct (decide (key x = k)); congruence.
Qed.

Lemma cap_nil {A : Type} config n : @cap A config n [] = [].
Proof. unfold cap. destruct (max_results config =? 0); [reflexivity | apply take_nil]. Qed.

(** One step of the loop seen from the cap: the first record still to
    come always gets its row, and the loop goes on only while the
    number of rows stays below a non-zero [max_results]. *)
Lemma cap_cons {A : Type} config n (x : A) (l : list A) :
  cap config n (x :: l)
  = x :: (if negb (max_results config =? 0)
             && (Z.of_nat (S n) >=? max_results config)
          then [] else cap config (S n) l).
Proof.
  unfold cap. destruct (Z.eqb_spec (max_results config) 0) as [| Hne]; simpl; [reflexivity |].
  destruct (Z.geb_spec (Z.of_nat (S n)) (max_results config)) as [Hge | Hlt].
  - replace (Z.max 1 (max_results config - Z.of_nat n)) with 1 by lia. reflexivity.
  - replace (Z.to_nat (Z.max 1 (max_results config - Z.of_nat n)))
      with (S (Z.to_nat (Z.max 1 (max_results config - Z.of_nat (S n))))) by lia.
    reflexivity.
Qed.

Lemma cap_sublist {A : Type} config n (l : list A) : cap config n l `sublist_of` l.
Proof. unfold cap. destruct (max_results config =? 0); [reflexivity | apply sublist_take]. Qed.

Lemma shown_false_iff config r :
  shown config r = false <-> hide_healthy config = true /\ tier config r = "HEALTHY".
Proof.
  unfold shown. rewrite negb_false_iff, andb_true_iff, String.eqb_eq. reflexivity.
Qed.

Lemma row_status_make_row config r : row_status (make_row config r) = tier config r.
Proof. reflexivity. Qed.

Lemma report_loop_spec config todo : forall rows counts,
  report_loop config todo rows counts
  = (rows ++ List.map (make_row config)
               (cap config (length rows) (filter (shown config) todo)),
     tally counts
       (List.map (tier config)
          (cap config (length rows) (filter (shown config) todo)))).
Proof.
  induction todo as [| r todo IH]; intros rows counts; simpl.
  - rewrite filter_nil, cap_nil. simpl. rewrite app_nil_r. reflexivity.
  - fold (tier config r).
    destruct (hide_healthy config && String.eqb (tier config r) "HEALTHY") eqn:Hhide.
    + rewrite filter_cons_False; [apply IH |].
      unfold shown. rewrite Hhide. simpl. auto.
    + rewrite filter_cons_True by (unfold shown; rewrite Hhide; simpl; auto).
      rewrite cap_cons, length_app. simpl length.
      replace (length rows + 1)%nat with (S (length rows)) by lia.
      destruct (negb (max_results config =? 0)
                && (Z.of_nat (S (length rows)) >=? max_results config)).
      * reflexivity.
      * rewrite IH, length_app. simpl length.
        replace (length rows + 1)%nat with (S (length rows)) by lia.
        simpl. rewrite <- app_assoc. reflexivity.
Qed.

(** *** The status counters *)

Lemma sum_values_insert (d : gmap string nat) (s : string) :
  sum_values (<[s := S (default 0%nat (d !! s))]> d) = S (sum_values d).
Proof.
  unfold sum_values.
  assert (Hperm : forall l l' : list (string * nat), l ≡ₚ l' ->
            foldr Nat.add 0%nat (List.map snd l) = foldr Nat.add 0%nat (List.map snd l')).
  { induction 1; simpl; lia. }
  destruct (d !! s) as [v |] eqn:Hs; simpl.
  - rewrite <- insert_delete_eq.
    rewrite (Hperm _ _ (map_to_list_insert (delete s d) s (S v) (lookup_delete_eq d s))).
    rewrite <- (Hperm _ _ (map_to_list_delete d s v Hs)). simpl. lia.
  - rewrite (Hperm _ _ (map_to_list_insert d s 1%nat Hs)). simpl. lia.
Qed.

Lemma tally_sum statuses : forall counts,
  sum_values (tally counts statuses) = (sum_values counts + length statuses)%nat.
Proof.
  unfold tally. induction statuses as [| s l IH]; intros counts; simpl; [lia |].
  rewrite IH, sum_values_insert. lia.
Qed.

Lemma tally_lookup statuses (s : string) : forall counts,
  default 0%nat (tally counts statuses !! s)
  = (default 0%nat (counts !! s) + length (filter (fun x => x = s) statuses))%nat.
Proof.
  unfold tally. induction statuses as [| x l IH]; intros counts; simpl; [lia |].
  rewrite IH, filter_cons. destruct (decide (x = s)) as [-> | Hne].
  - rewrite lookup_insert_eq. simpl. lia.
  - rewrite lookup_insert_ne by exact Hne. reflexivity.
Qed.

Lemma tally_absent statuses (s : string) : forall counts,
  tally counts statuses !! s = None <-> counts !! s = None /\ s ∉ statuses.
Proof.
  tidy.
  unfold tally. induction statuses as [| x l IH]; intros counts; simpl.
  - split; [intros H; split; [exact H | apply not_elem_of_nil] | tauto].
  - rewrite IH, not_elem_of_cons. destruct (decide (x = s)) as [-> | Hne].
    + rewrite lookup_insert_eq. split; [intros [H _]; discriminate | tauto].
    + rewrite lookup_insert_ne by exact Hne. split; [| tauto].
      intros [H1 H2]. repeat split; auto.
Qed.

Lemma sum_values_empty : sum_values ∅ = 0%nat.
Proof. unfold sum_values. rewrite map_to_list_empty. reflexivity. Qed.

(** What [prepare_report_data] returns on records whose monikers are
    strings. *)
Definition report_of (config : AppConfig) (records : list ValidatorRecord) : ReportData :=
  let shown_records := displayed config records in
  {| rows := List.map (make_row config) shown_records;
     status_counts := tally ∅ (List.map (tier config) shown_records);
     total_records := length records;
     total_shown := length shown_records;
     filtered_out_healthy :=
       hide_healthy config && (0 <? length records)%nat
       && (length shown_records =? 0)%nat |}.

Lemma prepare_report_data_eq config records :
  Forall str_moniker records ->
  prepare_report_data records config = Ok (report_of config records).
Proof.
  intros H. unfold prepare_report_data. rewrite (sorted_ok _ _ H). simpl.
  rewrite report_loop_spec. simpl. unfold report_of, displayed.
  rewrite !length_map. reflexivity.
Qed.

(** It raises on any other list: the sort key calls [lower] on each
    moniker before any row is built. *)
Lemma prepare_report_data_returns config records rd :
  prepare_report_data records config = Ok rd -> Forall str_moniker records.
Proof.
  unfold prepare_report_data, sorted. intros H.
  destruct (mapM (sort_key config) records) as [keys |] eqn:Hk; simpl in H; [| discriminate].
  eapply mapM_sort_key_inv. exact Hk.
Qed.

(** *** Properties of the report *)

Lemma StronglySorted_sublist {A : Type} (R : A -> A -> Prop) (l1 l2 : list A) :
  l1 `sublist_of` l2 -> StronglySorted R l2 -> StronglySorted R l1.
Proof.
  induction 1 as [| x l1 l2 Hsub IH | x l1 l2 Hsub IH]; intros Hs.
  - constructor.
  - apply StronglySorted_inv in Hs as [Hs Hx].
    constructor; [apply IH; exact Hs |].
    rewrite Forall_forall in Hx |- *. intros y Hy.
    apply Hx. eapply elem_of_sublist; eassumption.
  - apply StronglySorted_inv in Hs as [Hs _]. apply IH. exact Hs.
Qed.

Lemma row_key_make_row config r : row_key (make_row config r) = record_key config r.
Proof. reflexivity. Qed.

Lemma rows_sorted config (l : list ValidatorRecord) :
  StronglySorted (record_le config) l ->
  StronglySorted row_le (List.map (make_row config) l).
Proof.
  induction 1 as [| r l Hs IH Hr]; simpl; constructor; [exact IH |].
  clear Hs IH. induction Hr as [| x l Hx _ IH]; simpl; constructor; [| exact IH].
  unfold row_le. rewrite !row_key_make_row. exact Hx.
Qed.

Lemma displayed_sublist config records :
  displayed config records `sublist_of` ordered config records.
Proof.
  unfold displayed. etransitivity; [apply cap_sublist | apply sublist_filter].
Qed.

Lemma cap_nil_iff {A : Type} config n (l : list A) : cap config n l = [] <-> l = [].
Proof.
  destruct l as [| x l]; [rewrite cap_nil; tauto |].
  rewrite cap_cons. split; discriminate.
Qed.

Lemma filter_shown_nil config (l : list ValidatorRecord) :
  filter (shown config) l = [] <-> Forall (fun r => shown config r = false) l.
Proof.
  induction l as [| r l IH]; [rewrite filter_nil; split; [constructor | reflexivity] |].
  rewrite filter_cons, Forall_cons. destruct (decide (shown config r)) as [Hs | Hs].
  - split; [discriminate |]. intros [Hr _]. rewrite Hr in Hs. destruct Hs.
  - rewrite IH. split; [| tauto]. intros Hl. split; [| exact Hl].
    destruct (shown config r); [destruct Hs; exact I | reflexivity].
Qed.

Lemma displayed_nil_iff config records :
  displayed config records = [] <-> Forall (fun r => shown config r = false) records.
Proof.
  unfold displayed. rewrite cap_nil_iff, filter_shown_nil.
  rewrite (ordered_perm config records). reflexivity.
Qed.

Lemma elem_of_displayed config records r :
  r ∈ displayed config records -> shown config r = true /\ r ∈ records.
Proof.
  intros Hr. unfold displayed in Hr.
  pose proof (elem_of_sublist _ _ _ Hr (cap_sublist config 0%nat _)) as Hf.
  apply list_elem_of_filter in Hf as [Hs Hin].
  rewrite (ordered_perm config records) in Hin.
  split; [apply Is_true_true; exact Hs | exact Hin].
Qed.

Lemma statuses_of_rows config (l : list ValidatorRecord) :
  List.map (tier config) l = List.map row_status (List.map (make_row config) l).
Proof. rewrite List.map_map. reflexivity. Qed.

Lemma length_filter_map {A B : Type} (f : A -> B) (P : B -> Prop)
    `{forall y, Decision (P y)} (l : list A) :
  length (filter P (List.map f l)) = length (filter (fun x => P (f x)) l).
Proof.
  induction l as [| x l IH]; simpl; [reflexivity |].
  rewrite !filter_cons. destruct (decide (P (f x))); simpl; rewrite IH; reflexivity.
Qed.

(** C4. The rows follow the full sorted record sequence: that sequence
    is a rearrangement of the input, in ascending order of tier severity
    (JAILED, then AT_RISK, then HEALTHY) and, within a tier, of the
    lower-cased moniker; records with equal keys keep their input order,
    which determines the sequence; the records that get a row are a
    subsequence of it, so the rows are in that same order. *)
Theorem prepare_report_data_row_order (config : AppConfig)
    (records : list ValidatorRecord) :
  Forall str_moniker records ->
  exists rd shown_records,
    prepare_report_data records config = Ok rd
    /\ rows rd = List.map (make_row config) shown_records
    /\ shown_records `sublist_of` ordered config records
    /\ ordered config records ≡ₚ records
    /\ StronglySorted (record_le config) (ordered config records)
    /\ (forall k : sortkey,
          filter (fun r => record_key config r = k) (ordered config records)
          = filter (fun r => record_key config r = k) records)
    /\ (forall other : list ValidatorRecord,
          StronglySorted (record_le config) other ->
          (forall k : sortkey,
             filter (fun r => record_key config r = k) other
             = filter (fun r => record_key config r = k) records) ->
          other = ordered config records)
    /\ StronglySorted row_le (rows rd)
    /\ severity "JAILED" < severity "AT_RISK" < severity "HEALTHY".
Proof.
  intros H. exists (report_of config records), (displayed config records).
  split; [apply prepare_report_data_eq; exact H |].
  split; [reflexivity |].
  split; [apply displayed_sublist |].
  split; [apply ordered_perm |].
  split; [apply ordered_sorted |].
  split; [intros k; apply ordered_stable |].
  split.
  { intros other Hs Hf. apply (sorted_stable_unique (record_key config));
      [exact Hs | apply ordered_sorted |].
    intros k. rewrite ordered_stable. apply Hf. }
  split; [| vm_compute; split; reflexivity].
  simpl. apply rows_sorted.
  eapply StronglySorted_sublist; [apply displayed_sublist | apply ordered_sorted].
Qed.

(** C6. With [max_results = N > 0] at most [N] rows are emitted: the
    first [N] of the sorted records that survive the hide-healthy
    filter. The counters count the emitted rows only, and
    [total_records] is the size of the whole input. *)
Theorem prepare_report_data_max_results (config : AppConfig)
    (records : list ValidatorRecord) :
  max_results config > 0 ->
  Forall str_moniker records ->
  exists rd,
    prepare_report_data records config = Ok rd
    /\ Z.of_nat (length (rows rd)) <= max_results config
    /\ rows rd
       = List.map (make_row config)
           (take (Z.to_nat (max_results config))
              (filter (shown config) (ordered config records)))
    /\ (forall s : string,
          default 0%nat (status_counts rd !! s)
          = length (filter (fun row => row_status row = s) (rows rd)))
    /\ (forall s : string,
          status_counts rd !! s = None <-> s ∉ List.map row_status (rows rd))
    /\ total_records rd = length records.
Proof.
  tidy.
  intros HN H. exists (report_of config records).
  split; [apply prepare_report_data_eq; exact H |].
  assert (Hd : displayed config records
               = take (Z.to_nat (max_results config))
                   (filter (shown config) (ordered config records))).
  { unfold displayed, cap. destruct (Z.eqb_spec (max_results config) 0); [lia |].
    do 2 f_equal. lia. }
  simpl. split; [| split; [| split; [| split]]].
  - rewrite length_map, Hd, length_take. lia.
  - rewrite Hd. reflexivity.
  - intros s. rewrite tally_lookup, lookup_empty, statuses_of_rows, length_filter_map.
    reflexivity.
  - intros s. rewrite tally_absent, lookup_empty, statuses_of_rows. tauto.
  - reflexivity.
Qed.

(** C8. In every report [total_shown], the number of rows and the sum
    of the status counters agree. *)
Theorem prepare_report_data_totals (config : AppConfig)
    (records : list ValidatorRecord) :
  Forall str_moniker records ->
  exists rd,
    prepare_report_data records config = Ok rd
    /\ total_shown rd = length (rows rd)
    /\ length (rows rd) = sum_values (status_counts rd).
Proof.
  intros H. exists (report_of config records).
  split; [apply prepare_report_data_eq; exact H |].
  simpl. rewrite tally_sum, sum_values_empty, !length_map. split; reflexivity.
Qed.

(** C10. The cap never empties the report: as soon as one record
    survives the hide-healthy filter there is a row, whatever
    [max_results] is. Hence, on a non-empty input,
    [filtered_out_healthy] holds exactly when [hide_healthy] is set and
    every record is HEALTHY. *)
Theorem prepare_report_data_filtered_out (config : AppConfig)
    (records : list ValidatorRecord) :
  Forall str_moniker records ->
  exists rd,
    prepare_report_data records config = Ok rd
    /\ (Exists (fun r => shown config r = true) records -> rows rd <> [])
    /\ (records <> [] ->
        (filtered_out_healthy rd = true
         <-> hide_healthy config = true
             /\ Forall (fun r => tier config r = "HEALTHY") records)).
Proof.
  intros H. exists (report_of config records).
  split; [apply prepare_report_data_eq; exact H |].
  simpl. split.
  - intros Hex Hrows. apply map_eq_nil in Hrows. apply displayed_nil_iff in Hrows.
    apply Exists_exists in Hex as [r [Hin Hr]].
    rewrite Forall_forall in Hrows. rewrite (Hrows r Hin) in Hr. discriminate.
  - intros Hne.
    rewrite !andb_true_iff, Nat.ltb_lt, Nat.eqb_eq, length_zero_iff_nil, displayed_nil_iff.
    split.
    + intros [[Hh _] Hall]. split; [exact Hh |].
      eapply Forall_impl; [exact Hall |]. intros r Hr. apply shown_false_iff in Hr. tauto.
    + intros [Hh Hall]. split; [split; [exact Hh |] |].
      * destruct records; [congruence | simpl; lia].
      * eapply Forall_impl; [exact Hall |]. intros r Hr. apply shown_false_iff. tauto.
Qed.

(** The same configuration with the hide-healthy flag set to [b]. *)
Definition with_hide_healthy (b : bool) (config : AppConfig) : AppConfig :=
  {| base_url := base_url config;
     missed_blocks_threshold := missed_blocks_threshold config;
     max_results := max_results config;
     max_retries := max_retries config;
     retry_backoff := retry_backoff config;
     hide_healthy := b;
     html_output := html_output config;
     html_title := html_title config |}.

Lemma cap_all {A : Type} config (l : list A) :
  max_results config = 0 \/ Z.of_nat (length l) <= max_results config ->
  cap config 0 l = l.
Proof.
  intros Hcap. unfold cap. destruct (Z.eqb_spec (max_results config) 0); [reflexivity |].
  apply take_ge. lia.
Qed.

Lemma filter_shown_all config (l : list ValidatorRecord) :
  hide_healthy config = false -> filter (shown config) l = l.
Proof.
  intros Hh. induction l as [| r l IH]; [reflexivity |].
  rewrite filter_cons_True, IH; [reflexivity |].
  unfold shown. rewrite Hh. exact I.
Qed.

(** C5, as the code has it. With [hide_healthy] set no row is HEALTHY
    and no HEALTHY record is counted in [status_counts] or
    [total_shown], while [total_records] counts every record. On a
    non-empty input whose records are all HEALTHY, [hide_healthy] gives
    [total_shown = 0] and sets [filtered_out_healthy]; the same input
    without [hide_healthy] gives [total_shown = total_records] when the
    cap does not cut the list ([max_results] is 0 or at least the number
    of records). *)
Theorem prepare_report_data_hide_healthy (config : AppConfig)
    (records : list ValidatorRecord) :
  Forall str_moniker records ->
  exists hidden full,
    prepare_report_data records (with_hide_healthy true config) = Ok hidden
    /\ prepare_report_data records (with_hide_healthy false config) = Ok full
    /\ Forall (fun row => row_status row <> "HEALTHY") (rows hidden)
    /\ status_counts hidden !! "HEALTHY" = None
    /\ total_shown hidden = length (rows hidden)
    /\ total_records hidden = length records
    /\ (records <> [] ->
        Forall (fun r => tier config r = "HEALTHY") records ->
        total_shown hidden = 0%nat
        /\ filtered_out_healthy hidden = true
        /\ (max_results config = 0 \/ Z.of_nat (length records) <= max_results config ->
            total_shown full = total_records full)).
Proof.
  intros H.
  exists (report_of (with_hide_healthy true config) records),
         (report_of (with_hide_healthy false config) records).
  split; [apply prepare_report_data_eq; exact H |].
  split; [apply prepare_report_data_eq; exact H |].
  assert (Hnot : forall r, r ∈ displayed (with_hide_healthy true config) records ->
                           tier config r <> "HEALTHY").
  { intros r Hr Ht. apply elem_of_displayed in Hr as [Hs _].
    unfold shown in Hs. simpl in Hs.
    change (tier (with_hide_healthy true config) r) with (tier config r) in Hs.
    rewrite Ht in Hs. discriminate. }
  simpl. split; [| split; [| split; [| split]]].
  - apply Forall_forall. intros row Hrow.
    apply list_elem_of_In, in_map_iff in Hrow as [r [<- Hr]].
    apply list_elem_of_In in Hr. exact (Hnot r Hr).
  - apply tally_absent. split; [apply lookup_empty |].
    intros Hin. apply list_elem_of_In, in_map_iff in Hin as [r [Ht Hr]].
    apply list_elem_of_In in Hr. exact (Hnot r Hr Ht).
  - rewrite length_map. reflexivity.
  - reflexivity.
  - intros Hne Hall.
    assert (Hd : displayed (with_hide_healthy true config) records = []).
    { apply displayed_nil_iff. eapply Forall_impl; [exact Hall |].
      intros r Hr. apply shown_false_iff. split; [reflexivity | exact Hr]. }
    rewrite Hd. simpl. split; [reflexivity |]. split.
    + destruct records; [congruence | reflexivity].
    + intros Hcap. unfold displayed.
      rewrite filter_shown_all by reflexivity.
      rewrite cap_all; [apply Permutation_length, ordered_perm |].
      rewrite (Permutation_length (ordered_perm _ records)). exact Hcap.
Qed.

(** *** Properties of the fetcher *)

Definition fails (o : http_outcome) : Prop := exists exc, o = HttpError exc.

Definition failure_of (o : http_outcome) : string :=
  match o with
  | HttpError exc => exc
  | HttpResponse _ => ""
  end.

(** The events of failed attempts in a row, the first of them being GET
    number [i] (counted from 0, so attempt [i + 1]): each GET is
    followed by its warning and by a sleep; [delays] are the lengths of
    the sleeps. *)
Fixpoint failed_attempts (url : string) (max_retries : Z) (i : nat)
    (delays : list flt) : list event :=
  match delays with
  | [] => []
  | d :: delays' =>
      [EvGet url;
       EvWarning (failure_of (server url i)) (Z.of_nat (S i)) max_retries d;
       EvSleep d]
      ++ failed_attempts url max_retries (S i) delays'
  end.

(** [delays] are the powers [retry_backoff ** i], [retry_backoff ** (i + 1)],
    and so on, each of them computed and slept without an exception. *)
Fixpoint slept (retry_backoff : flt) (i : nat) (delays : list flt) : Prop :=
  match delays with
  | [] => True
  | d :: delays' =>
      float_pow retry_backoff (Z.of_nat i) = Ok d
      /\ sleep d = Ok tt
      /\ slept retry_backoff (S i) delays'
  end.

Definition sleeps (trace : list event) : list flt :=
  flat_map (fun e => match e with EvSleep d => [d] | _ => [] end) trace.

(** What the code after the loop makes of [response.json()]. *)
Definition decode_response (url : string) (body : json_outcome)
  : result (gmap string json) :=
  match body with
  | JsonDecodeError => Raise (ApiClientError ("Invalid JSON response from " +:+ url))
  | JsonRaises e => Raise e
  | JsonValue (JDict data) => Ok data
  | JsonValue data =>
      Raise (ApiClientError
               ("Unexpected response type from " +:+ url +:+ ": " +:+ type_name data))
  end.

(** How the loop is left at GET number [n], once the attempts before it
    have failed and their sleeps are over: the result, and the events
    that follow the GET. *)
Definition last_step (url : string) (max_retries : Z) (retry_backoff : flt)
    (n : nat) (res : result json_outcome) (after_get : list event) : Prop :=
  match server url n with
  | HttpResponse body => res = Ok body /\ after_get = []
  | HttpError exc =>
      if Z.of_nat (S n) >=? max_retries then
        res = Raise (ApiClientError ("Failed to fetch data from " +:+ url))
        /\ after_get = []
      else
        match float_pow retry_backoff (Z.of_nat n) with
        | Raise e => res = Raise e /\ after_get = []
        | Ok d =>
            after_get = [EvWarning exc (Z.of_nat (S n)) max_retries d; EvSleep d]
            /\ exists e, sleep d = Raise e /\ res = Raise e
        end
  end.

Lemma count_gets_app (t1 t2 : list event) :
  count_gets (t1 ++ t2) = (count_gets t1 + count_gets t2)%nat.
Proof. unfold count_gets. rewrite List.filter_app, length_app. reflexivity. Qed.

Lemma count_gets_failed_attempts url m delays : forall i,
  count_gets (failed_attempts url m i delays) = length delays.
Proof.
  induction delays as [| d ds IH]; intros i; simpl; [reflexivity |].
  change (count_gets (EvGet url :: ?t)) with (S (count_gets t)).
  f_equal. apply IH.
Qed.

Lemma sleeps_failed_attempts url m delays : forall i,
  sleeps (failed_attempts url m i delays) = delays.
Proof.
  induction delays as [| d ds IH]; intros i; simpl; [reflexivity |].
  f_equal. apply IH.
Qed.

Lemma slept_powers b delays : forall i,
  slept b i delays ->
  mapM (fun j => float_pow b (Z.of_nat j)) (seq i (length delays)) = Ok delays
  /\ Forall (fun d => sleep d = Ok tt) delays.
Proof.
  induction delays as [| d ds IH]; intros i; simpl; [intros _; split; [reflexivity | constructor] |].
  intros (Hp & Hs & Hrest). destruct (IH (S i) Hrest) as [Hm Hf].
  rewrite Hp. simpl. rewrite Hm. simpl. split; [reflexivity | constructor; assumption].
Qed.

(** Failed attempts whose sleeps return are passed over: the loop goes
    on at the attempt that follows them. *)
Lemma retry_loop_skip url m b delays : forall fuel i trace,
  count_gets trace = i ->
  (forall j, (i <= j < i + length delays)%nat -> fails (server url j)) ->
  slept b i delays ->
  Z.of_nat (i + length delays) < m \/ delays = [] ->
  retry_loop (length delays + fuel) url m b (Z.of_nat (S i)) trace
  = retry_loop fuel url m b (Z.of_nat (S (i + length delays)))
      (trace ++ failed_attempts url m i delays).
Proof.
  induction delays as [| d ds IH]; intros fuel i trace Hc Hf Hs Hm; simpl.
  - rewrite Nat.add_0_r, app_nil_r. reflexivity.
  - destruct Hm as [Hm | Hm]; [| discriminate]. simpl in Hm.
    destruct Hs as (Hp & Hsl & Hrest).
    rewrite Hc. destruct (Hf i ltac:(simpl; lia)) as [exc Hexc]. rewrite Hexc. simpl.
    destruct (Z.geb_spec (Z.of_nat (S i)) m) as [Hge | Hlt]; [lia |].
    replace (Z.of_nat (S i) - 1) with (Z.of_nat i) by lia.
    rewrite Hp, Hsl.
    replace (Z.of_nat (S i) + 1) with (Z.of_nat (S (S i))) by lia.
    rewrite (IH fuel (S i)).
    + rewrite <- !app_assoc. replace (S i + length ds)%nat with (i + S (length ds))%nat by lia.
      reflexivity.
    + rewrite !count_gets_app, Hc. unfold count_gets. simpl. lia.
    + intros j Hj. apply Hf. simpl. lia.
    + exact Hrest.
    + left. lia.
Qed.

(** One turn of the loop, at GET number [n]. *)
Lemma retry_loop_step url m b fuel (n : nat) trace :
  count_gets trace = n ->
  retry_loop (S fuel) url m b (Z.of_nat (S n)) trace
  = match server url n with
    | HttpResponse body => Some (Ok body, trace ++ [EvGet url])
    | HttpError exc =>
        if Z.of_nat (S n) >=? m then
          Some (Raise (ApiClientError ("Failed to fetch data from " +:+ url)),
                trace ++ [EvGet url])
        else
          match float_pow b (Z.of_nat n) with
          | Raise e => Some (Raise e, trace ++ [EvGet url])
          | Ok d =>
              match sleep d with
              | Raise e =>
                  Some (Raise e,
                        (trace ++ [EvGet url])
                        ++ [EvWarning exc (Z.of_nat (S n)) m d; EvSleep d])
              | Ok _ =>
                  retry_loop fuel url m b (Z.of_nat (S (S n)))
                    ((trace ++ [EvGet url])
                     ++ [EvWarning exc (Z.of_nat (S n)) m d; EvSleep d])
              end
          end
    end.
Proof.
  intros Hc. simpl. rewrite Hc.
  replace (Z.of_nat (S n) - 1) with (Z.of_nat n) by lia.
  replace (Z.of_nat (S n) + 1) with (Z.of_nat (S (S n))) by lia.
  reflexivity.
Qed.

(** The loop always ends within its fuel: after failed attempts whose
    sleeps return it is left at a GET, in one of the ways of
    [last_step], and it never sends more GETs than [max_retries] (one
    when [max_retries] is below one). *)
Lemma retry_loop_run url m b : forall fuel i trace,
  count_gets trace = i ->
  (1 <= fuel)%nat ->
  Z.max 1 m - Z.of_nat i <= Z.of_nat fuel ->
  exists delays res after_get,
    retry_loop fuel url m b (Z.of_nat (S i)) trace
    = Some (res, trace ++ failed_attempts url m i delays ++ EvGet url :: after_get)
    /\ Z.of_nat (S (i + length delays)) <= Z.max (Z.of_nat (S i)) m
    /\ (forall j, (i <= j < i + length delays)%nat -> fails (server url j))
    /\ slept b i delays
    /\ last_step url m b (i + length delays) res after_get.
Proof.
  induction fuel as [| fuel IH]; intros i trace Hc H1 Hfuel; [lia |].
  rewrite (retry_loop_step _ _ _ _ _ _ Hc).
  assert (Hstop : forall res after_get,
            last_step url m b i res after_get ->
            exists delays res' after_get',
              Some (res, trace ++ EvGet url :: after_get)
              = Some (res', trace ++ failed_attempts url m i delays
                              ++ EvGet url :: after_get')
              /\ Z.of_nat (S (i + length delays)) <= Z.max (Z.of_nat (S i)) m
              /\ (forall j, (i <= j < i + length delays)%nat -> fails (server url j))
              /\ slept b i delays
              /\ last_step url m b (i + length delays) res' after_get').
  { intros res after_get Hl. exists [], res, after_get. simpl. rewrite Nat.add_0_r.
    split; [reflexivity |]. split; [lia |]. split; [intros j Hj; lia |].
    split; [exact I | exact Hl]. }
  unfold last_step in Hstop.
  destruct (server url i) as [exc | body] eqn:Hs.
  - destruct (Z.geb_spec (Z.of_nat (S i)) m) as [Hge | Hlt].
    + apply Hstop. split; reflexivity.
    + destruct (float_pow b (Z.of_nat i)) as [d | e] eqn:Hp.
      * destruct (sleep d) as [[] | e] eqn:Hsl.
        -- destruct (IH (S i) ((trace ++ [EvGet url])
                      ++ [EvWarning exc (Z.of_nat (S i)) m d; EvSleep d]))
             as (delays & res & after_get & Hr & Hn & Hf & Hd & Hl).
           ++ rewrite !count_gets_app, Hc. unfold count_gets. simpl. lia.
           ++ lia.
           ++ lia.
           ++ exists (d :: delays), res, after_get. simpl.
              replace (i + S (length delays))%nat with (S i + length delays)%nat by lia.
              split; [rewrite Hr, Hs; rewrite <- !app_assoc; reflexivity |].
              split; [lia |]. split.
              { intros j Hj. destruct (Nat.eq_dec j i) as [-> | Hne];
                  [eexists; exact Hs | apply Hf; lia]. }
              split; [repeat split; assumption | exact Hl].
        -- rewrite <- app_assoc. apply Hstop. split; [reflexivity | eauto].
      * apply Hstop. split; reflexivity.
  - apply Hstop. split; reflexivity.
Qed.

Lemma get_api_data_unfold endpoint base max_retries_ backoff :
  String.prefix "/" endpoint = true ->
  get_api_data endpoint base max_retries_ backoff
  = match retry_loop (S (Z.to_nat max_retries_)) (base +:+ endpoint)
            max_retries_ backoff 1 [] with
    | None => None
    | Some (Raise e, trace) => Some (Raise e, trace)
    | Some (Ok body, trace) => Some (decode_response (base +:+ endpoint) body, trace)
    end.
Proof.
  intros H. unfold get_api_data. rewrite H. cbn [negb].
  destruct (retry_loop _ _ _ _ _ _) as [[[[[| | | | | |] | |] |] trace] |]; reflexivity.
Qed.

(** After [length delays] failed attempts whose sleeps return, with
    attempts left, the fetcher does what one turn of the loop does at
    the next GET. *)
Lemma get_api_data_after endpoint base max_retries_ backoff delays :
  String.prefix "/" endpoint = true ->
  let url := base +:+ endpoint in
  let n := length delays in
  (forall j, (j < n)%nat -> fails (server url j)) ->
  slept backoff 0 delays ->
  Z.of_nat n < max_retries_ \/ delays = [] ->
  get_api_data endpoint base max_retries_ backoff
  = match retry_loop (S (Z.to_nat max_retries_ - n)) url max_retries_ backoff
            (Z.of_nat (S n)) (failed_attempts url max_retries_ 0 delays) with
    | None => None
    | Some (Raise e, trace) => Some (Raise e, trace)
    | Some (Ok body, trace) => Some (decode_response url body, trace)
    end.
Proof.
  intros Hp url n Hf Hs Hm. subst n.
  rewrite (get_api_data_unfold _ _ _ _ Hp). fold url.
  assert (Hn : (length delays <= Z.to_nat max_retries_)%nat)
    by (destruct Hm as [Hm | Hm]; [lia | rewrite Hm; simpl; lia]).
  replace (S (Z.to_nat max_retries_))
    with (length delays + S (Z.to_nat max_retries_ - length delays))%nat by lia.
  change 1 with (Z.of_nat 1).
  rewrite (retry_loop_skip url max_retries_ backoff delays _ 0 []);
    [reflexivity | reflexivity | intros j Hj; apply Hf; lia | exact Hs | exact Hm].
Qed.

(** C3, where the code departs from it. The power
    [retry_backoff ** (attempt - 1)] and [time.sleep] run inside the
    [except] handler with nothing around them. When, after failed
    attempts whose sleeps returned, attempt [i + 1 < max_retries] fails
    and its power or its sleep raises [e], the fetcher raises [e] at
    once. It has then sent [i + 1] GETs, fewer than [max_retries], and
    it makes no further attempt, whatever the server would answer to
    one: neither is the payload of a later attempt returned, nor does
    the failure of all attempts end in the fetch-failure error. *)
Theorem get_api_data_retries (endpoint base : string) (max_retries_ : Z)
    (backoff : flt) (delays : list flt) (e : exn) :
  String.prefix "/" endpoint = true ->
  let url := base +:+ endpoint in
  let i := length delays in
  Z.of_nat (S i) < max_retries_ ->
  (forall j, (j <= i)%nat -> fails (server url j)) ->
  slept backoff 0 delays ->
  float_pow backoff (Z.of_nat i) = Raise e
  \/ (exists d, float_pow backoff (Z.of_nat i) = Ok d /\ sleep d = Raise e) ->
  exists trace,
    get_api_data endpoint base max_retries_ backoff = Some (Raise e, trace)
    /\ trace
       = failed_attempts url max_retries_ 0 delays
           ++ EvGet url
              :: match float_pow backoff (Z.of_nat i) with
                 | Ok d =>
                     [EvWarning (failure_of (server url i)) (Z.of_nat (S i))
                        max_retries_ d;
                      EvSleep d]
                 | Raise _ => []
                 end
    /\ count_gets trace = S i
    /\ Z.of_nat (count_gets trace) < max_retries_.
Proof.
  intros Hp url i Hm Hf Hs Hraise. subst i.
  rewrite (get_api_data_after endpoint base max_retries_ backoff delays Hp);
    [| intros j Hj; apply Hf; lia | exact Hs | left; lia].
  fold url.
  rewrite (retry_loop_step url max_retries_ backoff _ (length delays))
    by apply count_gets_failed_attempts.
  destruct (Hf (length delays) ltac:(lia)) as [exc Hexc]. rewrite Hexc. simpl failure_of.
  destruct (Z.geb_spec (Z.of_nat (S (length delays))) max_retries_) as [Hge | Hlt]; [lia |].
  assert (Hgets : forall tail,
            count_gets tail = 0%nat ->
            count_gets (failed_attempts url max_retries_ 0 delays ++ EvGet url :: tail)
            = S (length delays)).
  { intros tail Ht. rewrite count_gets_app, count_gets_failed_attempts.
    change (count_gets (EvGet url :: tail)) with (S (count_gets tail)). lia. }
  destruct Hraise as [Hpow | (d & Hpow & Hsleep)]; rewrite Hpow.
  - eexists. split; [reflexivity |]. split; [reflexivity |].
    rewrite Hgets by reflexivity. split; [reflexivity | lia].
  - rewrite Hsleep. eexists. split; [reflexivity |].
    split; [rewrite <- app_assoc; reflexivity |].
    rewrite <- app_assoc. simpl app. rewrite Hgets by reflexivity.
    split; [reflexivity | lia].
Qed.

(** C9, where the code departs from it. When the request succeeds, after
    failed attempts whose sleeps returned, the fetcher sends no further
    GET and its result is decided by [response.json()]. A value that is
    not an object and a body that [json.JSONDecodeError] rejects raise
    [ApiClientError]. Every other exception of the decoder is not caught
    by [except json.JSONDecodeError]: it leaves the fetcher as it is,
    and is not the error raised when the retries are exhausted. *)
Theorem get_api_data_payload_shape (endpoint base : string) (max_retries_ : Z)
    (backoff : flt) (delays : list flt) (body : json_outcome) :
  String.prefix "/" endpoint = true ->
  let url := base +:+ endpoint in
  let k := length delays in
  Z.of_nat k < max_retries_ \/ delays = [] ->
  (forall j, (j < k)%nat -> fails (server url j)) ->
  slept backoff 0 delays ->
  server url k = HttpResponse body ->
  let trace := failed_attempts url max_retries_ 0 delays ++ [EvGet url] in
  get_api_data endpoint base max_retries_ backoff
  = Some (match body with
          | JsonValue (JDict data) => Ok data
          | JsonValue data =>
              Raise (ApiClientError
                       ("Unexpected response type from " +:+ url +:+ ": "
                        +:+ type_name data))
          | JsonDecodeError =>
              Raise (ApiClientError ("Invalid JSON response from " +:+ url))
          | JsonRaises e => Raise e
          end, trace)
  /\ count_gets trace = S k
  /\ last trace = Some (EvGet url).
Proof.
  intros Hp url k Hm Hf Hs Hbody trace. subst k trace.
  rewrite (get_api_data_after endpoint base max_retries_ backoff delays Hp Hf Hs Hm).
  fold url.
  rewrite (retry_loop_step url max_retries_ backoff _ (length delays))
    by apply count_gets_failed_attempts.
  rewrite Hbody. split; [| split].
  - destruct body as [[| | | | | |] | |]; reflexivity.
  - rewrite count_gets_app, count_gets_failed_attempts. unfold count_gets. simpl. lia.
  - apply last_snoc.
Qed.

(** *** Properties of the deriver *)

Lemma lor_shiftl_8 a v : 0 <= v < 256 -> Z.lor (Z.shiftl a 8) v = 256 * a + v.
Proof.
  intros Hv. rewrite Z.shiftl_mul_pow2 by lia.
  pose proof (Z.add_lor_land (a * 2 ^ 8) v) as H.
  assert (Hl : Z.land (a * 2 ^ 8) v = 0).
  { apply Z.bits_inj'. intros n Hn. rewrite Z.land_spec, Z.bits_0.
    destruct (Z.ltb_spec n 8).
    - rewrite Z.mul_pow2_bits_low by lia. reflexivity.
    - rewrite <- (Z.mod_small v (2 ^ 8)) by (change (2 ^ 8) with 256; lia).
      rewrite Z.mod_pow2_bits_high by lia. apply andb_false_r. }
  rewrite Hl in H. change (2 ^ 8) with 256 in *. lia.
Qed.

Lemma shr_mask x s : 0 <= s <= 7 ->
  Z.land (Z.shiftr (x mod 4096) s) 31 = (x / 2 ^ s) mod 32.
Proof.
  tidy.
  intros Hs. change 31 with (Z.ones 5). rewrite Z.land_ones by lia.
  rewrite Z.shiftr_div_pow2 by lia.
  assert (Hc : s = 0 \/ s = 1 \/ s = 2 \/ s = 3 \/ s = 4 \/ s = 5 \/ s = 6 \/ s = 7) by lia.
  change (2 ^ 5) with 32.
  destruct Hc as [-> | [-> | [-> | [-> | [-> | [-> | [-> | ->]]]]]]];
    cbn [Z.pow Z.pow_pos Pos.iter Z.mul Pos.mul];
    Z.div_mod_to_equations; lia.
Qed.

Lemma map_seq_shift {B : Type} (f : nat -> B) (a n : nat) :
  List.map f (seq a n) = List.map (fun t => f (a + t)%nat) (seq 0 n).
Proof.
  revert f a. induction n as [| n IH]; intros f a; simpl; [reflexivity |].
  rewrite Nat.add_0_r. f_equal. rewrite (IH f (S a)), (IH (fun t => f (a + t)%nat) 1%nat).
  apply map_ext. intros t. f_equal. lia.
Qed.

Lemma drain_spec acc : forall fuel bits ret,
  0 <= bits <= Z.of_nat fuel ->
  Bech32.drain fuel acc bits 5 31 ret
  = (bits mod 5,
     ret ++ List.map (fun t => Z.land (Z.shiftr acc (bits - 5 * (Z.of_nat t + 1))) 31)
              (seq 0 (Z.to_nat (bits / 5)))).
Proof.
  tidy.
  induction fuel as [| fuel IH]; intros bits ret Hb; simpl.
  - replace bits with 0 by lia. simpl. rewrite app_nil_r. reflexivity.
  - destruct (Z.geb_spec bits 5) as [Hge | Hlt].
    + rewrite IH by lia.
      replace (Z.to_nat (bits / 5)) with (S (Z.to_nat ((bits - 5) / 5)))
        by (Z.div_mod_to_equations; lia).
      cbn [seq List.map]. rewrite (map_seq_shift _ 1).
      rewrite <- app_assoc. cbn [app].
      replace ((bits - 5) mod 5) with (bits mod 5) by (Z.div_mod_to_equations; lia).
      rewrite (map_ext
                 (fun t => Z.land (Z.shiftr acc (bits - 5 * (Z.of_nat (1 + t) + 1))) 31)
                 (fun t => Z.land (Z.shiftr acc (bits - 5 - 5 * (Z.of_nat t + 1))) 31))
        by (intros t; do 2 f_equal; lia).
      replace (bits - 5 * (Z.of_nat 0 + 1)) with (bits - 5) by lia. reflexivity.
    + rewrite Z.mod_small by lia. rewrite Z.div_small by lia. simpl.
      rewrite app_nil_r. reflexivity.
Qed.

(** The [j]-th group of five bits, counted from the most significant
    end, of the [n]-bit number [V]. *)
Definition group_at (V n : Z) (j : nat) : Z :=
  (V / 2 ^ (n - 5 * (Z.of_nat j + 1))) mod 32.

Lemma convert_loop_bytes (data : list Z) :
  Forall (fun v => 0 <= v < 256) data ->
  forall V n, 0 <= n ->
  Bech32.convert_loop data 8 5 31 4095 (V mod 4096) (n mod 5)
    (List.map (group_at V n) (seq 0 (Z.to_nat (n / 5))))
  = let V' := fold_left (fun a b => 256 * a + b) data V in
    let n' := n + 8 * Z.of_nat (length data) in
    Some (V' mod 4096, n' mod 5,
          List.map (group_at V' n') (seq 0 (Z.to_nat (n' / 5)))).
Proof.
  tidy.
  induction 1 as [| v data Hv _ IH]; intros V n Hn.
  - simpl. rewrite Z.add_0_r. reflexivity.
  - cbn [Bech32.convert_loop].
    replace ((v <? 0) || negb (Z.shiftr v 8 =? 0)) with false.
    2:{ symmetry. apply orb_false_iff. split; [lia |].
        rewrite Z.shiftr_div_pow2 by lia. change (2 ^ 8) with 256.
        rewrite Z.div_small by lia. reflexivity. }
    rewrite lor_shiftl_8 by exact Hv.
    change 4095 with (Z.ones 12). rewrite Z.land_ones by lia.
    change (2 ^ 12) with 4096.
    replace ((256 * (V mod 4096) + v) mod 4096) with ((256 * V + v) mod 4096)
      by (Z.div_mod_to_equations; lia).
    rewrite drain_spec by (Z.div_mod_to_equations; lia).
    specialize (IH (256 * V + v) (n + 8) ltac:(lia)).
    cbn zeta in IH |- *.
    replace (n + 8 * Z.of_nat (length (v :: data)))
      with (n + 8 + 8 * Z.of_nat (length data)) by (simpl length; lia).
    simpl fold_left. rewrite <- IH. clear IH.
    replace ((n mod 5 + 8) mod 5) with ((n + 8) mod 5) by (Z.div_mod_to_equations; lia).
    f_equal.
    replace (Z.to_nat ((n + 8) / 5))
      with (Z.to_nat (n / 5) + Z.to_nat ((n mod 5 + 8) / 5))%nat
      by (Z.div_mod_to_equations; lia).
    rewrite seq_app, List.map_app. simpl. f_equal.
    + apply map_ext_in. intros j Hj. apply in_seq in Hj. unfold group_at.
      replace (n + 8 - 5 * (Z.of_nat j + 1)) with (8 + (n - 5 * (Z.of_nat j + 1))) by lia.
      rewrite Z.pow_add_r by (Z.div_mod_to_equations; lia).
      rewrite <- Z.div_div by (try apply Z.pow_pos_nonneg; Z.div_mod_to_equations; lia).
      change (2 ^ 8) with 256.
      replace ((256 * V + v) / 256) with V by (Z.div_mod_to_equations; lia).
      reflexivity.
    + rewrite (map_seq_shift _ (Z.to_nat (n / 5))).
      apply map_ext_in. intros t Ht. apply in_seq in Ht.
      rewrite shr_mask by (Z.div_mod_to_equations; lia).
      unfold group_at. do 3 f_equal. Z.div_mod_to_equations; lia.
Qed.

Definition be_value (bytes : list byte) : Z :=
  fold_left (fun a b => 256 * a + b) (List.map byte_to_Z bytes) 0.

Lemma byte_to_Z_range (b : byte) : 0 <= byte_to_Z b < 256.
Proof. unfold byte_to_Z. pose proof (Byte.to_N_bounded b). lia. Qed.

Lemma bytes_in_range (bytes : list byte) :
  Forall (fun v => 0 <= v < 256) (List.map byte_to_Z bytes).
Proof.
  induction bytes as [| b bytes IH]; simpl; constructor;
    [apply byte_to_Z_range | exact IH].
Qed.

(** On twenty bytes [convertbits] returns the thirty-two groups of the
    160-bit number the bytes spell, without padding. *)
Lemma convertbits_20_bytes (bytes : list byte) :
  length bytes = 20%nat ->
  Bech32.convertbits (List.map byte_to_Z bytes) 8 5 true
  = Some (List.map (group_at (be_value bytes) 160) (seq 0 32)).
Proof.
  intros Hlen. unfold Bech32.convertbits.
  change (Z.shiftl 1 5 - 1) with 31. change (Z.shiftl 1 (8 + 5 - 1) - 1) with 4095.
  pose proof (convert_loop_bytes _ (bytes_in_range bytes) 0 0 ltac:(lia)) as H.
  cbn zeta in H. rewrite length_map, Hlen in H.
  change (0 mod 4096) with 0 in H. change (0 mod 5) with 0 in H.
  change (List.map (group_at 0 0) (seq 0 (Z.to_nat (0 / 5)))) with (@nil Z) in H.
  rewrite H. fold (be_value bytes).
  change ((0 + 8 * Z.of_nat 20) mod 5) with 0.
  change (Z.to_nat ((0 + 8 * Z.of_nat 20) / 5)) with 32%nat.
  reflexivity.
Qed.

Lemma be_value_snoc (bytes : list byte) (b : byte) :
  be_value (bytes ++ [b]) = 256 * be_value bytes + byte_to_Z b.
Proof. unfold be_value. rewrite List.map_app, fold_left_app. reflexivity. Qed.

Lemma be_value_nonneg (bytes : list byte) : 0 <= be_value bytes.
Proof.
  induction bytes as [| b bytes IH] using rev_ind; [reflexivity |].
  rewrite be_value_snoc. pose proof (byte_to_Z_range b). lia.
Qed.

(** Bit [p] of the number, counted from the least significant end, is
    bit [p mod 8] of the byte [p / 8] places before the last one. *)
Lemma be_value_testbit (bytes : list byte) : forall p,
  0 <= p < 8 * Z.of_nat (length bytes) ->
  Z.testbit (be_value bytes) p
  = Z.testbit (byte_to_Z (nth (length bytes - 1 - Z.to_nat (p / 8)) bytes x00)) (p mod 8).
Proof.
  tidy.
  induction bytes as [| b bytes IH] using rev_ind; intros p Hp; [simpl in Hp; lia |].
  rewrite length_app in Hp |- *. simpl length in Hp |- *.
  rewrite be_value_snoc, <- lor_shiftl_8 by apply byte_to_Z_range.
  rewrite Z.lor_spec. destruct (Z.ltb_spec p 8) as [Hlt | Hge].
  - rewrite Z.shiftl_spec_low by lia. simpl.
    rewrite Z.div_small, Z.mod_small by lia.
    replace (length bytes + 1 - 1 - Z.to_nat 0)%nat with (length bytes) by lia.
    rewrite app_nth2, Nat.sub_diag by lia. reflexivity.
  - rewrite Z.shiftl_spec by lia.
    rewrite <- (Z.mod_small (byte_to_Z b) (2 ^ 8))
      by (change (2 ^ 8) with 256; apply byte_to_Z_range).
    rewrite Z.mod_pow2_bits_high by lia. rewrite orb_false_r.
    rewrite IH by lia.
    replace ((p - 8) mod 8) with (p mod 8) by (Z.div_mod_to_equations; lia).
    replace (length bytes + 1 - 1 - Z.to_nat (p / 8))%nat
      with (length bytes - 1 - Z.to_nat ((p - 8) / 8))%nat
      by (Z.div_mod_to_equations; lia).
    rewrite app_nth1 by (Z.div_mod_to_equations; lia). reflexivity.
Qed.

Lemma group_at_range V n j : 0 <= group_at V n j < 32.
Proof. unfold group_at. apply Z.mod_pos_bound. lia. Qed.

Lemma group_at_testbit V n j t :
  0 <= t < 5 -> 0 <= n - 5 * (Z.of_nat j + 1) ->
  Z.testbit (group_at V n j) t = Z.testbit V (n - 5 * (Z.of_nat j + 1) + t).
Proof.
  intros Ht He. unfold group_at. change 32 with (2 ^ 5).
  rewrite Z.mod_pow2_bits_low by lia.
  rewrite Z.div_pow2_bits by lia. f_equal. lia.
Qed.

(** Bit [i] of the byte string and of the symbol string, both read most
    significant bit first. *)
Definition stream_bit (bytes : list byte) (i : nat) : bool :=
  Z.testbit (byte_to_Z (nth (i / 8) bytes x00)) (7 - Z.of_nat (i mod 8)).

Definition symbol_bit (symbols : list Z) (i : nat) : bool :=
  Z.testbit (nth (i / 5) symbols 0) (4 - Z.of_nat (i mod 5)).

(** [symbols] is [bytes] cut again in groups of five bits, most
    significant bit first, the two strings having the same bits. *)
Definition regrouped (bytes : list byte) (symbols : list Z) : Prop :=
  (5 * length symbols = 8 * length bytes)%nat
  /\ Forall (fun d => 0 <= d < 32) symbols
  /\ forall i, (i < 8 * length bytes)%nat -> symbol_bit symbols i = stream_bit bytes i.

Lemma groups_regrouped (bytes : list byte) :
  length bytes = 20%nat ->
  regrouped bytes (List.map (group_at (be_value bytes) 160) (seq 0 32)).
Proof.
  tidy.
  intros Hlen. unfold regrouped. rewrite length_map, length_seq, Hlen.
  split; [reflexivity |]. split.
  - apply Forall_forall. intros d Hd. apply list_elem_of_In, in_map_iff in Hd as [j [<- _]].
    apply group_at_range.
  - intros i Hi. rewrite ?Hlen in Hi. unfold symbol_bit, stream_bit.
    pose proof (Nat.div_mod_eq i 5) as H5. pose proof (Nat.mod_upper_bound i 5 ltac:(lia)) as H5'.
    pose proof (Nat.div_mod_eq i 8) as H8. pose proof (Nat.mod_upper_bound i 8 ltac:(lia)) as H8'.
    rewrite (nth_indep _ 0 (group_at (be_value bytes) 160 0))
      by (rewrite length_map, length_seq; lia).
    rewrite (map_nth (group_at (be_value bytes) 160)), seq_nth by lia.
    rewrite Nat.add_0_l.
    rewrite group_at_testbit by lia.
    rewrite be_value_testbit by lia. rewrite Hlen.
    replace (160 - 5 * (Z.of_nat (i / 5) + 1) + (4 - Z.of_nat (i mod 5)))
      with (159 - Z.of_nat i) by lia.
    replace ((159 - Z.of_nat i) mod 8) with (7 - Z.of_nat (i mod 8))
      by (Z.div_mod_to_equations; lia).
    replace (20 - 1 - Z.to_nat ((159 - Z.of_nat i) / 8))%nat with (i / 8)%nat
      by (Z.div_mod_to_equations; lia).
    reflexivity.
Qed.

Lemma sha256_digest_length (msg : list byte) : length (Sha256.digest msg) = 32%nat.
Proof.
  unfold Sha256.digest. rewrite length_map.
  destruct (Sha256.blocks _ _ _) as [[[[[[[a b] c] d] e] f] g] h].
  reflexivity.
Qed.

Lemma charset_at_ok (d : Z) : 0 <= d < 32 -> exists c, Bech32.charset_at d = Ok c.
Proof.
  intros Hd.
  assert (Hall : Forall (fun n => exists c, Bech32.charset_at (Z.of_nat n) = Ok c) (seq 0 32)).
  { repeat (constructor; [eexists; reflexivity |]). constructor. }
  rewrite List.Forall_forall in Hall.
  rewrite <- (Z2Nat.id d) by lia. apply Hall. apply in_seq. lia.
Qed.

Lemma mapM_charset_at_ok (l : list Z) :
  Forall (fun d => 0 <= d < 32) l ->
  exists cs, mapM Bech32.charset_at l = Ok cs /\ length cs = length l.
Proof.
  induction 1 as [| d l Hd _ [cs [IH Hlen]]]; simpl; [exists []; split; reflexivity |].
  destruct (charset_at_ok d Hd) as [c Hc]. rewrite Hc, IH. simpl.
  exists (c :: cs). split; [reflexivity | simpl; lia].
Qed.

Lemma checksum_range hrp data :
  Forall (fun d => 0 <= d < 32) (Bech32.bech32_create_checksum hrp data).
Proof.
  unfold Bech32.bech32_create_checksum. apply Forall_forall. intros d Hd.
  apply list_elem_of_In, in_map_iff in Hd as [i [<- _]].
  change 31 with (Z.ones 5). rewrite Z.land_ones by lia.
  apply Z.mod_pos_bound. lia.
Qed.

Lemma length_string_of_list_ascii (cs : list ascii) :
  String.length (string_of_list_ascii cs) = length cs.
Proof. induction cs as [| c cs IH]; simpl; [reflexivity | rewrite IH; reflexivity]. Qed.

Lemma string_length_append (s1 s2 : string) :
  String.length (s1 +:+ s2) = (String.length s1 + String.length s2)%nat.
Proof.
  induction s1 as [| c s1 IH]; [reflexivity |].
  change (String c s1 +:+ s2) with (String c (s1 +:+ s2)). simpl. rewrite IH. reflexivity.
Qed.

Lemma string_prefix_append (s t : string) : String.prefix s (s +:+ t) = true.
Proof.
  induction s as [| c s IH]; [destruct t; reflexivity |].
  change (String c s +:+ t) with (String c (s +:+ t)). simpl.
  destruct (ascii_dec c c); [exact IH | congruence].
Qed.

(** Encoding symbols that fit five bits never fails, and yields the
    prefix, the separator, one character per symbol and six checksum
    characters. *)
Lemma bech32_encode_ok (hrp : string) (data : list Z) :
  Forall (fun d => 0 <= d < 32) data ->
  exists tail,
    Bech32.bech32_encode hrp data = Ok (hrp +:+ "1" +:+ tail)
    /\ String.length tail = (length data + 6)%nat.
Proof.
  intros Hd. unfold Bech32.bech32_encode.
  destruct (mapM_charset_at_ok (data ++ Bech32.bech32_create_checksum hrp data))
    as [cs [Hcs Hlen]].
  { apply Forall_app. split; [exact Hd | apply checksum_range]. }
  rewrite Hcs. simpl. eexists. split; [reflexivity |].
  rewrite length_string_of_list_ascii, Hlen, length_app.
  unfold Bech32.bech32_create_checksum. rewrite length_map. reflexivity.
Qed.

(** C1. On a key the strict base64 decoder accepts, the deriver
    returns the bech32 encoding, under the prefix "cosmosvalcons", of
    the first twenty bytes of the SHA-256 digest of the decoded key, cut
    again in thirty-two groups of five bits, most significant bit first;
    the address starts with "cosmosvalcons1" and has 52 characters. On a
    key the decoder rejects it raises [ValueError]. It is a function of
    its argument: two calls on the same key give the same result. *)
Theorem convert_pubkey_to_cons_address_spec (pubkey_b64 : string) :
  (forall key_bytes, b64decode pubkey_b64 = Some key_bytes ->
     let address_bytes := take 20 (Sha256.digest key_bytes) in
     exists symbols address,
       convert_pubkey_to_cons_address pubkey_b64 = Ok address
       /\ length address_bytes = 20%nat
       /\ length symbols = 32%nat
       /\ regrouped address_bytes symbols
       /\ Bech32.bech32_encode "cosmosvalcons" symbols = Ok address
       /\ String.prefix "cosmosvalcons1" address = true
       /\ String.length address = 52%nat)
  /\ (b64decode pubkey_b64 = None ->
      convert_pubkey_to_cons_address pubkey_b64
      = Raise (ValueError "Invalid base64 consensus public key"))
  /\ (forall r1 r2,
        convert_pubkey_to_cons_address pubkey_b64 = r1 ->
        convert_pubkey_to_cons_address pubkey_b64 = r2 -> r1 = r2).
Proof.
  split; [| split].
  - intros key_bytes Hdec address_bytes.
    assert (Hlen : length address_bytes = 20%nat).
    { unfold address_bytes. rewrite length_take, sha256_digest_length. reflexivity. }
    pose proof (groups_regrouped address_bytes Hlen) as Hre.
    set (symbols := List.map (group_at (be_value address_bytes) 160) (seq 0 32)) in *.
    destruct (bech32_encode_ok "cosmosvalcons" symbols) as [tail [Henc Htail]].
    { apply Hre. }
    exists symbols, ("cosmosvalcons" +:+ "1" +:+ tail).
    split; [| split; [exact Hlen | split; [reflexivity | split; [exact Hre |]]]].
    + unfold convert_pubkey_to_cons_address. rewrite Hdec.
      fold address_bytes. rewrite (convertbits_20_bytes _ Hlen). exact Henc.
    + split; [exact Henc |]. split.
      * apply (string_prefix_append "cosmosvalcons1" tail).
      * rewrite !string_length_append, Htail. reflexivity.
  - intros Hdec. unfold convert_pubkey_to_cons_address. rewrite Hdec. reflexivity.
  - intros r1 r2 <- <-. reflexivity.
Qed.

(** *** Properties of the merger *)

(** A validator whose [consensus_pubkey] is a dictionary, or absent, or
    null, or any other falsy value, and that carries no string under
    [key], is skipped. *)
Lemma merge_validator_skips_missing_key signing_info_map validator :
  validator !! "consensus_pubkey" = None ->
  merge_validator signing_info_map validator = Ok None.
Proof.
  intros Hk. unfold merge_validator.
  assert (Hm : exists m,
             (if isinstance_dict (dict_get validator "description" JNull)
              then value_get (dict_get validator "description" (JDict ∅)) "moniker" JNull
              else Ok JNull) = Ok m).
  { unfold dict_get. destruct (validator !! "description") as [[] |]; simpl; eauto. }
  destruct Hm as [m ->]. unfold bind at 1.
  unfold dict_get. rewrite Hk. reflexivity.
Qed.

(** A validator whose key the deriver rejects is skipped too. *)
Lemma merge_validator_skips_bad_key signing_info_map validator
    (d : gmap string json) (key : string) :
  validator !! "consensus_pubkey" = Some (JDict d) ->
  d !! "key" = Some (JStr key) ->
  b64decode key = None ->
  merge_validator signing_info_map validator = Ok None.
Proof.
  intros Hk Hd Hb. unfold merge_validator.
  assert (Hm : exists m,
             (if isinstance_dict (dict_get validator "description" JNull)
              then value_get (dict_get validator "description" (JDict ∅)) "moniker" JNull
              else Ok JNull) = Ok m).
  { unfold dict_get. destruct (validator !! "description") as [[] |]; simpl; eauto. }
  destruct Hm as [m ->]. unfold bind at 1.
  assert (Hp : py_or (dict_get validator "consensus_pubkey" JNull) (JDict ∅) = JDict d).
  { unfold dict_get. rewrite Hk. unfold py_or, truthy; simpl.
    destruct (Nat.eqb_spec (size d) 0) as [H0 | _]; [| reflexivity].
    apply map_size_empty_inv in H0. subst d. rewrite lookup_empty in Hd. discriminate. }
  rewrite Hp. unfold value_get, dict_get. rewrite Hd. unfold bind at 1. simpl.
  unfold convert_pubkey_to_cons_address. rewrite Hb. reflexivity.
Qed.

Lemma collect_loop_length signing_info_map validators : forall records out,
  collect_loop signing_info_map validators records = Ok out ->
  (length out <= length records + length validators)%nat.
Proof.
  induction validators as [| v vs IH]; intros records out; simpl.
  - intros [= <-]. lia.
  - destruct (merge_validator signing_info_map v) as [[record |] | e]; simpl;
      [| | discriminate]; intros H; apply IH in H; rewrite ?length_app in H; simpl in H; lia.
Qed.

(** When the merger returns, it returns at most one record per
    validator. *)
Lemma collect_validator_records_length signing_info_map validators out :
  collect_validator_records signing_info_map validators = Ok out ->
  (length out <= length validators)%nat.
Proof. intros H. apply collect_loop_length in H. simpl in H. exact H. Qed.

(** C7, where the code departs from it. A validator whose
    [consensus_pubkey] is a non-empty string is a validator without a
    consensus public key string under [key]; it is not skipped: the
    lookup of [key] raises [AttributeError], which nothing catches, and
    the whole batch is lost, whatever the signing infos and whatever the
    validators processed before it. *)
Theorem collect_validator_records_aborts
    (signing_info_map : gmap string (gmap string json))
    (before after : list (gmap string json)) (out : list ValidatorRecord) :
  let validator : gmap string json := <["consensus_pubkey" := JStr "abc"]> ∅ in
  collect_validator_records signing_info_map [validator]
  = Raise (AttributeError "'str' object has no attribute 'get'")
  /\ collect_validator_records signing_info_map (before ++ validator :: after) <> Ok out.
Proof.
  intros validator.
  assert (Hv : merge_validator signing_info_map validator
               = Raise (AttributeError "'str' object has no attribute 'get'")).
  { reflexivity. }
  split.
  - unfold collect_validator_records. simpl. rewrite Hv. reflexivity.
  - unfold collect_validator_records. generalize (@nil ValidatorRecord) as records.
    induction before as [| v vs IH]; intros records; simpl.
    + rewrite Hv. discriminate.
    + destruct (merge_validator signing_info_map v) as [merged | e]; simpl;
        [apply IH | discriminate].
Qed.

(** ** More of the program

    The two fetchers built on [get_api_data], further properties of the
    merger, the classifier and the assembler, the console renderer and
    the pipeline of [main]. *)

(** *** The two fetchers *)

Definition SIGNING_INFOS_ENDPOINT : string :=
  "/cosmos/slashing/v1beta1/signing_infos?pagination.limit=300".

Definition VALIDATORS_ENDPOINT : string :=
  "/cosmos/staking/v1beta1/validators?status=BOND_STATUS_BONDED&pagination.limit=300".

(** The body of the [for entry in signing_infos] loop. *)
Definition index_entry (signing_info_map : gmap string (gmap string json))
    (entry : json) : gmap string (gmap string json) :=
  match entry with
  | JDict d =>
      match dict_get d "address" JNull with
      | JStr address => <[address := d]> signing_info_map
      | _ => signing_info_map
      end
  | _ => signing_info_map
  end.

Definition fetch_signing_info_map (config : AppConfig)
  : option (result (gmap string (gmap string json)) * list event) :=
  match get_api_data SIGNING_INFOS_ENDPOINT (base_url config) (max_retries config)
          (retry_backoff config) with
  | None => None
  | Some (Raise e, trace) => Some (Raise e, trace)
  | Some (Ok payload, trace) =>
      match dict_get payload "info" JNull with
      | JNull =>
          Some (Raise (ApiClientError
                         "Field 'info' is missing from the signing infos payload."),
                trace)
      | JList signing_infos => Some (Ok (foldl index_entry ∅ signing_infos), trace)
      | _ => Some (Raise (ApiClientError "Field 'info' should be a list."), trace)
      end
  end.

Definition fetch_active_validators (config : AppConfig)
  : option (result (list (gmap string json)) * list event) :=
  match get_api_data VALIDATORS_ENDPOINT (base_url config) (max_retries config)
          (retry_backoff config) with
  | None => None
  | Some (Raise e, trace) => Some (Raise e, trace)
  | Some (Ok payload, trace) =>
      match dict_get payload "validators" JNull with
      | JNull =>
          Some (Raise (ApiClientError
                         "Field 'validators' is missing from the validators payload."),
                trace)
      | JList validators =>
          Some (Ok (omap (fun item => match item with
                                      | JDict d => Some d
                                      | _ => None
                                      end) validators), trace)
      | _ => Some (Raise (ApiClientError "Field 'validators' should be a list."), trace)
      end
  end.

(** [entry] is a dictionary whose [address] is the string [a]. *)
Definition has_address (a : string) (entry : json) : bool :=
  match entry with
  | JDict d =>
      match d !! "address" with
      | Some (JStr s) => String.eqb s a
      | _ => false
      end
  | _ => false
  end.

Lemma index_entry_lookup m entry (a : string) :
  index_entry m entry !! a
  = if has_address a entry
    then match entry with JDict d => Some d | _ => None end
    else m !! a.
Proof.
  unfold index_entry, has_address, dict_get.
  destruct entry as [| | | | | | d]; try reflexivity.
  destruct (d !! "address") as [[| | | | s | |] |]; simpl; try reflexivity.
  destruct (String.eqb_spec s a) as [-> | Hne].
  - apply lookup_insert_eq.
  - apply lookup_insert_ne. exact Hne.
Qed.

(** X1. The index built from the signing infos maps an address to the
    last dictionary entry that carries it as a string; entries that are
    not dictionaries, or whose address is missing or not a string, are
    ignored. Every entry is therefore stored under its own address. *)
Theorem signing_info_index_lookup (signing_infos : list json) (a : string) :
  JDict <$> (foldl index_entry ∅ signing_infos !! a)
  = last (List.filter (has_address a) signing_infos)
  /\ (forall d, foldl index_entry ∅ signing_infos !! a = Some d ->
                d !! "address" = Some (JStr a) /\ JDict d ∈ signing_infos).
Proof.
  induction signing_infos as [| entry l [IH1 IH2]] using rev_ind.
  - simpl. rewrite lookup_empty. split; [reflexivity | discriminate].
  - rewrite foldl_app, List.filter_app. simpl foldl. rewrite index_entry_lookup.
    cbn [List.filter]. destruct (has_address a entry) eqn:Ha.
    + rewrite last_snoc. unfold has_address in Ha.
      destruct entry as [| | | | | | d]; try discriminate.
      split; [reflexivity |]. intros d' [= <-].
      split; [| apply elem_of_app; right; left].
      destruct (d !! "address") as [[| | | | s | |] |]; try discriminate.
      apply String.eqb_eq in Ha. subst. reflexivity.
    + rewrite app_nil_r. split; [exact IH1 |].
      intros d Hd. destruct (IH2 d Hd) as [H1 H2].
      split; [exact H1 | apply elem_of_app; left; exact H2].
Qed.

(** The fetcher always ends, and never sends more GETs than
    [max_retries] (one when [max_retries] is below one). *)
Lemma get_api_data_ends endpoint base max_retries_ backoff :
  exists res trace,
    get_api_data endpoint base max_retries_ backoff = Some (res, trace)
    /\ Z.of_nat (count_gets trace) <= Z.max 1 max_retries_.
Proof.
  destruct (String.prefix "/" endpoint) eqn:Hp.
  - rewrite (get_api_data_unfold _ _ _ _ Hp).
    destruct (retry_loop_run (base +:+ endpoint) max_retries_ backoff
                (S (Z.to_nat max_retries_)) 0 [])
      as (delays & res & after_get & Hr & Hn & _ & _ & Hl);
      [reflexivity | lia | lia |].
    change (Z.of_nat 1) with 1 in Hr. rewrite Hr.
    assert (Ha : count_gets after_get = 0%nat).
    { unfold last_step in Hl.
      destruct (server (base +:+ endpoint) (0 + length delays)) as [exc | body];
        [| destruct Hl as [_ ->]; reflexivity].
      destruct (Z.of_nat (S (0 + length delays)) >=? max_retries_);
        [destruct Hl as [_ ->]; reflexivity |].
      destruct (float_pow backoff (Z.of_nat (0 + length delays)));
        [destruct Hl as [-> _] | destruct Hl as [_ ->]]; reflexivity. }
    assert (Hc : Z.of_nat (count_gets ([] ++ failed_attempts (base +:+ endpoint)
                                               max_retries_ 0 delays
                                        ++ EvGet (base +:+ endpoint) :: after_get))
                 <= Z.max 1 max_retries_).
    { simpl app. rewrite count_gets_app, count_gets_failed_attempts.
      change (count_gets (EvGet ?u :: ?t)) with (S (count_gets t)).
      rewrite Ha. simpl in Hn. lia. }
    destruct res as [body | e]; eexists _, _; (split; [reflexivity | exact Hc]).
  - unfold get_api_data. rewrite Hp. eexists _, _.
    split; [reflexivity | unfold count_gets; simpl; lia].
Qed.

Lemma omap_dicts (l : list json) :
  List.map JDict
    (omap (fun item => match item with JDict d => Some d | _ => None end) l)
  = List.filter isinstance_dict l.
Proof.
  induction l as [| [| | | | | | d] l IH]; simpl; try exact IH; [reflexivity |].
  rewrite <- IH. reflexivity.
Qed.

Lemma map_JDict_inj (l1 l2 : list (gmap string json)) :
  List.map JDict l1 = List.map JDict l2 -> l1 = l2.
Proof.
  revert l2. induction l1 as [| d1 l1 IH]; intros [| d2 l2]; simpl;
    try discriminate; [reflexivity |].
  intros [= -> H]. f_equal. apply IH. exact H.
Qed.

(** X2. Fetching the signing infos always ends, after at most
    [max_retries] GETs (one when [max_retries] is below one). It returns
    exactly when the fetcher returns a payload with a list under [info],
    and then returns the index of that list. It raises exactly: what the
    fetcher raises, unchanged; the "missing" error on a payload without
    [info] or with a null one; and the "should be a list" error on any
    other [info]. *)
Theorem fetch_signing_info_map_outcome (config : AppConfig) :
  let fetched :=
    get_api_data SIGNING_INFOS_ENDPOINT (base_url config) (max_retries config)
      (retry_backoff config) in
  exists res trace,
    fetch_signing_info_map config = Some (res, trace)
    /\ Z.of_nat (count_gets trace) <= Z.max 1 (max_retries config)
    /\ (forall m,
          res = Ok m <->
          exists payload signing_infos,
            fetched = Some (Ok payload, trace)
            /\ payload !! "info" = Some (JList signing_infos)
            /\ m = foldl index_entry ∅ signing_infos)
    /\ (forall e,
          res = Raise e <->
          fetched = Some (Raise e, trace)
          \/ exists payload,
               fetched = Some (Ok payload, trace)
               /\ ((payload !! "info" = None \/ payload !! "info" = Some JNull)
                   /\ e = ApiClientError
                            "Field 'info' is missing from the signing infos payload."
                   \/ (exists v, payload !! "info" = Some v /\ v <> JNull
                                 /\ forall l, v <> JList l)
                      /\ e = ApiClientError "Field 'info' should be a list.")).
Proof.
  tidy. intros fetched.
  destruct (get_api_data_ends SIGNING_INFOS_ENDPOINT (base_url config)
              (max_retries config) (retry_backoff config))
    as (res & trace & Hg & Hn).
  unfold fetch_signing_info_map. subst fetched. rewrite Hg.
  destruct res as [payload | e].
  - unfold dict_get.
    destruct (payload !! "info") as [[| b | n | x | s | l | d] |] eqn:Hi; simpl;
      eexists _, _; (split; [reflexivity |]); (split; [exact Hn |]);
      (split; [intros m | intros e]); (split; [intros [= <-] | intros H]);
      try (right; exists payload; split; [reflexivity |]);
      naive_solver.
  - eexists _, _. split; [reflexivity |]. split; [exact Hn |].
    split; [intros m | intros e']; naive_solver.
Qed.

(** X3. Fetching the validators always ends, after at most
    [max_retries] GETs (one when [max_retries] is below one). It returns
    exactly when the fetcher returns a payload with a list under
    [validators], and then returns the dictionaries of that list, in
    their order, every other item being dropped. An exception of the
    fetcher is raised unchanged, and a payload without [validators], or
    with a null one, raises the "missing" error. *)
Theorem fetch_active_validators_outcome (config : AppConfig) :
  let fetched :=
    get_api_data VALIDATORS_ENDPOINT (base_url config) (max_retries config)
      (retry_backoff config) in
  exists res trace,
    fetch_active_validators config = Some (res, trace)
    /\ Z.of_nat (count_gets trace) <= Z.max 1 (max_retries config)
    /\ (forall validators,
          res = Ok validators <->
          exists payload items,
            fetched = Some (Ok payload, trace)
            /\ payload !! "validators" = Some (JList items)
            /\ List.map JDict validators = List.filter isinstance_dict items)
    /\ (forall e, fetched = Some (Raise e, trace) -> res = Raise e)
    /\ (forall payload,
          fetched = Some (Ok payload, trace) ->
          payload !! "validators" = None \/ payload !! "validators" = Some JNull ->
          res = Raise (ApiClientError
                         "Field 'validators' is missing from the validators payload.")).
Proof.
  tidy. intros fetched.
  destruct (get_api_data_ends VALIDATORS_ENDPOINT (base_url config)
              (max_retries config) (retry_backoff config))
    as (res & trace & Hg & Hn).
  unfold fetch_active_validators. subst fetched. rewrite Hg.
  destruct res as [payload | e].
  - unfold dict_get.
    destruct (payload !! "validators") as [v |] eqn:Hi; simpl.
    + assert (Hcases : (exists l, v = JList l) \/ ~ (exists l, v = JList l))
        by (destruct v; eauto; right; intros [l' [=]]).
      destruct Hcases as [[l ->] | Hnl].
      * eexists _, _. split; [reflexivity |]. split; [exact Hn |]. split.
        -- intros validators. split.
           ++ intros [= <-]. exists payload, l. rewrite omap_dicts. auto.
           ++ intros (p & items & [= <-] & Hitems & Hmap).
              rewrite Hi in Hitems. injection Hitems as <-.
              rewrite <- omap_dicts in Hmap. apply map_JDict_inj in Hmap.
              rewrite Hmap. reflexivity.
        -- split; [intros e [=] |]. intros p [= <-] [Hv | Hv]; congruence.
      * destruct v as [| b | n | x | s | l | d];
          try (exfalso; apply Hnl; eexists; reflexivity);
          eexists _, _; (split; [reflexivity |]); (split; [exact Hn |]);
          (split; [intros validators; split;
                     [intros [=]
                     | intros (p & items & [= <-] & Hitems & _); congruence] |]);
          (split; [intros e [=] |]); intros p [= <-] [Hv | Hv];
          first [reflexivity | congruence].
    + eexists _, _. split; [reflexivity |]. split; [exact Hn |]. split.
      * intros validators. split;
          [intros [=] | intros (p & items & [= <-] & Hitems & _); congruence].
      * split; [intros e [=] | intros p _ _; reflexivity].
  - eexists _, _. split; [reflexivity |]. split; [exact Hn |].
    split; [intros validators; split; [intros [=] | intros (p & items & [=] & _)] |].
    split; [intros e' [= <-]; reflexivity | intros p [=]].
Qed.

(** X4. On an endpoint that starts with a slash, and for every server,
    backoff and clock, the fetcher performs failed GETs, each followed
    by a warning and by a sleep of [retry_backoff ** (attempt - 1)] that
    returns, and then one last GET, at most [max(1, max_retries)] GETs in
    all. It ends at that GET in one of five ways: the GET gets a
    response, and the result is what [response.json()] decodes to; it
    fails with no attempt left, and [ApiClientError] is raised; it fails
    and the power raises; or it fails and, once the warning is logged,
    the sleep raises. In the last two cases the exception leaves the
    fetcher as it is. *)
Theorem get_api_data_trace (endpoint base : string) (max_retries_ : Z)
    (backoff : flt) :
  String.prefix "/" endpoint = true ->
  let url := base +:+ endpoint in
  exists (delays : list flt) res after_get,
    let n := length delays in
    let trace := failed_attempts url max_retries_ 0 delays ++ EvGet url :: after_get in
    get_api_data endpoint base max_retries_ backoff = Some (res, trace)
    /\ count_gets trace = S n
    /\ sleeps (failed_attempts url max_retries_ 0 delays) = delays
    /\ Z.of_nat (S n) <= Z.max 1 max_retries_
    /\ (forall j, (j < n)%nat -> fails (server url j))
    /\ slept backoff 0 delays
    /\ match server url n with
       | HttpResponse body => after_get = [] /\ res = decode_response url body
       | HttpError exc =>
           if Z.of_nat (S n) >=? max_retries_ then
             after_get = []
             /\ res = Raise (ApiClientError ("Failed to fetch data from " +:+ url))
           else
             match float_pow backoff (Z.of_nat n) with
             | Raise e => after_get = [] /\ res = Raise e
             | Ok d =>
                 after_get = [EvWarning exc (Z.of_nat (S n)) max_retries_ d; EvSleep d]
                 /\ exists e, sleep d = Raise e /\ res = Raise e
             end
       end.
Proof.
  tidy. intros Hp url.
  rewrite (get_api_data_unfold _ _ _ _ Hp). fold url.
  destruct (retry_loop_run url max_retries_ backoff (S (Z.to_nat max_retries_)) 0 [])
    as (delays & res & after_get & Hr & Hn & Hf & Hs & Hl);
    [reflexivity | lia | lia |].
  change (Z.of_nat 1) with 1 in Hr. rewrite Hr. simpl app. simpl in Hn, Hf, Hl.
  unfold last_step in Hl.
  assert (Hgets : count_gets after_get = 0%nat ->
                  count_gets (failed_attempts url max_retries_ 0 delays
                              ++ EvGet url :: after_get) = S (length delays)).
  { intros Ha. rewrite count_gets_app, count_gets_failed_attempts.
    change (count_gets (EvGet url :: after_get)) with (S (count_gets after_get)). lia. }
  exists delays.
  destruct (server url (length delays)) as [exc | body] eqn:Hsrv.
  - destruct (Z.of_nat (S (length delays)) >=? max_retries_) eqn:Hge.
    + destruct Hl as [-> ->]. eexists _, _. cbv zeta. rewrite Hsrv, Hge.
      repeat split; auto using sleeps_failed_attempts; try lia.
      intros j Hj. apply Hf. lia.
    + destruct (float_pow backoff (Z.of_nat (length delays))) as [d | e] eqn:Hpow.
      * destruct Hl as (-> & e & Hsl & ->). eexists _, _. cbv zeta. rewrite Hsrv, Hge, Hpow.
        repeat split; eauto using sleeps_failed_attempts; try lia.
        intros j Hj. apply Hf. lia.
      * destruct Hl as [-> ->]. eexists _, _. cbv zeta. rewrite Hsrv, Hge, Hpow.
        repeat split; auto using sleeps_failed_attempts; try lia.
        intros j Hj. apply Hf. lia.
  - destruct Hl as [-> ->]. eexists _, _. cbv zeta. rewrite Hsrv.
    repeat split; auto using sleeps_failed_attempts; try lia.
    intros j Hj. apply Hf. lia.
Qed.

(** After failed attempts whose sleeps returned: an attempt that gets
    a response ends the fetch with what the body decodes to, and an
    attempt that fails with no attempt left raises [ApiClientError]. *)
Lemma get_api_data_answered endpoint base max_retries_ backoff delays body :
  String.prefix "/" endpoint = true ->
  let url := base +:+ endpoint in
  Z.of_nat (length delays) < max_retries_ \/ delays = [] ->
  (forall j, (j < length delays)%nat -> fails (server url j)) ->
  slept backoff 0 delays ->
  server url (length delays) = HttpResponse body ->
  get_api_data endpoint base max_retries_ backoff
  = Some (decode_response url body,
          failed_attempts url max_retries_ 0 delays ++ [EvGet url]).
Proof.
  tidy. intros Hp url Hm Hf Hs Hsrv.
  rewrite (get_api_data_after endpoint base max_retries_ backoff delays Hp Hf Hs Hm).
  fold url.
  rewrite (retry_loop_step url max_retries_ backoff _ (length delays))
    by apply count_gets_failed_attempts.
  rewrite Hsrv. reflexivity.
Qed.

Lemma get_api_data_exhausts endpoint base max_retries_ backoff delays :
  String.prefix "/" endpoint = true ->
  let url := base +:+ endpoint in
  Z.of_nat (length delays) < max_retries_ \/ delays = [] ->
  (forall j, (j <= length delays)%nat -> fails (server url j)) ->
  slept backoff 0 delays ->
  max_retries_ <= Z.of_nat (S (length delays)) ->
  get_api_data endpoint base max_retries_ backoff
  = Some (Raise (ApiClientError ("Failed to fetch data from " +:+ url)),
          failed_attempts url max_retries_ 0 delays ++ [EvGet url]).
Proof.
  tidy. intros Hp url Hm Hf Hs Hlast.
  rewrite (get_api_data_after endpoint base max_retries_ backoff delays Hp);
    [| intros j Hj; apply Hf; lia | exact Hs | exact Hm].
  fold url.
  rewrite (retry_loop_step url max_retries_ backoff _ (length delays))
    by apply count_gets_failed_attempts.
  destruct (Hf (length delays) ltac:(lia)) as [exc Hexc]. rewrite Hexc.
  destruct (Z.geb_spec (Z.of_nat (S (length delays))) max_retries_); [reflexivity | lia].
Qed.

(** X21. As long as the powers and the sleeps return, the fetcher
    retries with exponential backoff. After failed attempts [1] to [n],
    each followed by a sleep of [retry_backoff ** (attempt - 1)], an
    attempt that gets a JSON object returns it, and an attempt that
    fails with no attempt left ([n + 1 >= max_retries]) raises
    [ApiClientError]; in both cases that GET is the last event. *)
Theorem get_api_data_backoff (endpoint base : string) (max_retries_ : Z)
    (backoff : flt) (delays : list flt) :
  String.prefix "/" endpoint = true ->
  let url := base +:+ endpoint in
  let n := length delays in
  let attempts := failed_attempts url max_retries_ 0 delays ++ [EvGet url] in
  Z.of_nat n < max_retries_ \/ delays = [] ->
  (forall j, (j < n)%nat -> fails (server url j)) ->
  slept backoff 0 delays ->
  (forall payload,
      server url n = HttpResponse (JsonValue (JDict payload)) ->
      get_api_data endpoint base max_retries_ backoff = Some (Ok payload, attempts))
  /\ (fails (server url n) ->
      max_retries_ <= Z.of_nat (S n) ->
      get_api_data endpoint base max_retries_ backoff
      = Some (Raise (ApiClientError ("Failed to fetch data from " +:+ url)), attempts))
  /\ count_gets attempts = S n
  /\ sleeps attempts = delays
  /\ mapM (fun i => float_pow backoff (Z.of_nat i)) (seq 0 n) = Ok delays
  /\ last attempts = Some (EvGet url).
Proof.
  tidy. intros Hp url n attempts Hm Hf Hs. subst n attempts.
  split; [| split; [| split; [| split; [| split]]]].
  - intros payload Hsrv.
    rewrite (get_api_data_answered endpoint base max_retries_ backoff delays
               _ Hp Hm Hf Hs Hsrv). reflexivity.
  - intros [exc Hexc] Hlast.
    apply (get_api_data_exhausts endpoint base max_retries_ backoff delays Hp Hm);
      [| exact Hs | exact Hlast].
    intros j Hj. destruct (Nat.eq_dec j (length delays)) as [-> | Hne];
      [eexists; exact Hexc | apply Hf; lia].
  - rewrite count_gets_app, count_gets_failed_attempts. unfold count_gets. simpl. lia.
  - unfold sleeps. rewrite flat_map_app. simpl. rewrite app_nil_r.
    apply sleeps_failed_attempts.
  - apply (slept_powers backoff delays 0 Hs).
  - apply last_snoc.
Qed.

(** X5. With [max_retries] at most one (zero and negative values
    included) the fetcher sends exactly one GET and never sleeps: a
    failure of that GET raises [ApiClientError] at once. *)
Theorem get_api_data_single_attempt (endpoint base : string) (max_retries_ : Z)
    (backoff : flt) :
  String.prefix "/" endpoint = true ->
  max_retries_ <= 1 ->
  let url := base +:+ endpoint in
  exists res,
    get_api_data endpoint base max_retries_ backoff = Some (res, [EvGet url])
    /\ (fails (server url 0) ->
        res = Raise (ApiClientError ("Failed to fetch data from " +:+ url))).
Proof.
  tidy. intros Hp Hm url.
  pose proof (get_api_data_after endpoint base max_retries_ backoff [] Hp) as Hg.
  cbv zeta in Hg. fold url in Hg. cbn [length failed_attempts] in Hg.
  rewrite Hg; [| intros j Hj; lia | exact I | right; reflexivity].
  rewrite (retry_loop_step url max_retries_ backoff _ 0) by reflexivity.
  destruct (server url 0) as [exc | body] eqn:Hsrv.
  - destruct (Z.geb_spec (Z.of_nat 1) max_retries_) as [Hge | Hlt]; [| lia].
    eexists. split; [reflexivity | reflexivity].
  - eexists. split; [reflexivity |]. intros [exc Hexc]. discriminate.
Qed.

(** *** More on the merger *)

Lemma collect_loop_as_map signing_info_map validators : forall records,
  collect_loop signing_info_map validators records
  = let* merged := mapM (merge_validator signing_info_map) validators in
    Ok (records ++ omap id merged).
Proof.
  induction validators as [| v vs IH]; intros records; simpl.
  - rewrite app_nil_r. reflexivity.
  - destruct (merge_validator signing_info_map v) as [[r |] | e]; simpl; [| | reflexivity].
    + rewrite IH. destruct (mapM (merge_validator signing_info_map) vs); simpl;
        [rewrite <- app_assoc |]; reflexivity.
    + rewrite IH. destruct (mapM (merge_validator signing_info_map) vs); reflexivity.
Qed.

Lemma mapM_Ok_Forall2 {A B : Type} (f : A -> result B) (l : list A) (out : list B) :
  mapM f l = Ok out <-> Forall2 (fun x y => f x = Ok y) l out.
Proof.
  revert out. induction l as [| x l IH]; intros out; simpl.
  - split; [intros [= <-]; constructor | intros H; inversion H; reflexivity].
  - split.
    + destruct (f x) as [y |] eqn:Hx; simpl; [| discriminate].
      destruct (mapM f l) as [ys |] eqn:Hl; simpl; [| discriminate].
      intros [= <-]. constructor; [exact Hx | apply IH; reflexivity].
    + intros H. inversion H as [| ? y ? ys Hx Hl]; subst.
      rewrite Hx. simpl. apply IH in Hl. rewrite Hl. reflexivity.
Qed.

Lemma mapM_Raise_first {A B : Type} (f : A -> result B) (l : list A) (e : exn) :
  mapM f l = Raise e <->
  exists before x after,
    l = before ++ x :: after
    /\ Forall (fun y => exists b, f y = Ok b) before
    /\ f x = Raise e.
Proof.
  induction l as [| x l IH]; simpl.
  - split; [discriminate |]. intros (before & y & after & H & _).
    destruct before; discriminate.
  - destruct (f x) as [y |] eqn:Hx; simpl.
    + destruct (mapM f l) as [ys |] eqn:Hl; simpl.
      * split; [discriminate |].
        intros (before & z & after & H & Hb & Hz).
        destruct before as [| b before]; simpl in H; injection H as -> ->; [congruence |].
        apply Forall_cons in Hb as [_ Hb].
        enough (Ok ys = Raise e) by discriminate.
        apply IH. eauto 6.
      * split.
        -- intros [= ->]. destruct (proj1 IH eq_refl) as (before & z & after & -> & Hb & Hz).
           exists (x :: before), z, after. repeat split; [| exact Hz].
           constructor; [eauto | exact Hb].
        -- intros (before & z & after & H & Hb & Hz).
           destruct before as [| b before]; simpl in H; injection H as -> ->; [congruence |].
           apply Forall_cons in Hb as [_ Hb]. f_equal.
           enough (Raise (A := list B) e0 = Raise e) by congruence.
           apply IH. eauto 6.
    + split.
      * intros [= ->]. exists [], x, l. repeat split; [constructor | exact Hx].
      * intros (before & z & after & H & Hb & Hz).
        destruct before as [| b before]; simpl in H; injection H as -> ->.
        -- congruence.
        -- apply Forall_cons in Hb as [[b' Hb'] _]. congruence.
Qed.

(** X6. The merger returns exactly when the loop body raises on no
    validator, and then returns, in the order of the validators, the
    records of those that were not skipped. When it raises, it raises
    the exception of the first validator on which the loop body raises,
    and the records built before are lost. *)
Theorem collect_validator_records_outcome
    (signing_info_map : gmap string (gmap string json))
    (validators : list (gmap string json)) :
  (forall out,
      collect_validator_records signing_info_map validators = Ok out <->
      exists merged,
        Forall2 (fun v m => merge_validator signing_info_map v = Ok m) validators merged
        /\ out = omap id merged)
  /\ (forall e,
        collect_validator_records signing_info_map validators = Raise e <->
        exists before v after,
          validators = before ++ v :: after
          /\ Forall (fun b => exists m, merge_validator signing_info_map b = Ok m) before
          /\ merge_validator signing_info_map v = Raise e).
Proof.
  unfold collect_validator_records. rewrite collect_loop_as_map. split.
  - intros out. split.
    + destruct (mapM (merge_validator signing_info_map) validators) as [merged |] eqn:Hm;
        simpl; [| discriminate].
      intros [= <-]. exists merged. split; [apply mapM_Ok_Forall2; exact Hm | reflexivity].
    + intros (merged & Hm & ->). apply mapM_Ok_Forall2 in Hm. rewrite Hm. reflexivity.
  - intros e. rewrite <- mapM_Raise_first.
    destruct (mapM (merge_validator signing_info_map) validators); simpl;
      split; congruence.
Qed.

Lemma convert_pubkey_address_shape (pubkey_b64 address : string) :
  convert_pubkey_to_cons_address pubkey_b64 = Ok address ->
  String.prefix "cosmosvalcons1" address = true /\ String.length address = 52%nat.
Proof.
  unfold convert_pubkey_to_cons_address.
  destruct (b64decode pubkey_b64) as [key_bytes |]; [| discriminate].
  set (address_bytes := take 20 (Sha256.digest key_bytes)).
  assert (Hlen : length address_bytes = 20%nat).
  { unfold address_bytes. rewrite length_take, sha256_digest_length. reflexivity. }
  rewrite (convertbits_20_bytes _ Hlen).
  destruct (bech32_encode_ok "cosmosvalcons"
              (List.map (group_at (be_value address_bytes) 160) (seq 0 32)))
    as [tail [Henc Htail]].
  { apply (groups_regrouped address_bytes Hlen). }
  rewrite Henc. intros [= <-]. split.
  - apply (string_prefix_append "cosmosvalcons1" tail).
  - rewrite !string_length_append, Htail, length_map, length_seq. reflexivity.
Qed.

Lemma truthy_py_or_default (a b : json) : truthy b = true -> truthy (py_or a b) = true.
Proof. intros Hb. unfold py_or. destruct (truthy a) eqn:Ha; assumption. Qed.

Lemma moniker_lookup_ok (validator : gmap string json) :
  exists m,
    (if isinstance_dict (dict_get validator "description" JNull)
     then value_get (dict_get validator "description" (JDict ∅)) "moniker" JNull
     else Ok JNull) = Ok m
    /\ (validator !! "description" = None -> m = JNull).
Proof.
  unfold dict_get. destruct (validator !! "description") as [[] |]; simpl;
    eexists; split; try reflexivity; discriminate.
Qed.

(** X7. Every record the merger builds carries the address derived from
    the string found under [consensus_pubkey.key], a 52-character
    string that starts with "cosmosvalcons1"; its moniker is never
    falsy (it is "Unknown" when the validator names none), its jailed
    flag is the truth value of the [jailed] field and its operator
    address is that field, untouched. *)
Theorem merge_validator_record
    (signing_info_map : gmap string (gmap string json))
    (validator : gmap string json) (record : ValidatorRecord) :
  merge_validator signing_info_map validator = Ok (Some record) ->
  (exists d key,
      validator !! "consensus_pubkey" = Some (JDict d)
      /\ d !! "key" = Some (JStr key)
      /\ convert_pubkey_to_cons_address key = Ok (rec_consensus_address record))
  /\ String.prefix "cosmosvalcons1" (rec_consensus_address record) = true
  /\ String.length (rec_consensus_address record) = 52%nat
  /\ truthy (rec_moniker record) = true
  /\ (validator !! "description" = None -> validator !! "moniker" = None ->
      rec_moniker record = JStr "Unknown")
  /\ rec_jailed record = truthy (dict_get validator "jailed" JNull)
  /\ rec_operator_address record = dict_get validator "operator_address" JNull.
Proof.
  unfold merge_validator.
  destruct (moniker_lookup_ok validator) as (m & -> & Hm). unfold bind at 1.
  set (moniker := py_or (py_or m (dict_get validator "moniker" JNull)) (JStr "Unknown")).
  assert (Hmon : truthy moniker = true) by (apply truthy_py_or_default; reflexivity).
  assert (Hunknown : validator !! "description" = None -> validator !! "moniker" = None ->
                     moniker = JStr "Unknown").
  { intros Hd Hn. unfold moniker, dict_get. rewrite (Hm Hd), Hn. reflexivity. }
  clearbody moniker.
  destruct (validator !! "consensus_pubkey") as [pk |] eqn:Hpk;
    unfold dict_get at 1; rewrite Hpk; simpl.
  2:{ discriminate. }
  unfold py_or.
  destruct (truthy pk) eqn:Htruthy.
  2:{ simpl. discriminate. }
  destruct pk as [| | | | | | d]; simpl; try discriminate.
  unfold dict_get at 1.
  destruct (d !! "key") as [[| | | | key | |] |] eqn:Hkey; simpl; try discriminate.
  destruct (convert_pubkey_to_cons_address key) as [address | e] eqn:Hconv.
  2:{ destruct e; discriminate. }
  destruct (convert_pubkey_address_shape key address Hconv) as [Hprefix Hlength].
  destruct (recover_value_type_error (py_int _) 0) as [missed |]; simpl; [| discriminate].
  destruct (if isinstance_dict (dict_get validator "commission" JNull) then _ else _)
    as [rates |]; simpl; [| discriminate].
  destruct (value_get rates "rate" JNull) as [raw |]; simpl; [| discriminate].
  destruct (recover_value_type_error _ None) as [rate |]; simpl; [| discriminate].
  intros [= <-]. simpl. repeat split; try assumption; try reflexivity.
  exists d, key. auto.
Qed.

(** The raw missed-blocks counter the merger reads for an address. *)
Definition missed_blocks_raw (signing_info_map : gmap string (gmap string json))
    (address : string) : json :=
  dict_get (default ∅ (signing_info_map !! address)) "missed_blocks_counter" (JStr "0").

Lemma recover_value_type_error_inv {A : Type} (m : result A) (dflt x : A) :
  recover_value_type_error m dflt = Ok x ->
  x = match m with Ok a => a | Raise _ => dflt end.
Proof. destruct m as [a | []]; simpl; congruence. Qed.

Lemma merge_validator_inv signing_info_map validator record :
  merge_validator signing_info_map validator = Ok (Some record) ->
  exists key rates raw,
    convert_pubkey_to_cons_address key = Ok (rec_consensus_address record)
    /\ recover_value_type_error
         (py_int (missed_blocks_raw signing_info_map (rec_consensus_address record))) 0
       = Ok (rec_missed_blocks record)
    /\ (if isinstance_dict (dict_get validator "commission" JNull)
        then value_get (dict_get validator "commission" (JDict ∅))
               "commission_rates" (JDict ∅)
        else Ok (JDict ∅)) = Ok rates
    /\ value_get rates "rate" JNull = Ok raw
    /\ recover_value_type_error (let* rate := py_float raw in Ok (Some rate)) None
       = Ok (rec_commission_rate record).
Proof.
  unfold merge_validator.
  destruct (moniker_lookup_ok validator) as (m & -> & _). unfold bind at 1.
  destruct (value_get _ "key" JNull) as [[| | | | key | |] |]; simpl; try discriminate.
  destruct (convert_pubkey_to_cons_address key) as [address | e] eqn:Hconv.
  2:{ destruct e; discriminate. }
  fold (missed_blocks_raw signing_info_map address).
  destruct (recover_value_type_error (py_int _) 0) as [missed |] eqn:Hmissed;
    simpl; [| discriminate].
  destruct (if isinstance_dict (dict_get validator "commission" JNull) then _ else _)
    as [rates |] eqn:Hrates; simpl; [| discriminate].
  destruct (value_get rates "rate" JNull) as [raw |] eqn:Hraw; simpl; [| discriminate].
  destruct (recover_value_type_error _ None) as [rate |] eqn:Hrate; simpl; [| discriminate].
  intros [= <-]. simpl. exists key, rates, raw. auto.
Qed.

(** X8. The missed-blocks count of a record is [int] of the counter
    found for its address when that conversion succeeds and 0 when it
    does not; in particular it is 0 for an address without signing
    info, since [int("0")] is 0. A validator without a [commission]
    field gets the unknown rate [None], never a zero rate. *)
Theorem merge_validator_defaults
    (signing_info_map : gmap string (gmap string json))
    (validator : gmap string json) (record : ValidatorRecord) :
  merge_validator signing_info_map validator = Ok (Some record) ->
  rec_missed_blocks record
  = match py_int (missed_blocks_raw signing_info_map (rec_consensus_address record)) with
    | Ok n => n
    | Raise _ => 0
    end
  /\ (signing_info_map !! rec_consensus_address record = None ->
      int_of_str "0" = Ok 0 -> rec_missed_blocks record = 0)
  /\ (validator !! "commission" = None -> rec_commission_rate record = None).
Proof.
  intros H. apply merge_validator_inv in H
    as (key & rates & raw & _ & Hmissed & Hrates & Hraw & Hrate).
  apply recover_value_type_error_inv in Hmissed, Hrate.
  split; [exact Hmissed |]. split.
  - intros Hnone Hzero. rewrite Hmissed. unfold missed_blocks_raw.
    rewrite Hnone. unfold dict_get. cbn [default from_option].
    rewrite lookup_empty. cbn [default from_option py_int]. rewrite Hzero. reflexivity.
  - intros Hnone. unfold dict_get in Hrates. rewrite Hnone in Hrates. simpl in Hrates.
    injection Hrates as <-. unfold value_get, dict_get in Hraw.
    rewrite lookup_empty in Hraw. simpl in Hraw. injection Hraw as <-.
    rewrite Hrate. reflexivity.
Qed.

(** *** More on the classifier and the assembler *)

Lemma tier_cases config r :
  tier config r = "JAILED" \/ tier config r = "AT_RISK" \/ tier config r = "HEALTHY".
Proof.
  unfold tier, determine_health_status. destruct (rec_jailed r); [now left |].
  destruct (rec_missed_blocks r >? missed_blocks_threshold config);
    [right; now left | now do 2 right].
Qed.

(** X9. The classification is monotone: more missed blocks never give
    a better tier, a higher threshold never gives a worse one, and
    jailing never improves a tier. Tiers are compared by the severity
    rank the report sorts by (JAILED 0, AT_RISK 1, HEALTHY 2). *)
Theorem determine_health_status_monotone (jailed : bool) (missed missed' : Z)
    (config config' : AppConfig) :
  missed <= missed' ->
  missed_blocks_threshold config <= missed_blocks_threshold config' ->
  let rank j m c := severity (health_status (determine_health_status j m c)) in
  rank jailed missed' config <= rank jailed missed config
  /\ rank jailed missed config <= rank jailed missed config'
  /\ rank true missed config <= rank jailed missed config.
Proof.
  intros Hm Ht rank. unfold rank, determine_health_status.
  destruct jailed; simpl; [repeat split; reflexivity |].
  destruct (Z.gtb_spec missed' (missed_blocks_threshold config));
    destruct (Z.gtb_spec missed (missed_blocks_threshold config));
    destruct (Z.gtb_spec missed (missed_blocks_threshold config'));
    simpl; repeat split; try (vm_compute; discriminate); lia.
Qed.

(** X10. [prepare_report_data] returns a report exactly on the lists
    whose monikers are all strings. On any other list it raises
    [AttributeError], for the moniker of a record of the list that is
    not a string, before any row is built. *)
Theorem prepare_report_data_outcome (config : AppConfig)
    (records : list ValidatorRecord) :
  ((exists rd, prepare_report_data records config = Ok rd)
   <-> Forall str_moniker records)
  /\ (forall e,
        prepare_report_data records config = Raise e ->
        exists r, r ∈ records /\ ~ str_moniker r
                  /\ e = AttributeError
                           ("'" +:+ type_name (rec_moniker r)
                            +:+ "' object has no attribute 'lower'")).
Proof.
  split.
  - split.
    + intros [rd H]. eapply prepare_report_data_returns. exact H.
    + intros H. eexists. apply prepare_report_data_eq. exact H.
  - intros e. unfold prepare_report_data, sorted.
    destruct (mapM (sort_key config) records) as [keys |] eqn:Hk; simpl.
    + destruct (report_loop _ _ _ _). discriminate.
    + intros [= ->]. apply mapM_Raise_first in Hk as (before & r & after & -> & _ & Hr).
      exists r. split; [apply elem_of_app; right; left |].
      unfold sort_key, value_lower in Hr.
      destruct (rec_moniker r) eqn:Hm; simpl in Hr; try discriminate;
        (split; [intros [s Hs]; congruence | injection Hr as <-; reflexivity]).
Qed.

Lemma length_filter_shown_ordered config records :
  length (filter (shown config) (ordered config records))
  = length (filter (shown config) records).
Proof. rewrite (ordered_perm config records). reflexivity. Qed.

(** X11. The number of rows shown is the number of records that pass
    the hide-healthy filter when [max_results] is 0, and otherwise the
    smaller of that number and [max_results]; a negative [max_results]
    counts as 1, so that at most one row is shown. *)
Theorem prepare_report_data_total_shown (config : AppConfig)
    (records : list ValidatorRecord) :
  Forall str_moniker records ->
  exists rd,
    prepare_report_data records config = Ok rd
    /\ total_shown rd
       = (let passing := length (filter (shown config) records) in
          if max_results config =? 0 then passing
          else Nat.min passing (Z.to_nat (Z.max 1 (max_results config))))
    /\ (max_results config < 0 -> (total_shown rd <= 1)%nat).
Proof.
  intros H. exists (report_of config records).
  split; [apply prepare_report_data_eq; exact H |].
  simpl. unfold displayed, cap.
  destruct (Z.eqb_spec (max_results config) 0) as [H0 | H0].
  - rewrite length_filter_shown_ordered. split; [reflexivity | lia].
  - rewrite length_take, length_filter_shown_ordered. split; [lia |].
    intros Hneg. replace (Z.max 1 (max_results config - Z.of_nat 0)) with 1 by lia. lia.
Qed.

(** X12. Without a cap ([max_results = 0]) no record is lost or
    repeated: the rows are, up to their order, the rows of the records
    that pass the hide-healthy filter, and of all records when
    [hide_healthy] is unset. *)
Theorem prepare_report_data_uncapped (config : AppConfig)
    (records : list ValidatorRecord) :
  max_results config = 0 ->
  Forall str_moniker records ->
  exists rd,
    prepare_report_data records config = Ok rd
    /\ rows rd ≡ₚ List.map (make_row config) (filter (shown config) records)
    /\ (hide_healthy config = false ->
        rows rd ≡ₚ List.map (make_row config) records
        /\ total_shown rd = total_records rd).
Proof.
  intros H0 H. exists (report_of config records).
  split; [apply prepare_report_data_eq; exact H |].
  simpl. unfold displayed. rewrite cap_all by (left; exact H0). split.
  - apply Permutation_map. rewrite (ordered_perm config records). reflexivity.
  - intros Hh. rewrite filter_shown_all by exact Hh. split.
    + apply Permutation_map. apply ordered_perm.
    + apply Permutation_length, ordered_perm.
Qed.

Lemma length_filter_elem_of (l : list string) (s : string) :
  s ∈ l -> (1 <= length (filter (fun x => x = s) l))%nat.
Proof.
  induction 1 as [x l | x y l _ IH].
  - rewrite filter_cons_True by reflexivity. simpl. lia.
  - rewrite filter_cons. destruct (decide (y = x)); simpl; lia.
Qed.

(** X13. The status counters hold no zero and no foreign key: a key of
    [status_counts] is one of the three tiers, and its count is the
    number of rows of that tier, at least one. *)
Theorem prepare_report_data_status_counts (config : AppConfig)
    (records : list ValidatorRecord) :
  Forall str_moniker records ->
  exists rd,
    prepare_report_data records config = Ok rd
    /\ forall (s : string) (c : nat),
         status_counts rd !! s = Some c ->
         (1 <= c)%nat
         /\ c = length (filter (fun row => row_status row = s) (rows rd))
         /\ (s = "JAILED" \/ s = "AT_RISK" \/ s = "HEALTHY").
Proof.
  intros H. exists (report_of config records).
  split; [apply prepare_report_data_eq; exact H |].
  simpl. intros s c Hc.
  set (statuses := List.map (tier config) (displayed config records)) in *.
  assert (Hin : s ∈ statuses).
  { destruct (decide (s ∈ statuses)) as [Hin | Hout]; [exact Hin |].
    assert (Hnone : tally ∅ statuses !! s = None)
      by (apply tally_absent; split; [apply lookup_empty | exact Hout]).
    congruence. }
  pose proof (tally_lookup statuses s ∅) as Hl.
  rewrite Hc, lookup_empty in Hl. simpl in Hl.
  split; [rewrite Hl; apply length_filter_elem_of; exact Hin |].
  split.
  - rewrite Hl. unfold statuses. rewrite statuses_of_rows, length_filter_map. reflexivity.
  - apply list_elem_of_In, in_map_iff in Hin as [r [<- _]]. apply tier_cases.
Qed.

(** *** The address as a join key *)

Lemma charset_at_index (d : Z) (c : ascii) :
  0 <= d < 32 ->
  Bech32.charset_at d = Ok c ->
  Base64.index_of c (list_ascii_of_string Bech32.CHARSET) 0 = Some d.
Proof.
  tidy. intros Hd.
  assert (Hall : Forall (fun n => forall c, Bech32.charset_at (Z.of_nat n) = Ok c ->
                           Base64.index_of c (list_ascii_of_string Bech32.CHARSET) 0
                           = Some (Z.of_nat n)) (seq 0 32)).
  { repeat (constructor; [intros c' [= <-]; reflexivity |]). constructor. }
  rewrite List.Forall_forall in Hall.
  rewrite <- (Z2Nat.id d) by lia. apply Hall. apply in_seq. lia.
Qed.

Lemma mapM_charset_at_inj (l1 : list Z) : forall l2 cs,
  Forall (fun d => 0 <= d < 32) l1 ->
  Forall (fun d => 0 <= d < 32) l2 ->
  mapM Bech32.charset_at l1 = Ok cs ->
  mapM Bech32.charset_at l2 = Ok cs ->
  l1 = l2.
Proof.
  induction l1 as [| d1 l1 IH]; intros l2 cs H1 H2; simpl.
  - intros [= <-]. destruct l2 as [| d2 l2]; [reflexivity |]. simpl.
    destruct (Bech32.charset_at d2); simpl; [| discriminate].
    destruct (mapM Bech32.charset_at l2); discriminate.
  - apply Forall_cons in H1 as [Hd1 H1].
    destruct (Bech32.charset_at d1) as [c1 |] eqn:Hc1; simpl; [| discriminate].
    destruct (mapM Bech32.charset_at l1) as [cs1 |] eqn:Hm1; simpl; [| discriminate].
    intros [= <-]. destruct l2 as [| d2 l2]; simpl; [discriminate |].
    apply Forall_cons in H2 as [Hd2 H2].
    destruct (Bech32.charset_at d2) as [c2 |] eqn:Hc2; simpl; [| discriminate].
    destruct (mapM Bech32.charset_at l2) as [cs2 |] eqn:Hm2; simpl; [| discriminate].
    intros [= -> ->].
    pose proof (charset_at_index d1 c1 Hd1 Hc1) as E1.
    pose proof (charset_at_index d2 c1 Hd2 Hc2) as E2.
    f_equal; [congruence |]. exact (IH l2 cs1 H1 H2 eq_refl Hm2).
Qed.

Lemma string_append_inj (s a b : string) : s +:+ a = s +:+ b -> a = b.
Proof.
  induction s as [| c s IH]; [intros H; exact H |].
  change (String c s +:+ a) with (String c (s +:+ a)).
  change (String c s +:+ b) with (String c (s +:+ b)).
  intros [= H]. apply IH. exact H.
Qed.

Lemma string_of_list_ascii_inj (l1 l2 : list ascii) :
  string_of_list_ascii l1 = string_of_list_ascii l2 -> l1 = l2.
Proof.
  intros H. rewrite <- (list_ascii_of_string_of_list_ascii l1),
              <- (list_ascii_of_string_of_list_ascii l2), H. reflexivity.
Qed.

(** The symbols can be read back from the encoded string. *)
Lemma bech32_encode_inj (hrp : string) (data1 data2 : list Z) (address : string) :
  Forall (fun d => 0 <= d < 32) data1 ->
  Forall (fun d => 0 <= d < 32) data2 ->
  length data1 = length data2 ->
  Bech32.bech32_encode hrp data1 = Ok address ->
  Bech32.bech32_encode hrp data2 = Ok address ->
  data1 = data2.
Proof.
  tidy.
  intros H1 H2 Hlen. unfold Bech32.bech32_encode.
  destruct (mapM Bech32.charset_at (data1 ++ _)) as [cs1 |] eqn:Hm1; simpl; [| discriminate].
  destruct (mapM Bech32.charset_at (data2 ++ _)) as [cs2 |] eqn:Hm2; simpl; [| discriminate].
  intros [= <-] [= Heq].
  apply string_append_inj in Heq.
  change ("1" +:+ string_of_list_ascii cs2) with (String "1" (string_of_list_ascii cs2)) in Heq.
  change ("1" +:+ string_of_list_ascii cs1) with (String "1" (string_of_list_ascii cs1)) in Heq.
  injection Heq as Heq. apply string_of_list_ascii_inj in Heq. subst cs2.
  assert (Happ : data1 ++ Bech32.bech32_create_checksum hrp data1
                 = data2 ++ Bech32.bech32_create_checksum hrp data2).
  { eapply mapM_charset_at_inj; try eassumption;
      apply Forall_app; split; try assumption; apply checksum_range. }
  apply app_inj_1 in Happ; [tauto | exact Hlen].
Qed.

Lemma byte_to_Z_inj (b1 b2 : byte) : byte_to_Z b1 = byte_to_Z b2 -> b1 = b2.
Proof.
  unfold byte_to_Z. intros H. apply N2Z.inj in H.
  pose proof (Byte.of_to_N b1) as E1. pose proof (Byte.of_to_N b2) as E2.
  rewrite H in E1. congruence.
Qed.

(** Twenty bytes are determined by their 160 bits. *)
Lemma stream_bits_inj (bytes1 bytes2 : list byte) :
  length bytes1 = 20%nat -> length bytes2 = 20%nat ->
  (forall i, (i < 160)%nat -> stream_bit bytes1 i = stream_bit bytes2 i) ->
  bytes1 = bytes2.
Proof.
  tidy. intros H1 H2 Hbits.
  apply (nth_ext _ _ x00 x00); [congruence |].
  intros k Hk. rewrite H1 in Hk. apply byte_to_Z_inj.
  apply Z.bits_inj'. intros t Ht.
  destruct (Z.ltb_spec t 8) as [Hlt | Hge].
  - specialize (Hbits (8 * k + (7 - Z.to_nat t))%nat ltac:(lia)).
    unfold stream_bit in Hbits.
    replace ((8 * k + (7 - Z.to_nat t)) / 8)%nat with k in Hbits
      by (apply Nat.div_unique with (7 - Z.to_nat t)%nat; lia).
    replace ((8 * k + (7 - Z.to_nat t)) mod 8)%nat with (7 - Z.to_nat t)%nat in Hbits
      by (apply Nat.mod_unique with k; lia).
    replace (7 - Z.of_nat (7 - Z.to_nat t)) with t in Hbits by lia.
    exact Hbits.
  - rewrite <- (Z.mod_small (byte_to_Z (nth k bytes1 x00)) (2 ^ 8)),
            <- (Z.mod_small (byte_to_Z (nth k bytes2 x00)) (2 ^ 8))
      by (change (2 ^ 8) with 256; apply byte_to_Z_range).
    rewrite !Z.mod_pow2_bits_high by lia. reflexivity.
Qed.

Lemma regrouped_inj (bytes1 bytes2 : list byte) (symbols : list Z) :
  length bytes1 = 20%nat -> length bytes2 = 20%nat ->
  regrouped bytes1 symbols -> regrouped bytes2 symbols -> bytes1 = bytes2.
Proof.
  intros H1 H2 (_ & _ & Hb1) (_ & _ & Hb2).
  apply stream_bits_inj; [exact H1 | exact H2 |].
  intros i Hi. rewrite <- Hb1, <- Hb2 by lia. reflexivity.
Qed.

(** X14. Two accepted keys get the same address exactly when the first
    twenty bytes of their SHA-256 digests agree: the twenty bytes can be
    read back from the address, so the address is as good a join key as
    the truncated digest itself. *)
Theorem convert_pubkey_to_cons_address_same (key1 key2 : string)
    (bytes1 bytes2 : list byte) :
  b64decode key1 = Some bytes1 ->
  b64decode key2 = Some bytes2 ->
  convert_pubkey_to_cons_address key1 = convert_pubkey_to_cons_address key2
  <-> take 20 (Sha256.digest bytes1) = take 20 (Sha256.digest bytes2).
Proof.
  intros Hd1 Hd2. unfold convert_pubkey_to_cons_address. rewrite Hd1, Hd2.
  set (ab1 := take 20 (Sha256.digest bytes1)).
  set (ab2 := take 20 (Sha256.digest bytes2)).
  assert (Hl1 : length ab1 = 20%nat)
    by (unfold ab1; rewrite length_take, sha256_digest_length; reflexivity).
  assert (Hl2 : length ab2 = 20%nat)
    by (unfold ab2; rewrite length_take, sha256_digest_length; reflexivity).
  split; [| intros ->; reflexivity].
  rewrite (convertbits_20_bytes _ Hl1), (convertbits_20_bytes _ Hl2).
  pose proof (groups_regrouped ab1 Hl1) as Hr1.
  pose proof (groups_regrouped ab2 Hl2) as Hr2.
  destruct (bech32_encode_ok "cosmosvalcons"
              (List.map (group_at (be_value ab1) 160) (seq 0 32)))
    as [tail [Henc _]]; [apply Hr1 |].
  intros Heq. rewrite Henc in Heq. symmetry in Heq.
  assert (Hsym : List.map (group_at (be_value ab1) 160) (seq 0 32)
                 = List.map (group_at (be_value ab2) 160) (seq 0 32)).
  { eapply bech32_encode_inj; [apply Hr1 | apply Hr2 | | exact Henc | exact Heq].
    rewrite !length_map. reflexivity. }
  rewrite <- Hsym in Hr2. eapply regrouped_inj; eassumption.
Qed.

(** ** The console report

    [print_validator_report] is modelled by the list of the arguments
    of its [print] calls, in order: every call writes its argument and
    a line break. *)

(** [text.encode(encoding, errors="replace").decode(encoding, errors="replace")] *)
Variable console_replace : string -> string.
(** [str(value)] for a value that is not a string *)
Variable str_of_value : json -> string.

#[local] Ltac tidy ::=
  try clear str_of_value; try clear console_replace;
  try clear server; try clear b64decode; try clear stdout_can_encode;
  try clear lower; try clear format_percent; try clear int_of_str;
  try clear int_of_float; try clear float_of_str; try clear float_of_int;
  try clear float_truthy; try clear sleep; try clear float_pow; try clear flt.

Definition py_str (value : json) : string :=
  match value with
  | JStr s => s
  | _ => str_of_value value
  end.

Definition safe_console_text (value : json) : string :=
  let text := py_str value in
  if stdout_can_encode text then text else console_replace text.

(** [str(n)] for an [int], as an f-string formats it *)
Definition str_of_int (n : Z) : string := NilZero.string_of_int (Z.to_int n).

Definition newline : string := String (ascii_of_nat 10) EmptyString.

(** The body of [for row in report.rows]. *)
Definition print_row (row : ReportRow) : list string :=
  let moniker_safe := safe_console_text (row_moniker row) in
  [ "[" +:+ row_status row +:+ "] " +:+ row_icon_text row
      +:+ " Validator '" +:+ moniker_safe +:+ "'";
    if String.eqb (row_status row) "JAILED" then
      "    - Status: JAILED (" +:+ row_reason row +:+ ")"
    else if String.eqb (row_status row) "AT_RISK" then
      "    - Status: AT_RISK (" +:+ row_reason row +:+ ")"
    else
      let detail :=
        if negb (String.eqb (row_reason row) "")
           && negb (String.eqb (row_reason row) "All checks passed")
        then " (" +:+ row_reason row +:+ ")"
        else "" in
      "    - Status: HEALTHY" +:+ detail;
    "    - Missed Blocks: " +:+ str_of_int (row_missed_blocks row);
    "    - Commission: " +:+ row_commission_display row;
    "" ].

Definition summary_labels : list string := ["JAILED"; "AT_RISK"; "HEALTHY"].

(** [report.status_counts.get(label, 0)] *)
Definition status_count (report : ReportData) (label : string) : nat :=
  default 0%nat (status_counts report !! label).

Definition summary_parts (report : ReportData) : list string :=
  List.map
    (fun label => label +:+ ": " +:+ str_of_int (Z.of_nat (status_count report label)))
    (List.filter (fun label => negb (status_count report label =? 0)%nat)
       summary_labels).

Definition summary_line (report : ReportData) : string :=
  let parts := summary_parts report in
  let summary_suffix :=
    match parts with
    | [] => "no validators listed"
    | _ => String.concat "; " parts
    end in
  "Summary -> total shown: " +:+ str_of_int (Z.of_nat (total_shown report))
    +:+ "; " +:+ summary_suffix.

Definition report_header (config : AppConfig) : list string :=
  [ "=== Validator Health Report ===";
    "Missed blocks threshold: " +:+ str_of_int (missed_blocks_threshold config)
      +:+ newline ].

Definition print_validator_report (report : ReportData) (config : AppConfig)
  : list string :=
  report_header config ++
  if (total_records report =? 0)%nat then
    ["No active validators found."]
  else if (total_shown report =? 0)%nat then
    if filtered_out_healthy report then
      ["No unhealthy validators found (healthy validators are hidden)."]
    else
      ["No validator records available."]
  else
    flat_map print_row (rows report) ++ [summary_line report].

(** *** What the console report says of a prepared report *)

Definition first_char (s : string) : option ascii :=
  match s with
  | String c _ => Some c
  | EmptyString => None
  end.

Lemma print_row_first_char (row : ReportRow) (line : string) :
  line ∈ print_row row -> first_char line <> Some "N"%char.
Proof.
  unfold print_row. rewrite !elem_of_cons, elem_of_nil.
  intros [-> | [-> | [-> | [-> | [-> | []]]]]]; try (vm_compute; discriminate).
  destruct (String.eqb (row_status row) "JAILED"); [vm_compute; discriminate |].
  destruct (String.eqb (row_status row) "AT_RISK"); vm_compute; discriminate.
Qed.

Lemma all_hidden_iff config (records : list ValidatorRecord) :
  records <> [] ->
  Forall (fun r => shown config r = false) records
  <-> hide_healthy config
      && forallb (fun r => String.eqb (tier config r) "HEALTHY") records = true.
Proof.
  intros Hne. unfold shown. destruct (hide_healthy config); simpl.
  - rewrite forallb_forall, List.Forall_forall. split; intros H r Hr.
    + specialize (H r Hr). destruct (String.eqb (tier config r) "HEALTHY");
        [reflexivity | discriminate].
    + rewrite (H r Hr). reflexivity.
  - split; [| discriminate]. destruct records as [| r l]; [congruence |].
    intros H. apply Forall_cons in H as [H _]. discriminate.
Qed.

(** X15. On a report made by [prepare_report_data] the console report
    is the two header lines followed by: "No active validators found."
    when there is no record; the hidden-healthy notice when there are
    records, [hide_healthy] is set and every record is HEALTHY; and
    otherwise the five lines of each row and the summary line. The
    line "No validator records available." is never printed. *)
Theorem print_validator_report_prepared (config : AppConfig)
    (records : list ValidatorRecord) :
  Forall str_moniker records ->
  exists rd,
    prepare_report_data records config = Ok rd
    /\ print_validator_report rd config
       = report_header config ++
         match records with
         | [] => ["No active validators found."]
         | _ =>
             if hide_healthy config
                && forallb (fun r => String.eqb (tier config r) "HEALTHY") records
             then ["No unhealthy validators found (healthy validators are hidden)."]
             else flat_map print_row (rows rd) ++ [summary_line rd]
         end
    /\ "No validator records available." ∉ print_validator_report rd config.
Proof.
  intros H. exists (report_of config records).
  split; [apply prepare_report_data_eq; exact H |].
  assert (Heq : print_validator_report (report_of config records) config
       = report_header config ++
         match records with
         | [] => ["No active validators found."]
         | _ =>
             if hide_healthy config
                && forallb (fun r => String.eqb (tier config r) "HEALTHY") records
             then ["No unhealthy validators found (healthy validators are hidden)."]
             else flat_map print_row (rows (report_of config records))
                    ++ [summary_line (report_of config records)]
         end).
  { unfold print_validator_report. f_equal. simpl.
    destruct records as [| r l]; [reflexivity |].
    change (length (r :: l) =? 0)%nat with false. cbv iota.
    pose proof (displayed_nil_iff config (r :: l)) as Hd.
    rewrite (all_hidden_iff config (r :: l)) in Hd by discriminate.
    destruct (hide_healthy config
              && forallb (fun r => String.eqb (tier config r) "HEALTHY") (r :: l))
      eqn:Hall.
    - rewrite (proj2 Hd eq_refl). simpl.
      apply andb_true_iff in Hall as [-> _]. reflexivity.
    - destruct (displayed config (r :: l)) as [| d ds] eqn:Hdis;
        [discriminate (proj1 Hd eq_refl) |]. reflexivity. }
  split; [exact Heq |]. rewrite Heq. clear Heq.
  unfold report_header. rewrite elem_of_app, !elem_of_cons, elem_of_nil.
  intros [[Hl | [Hl | []]] | Hl].
  - discriminate Hl.
  - apply (f_equal first_char) in Hl. vm_compute in Hl. discriminate Hl.
  - destruct records as [| r l].
    + apply list_elem_of_singleton in Hl. discriminate Hl.
    + destruct (hide_healthy config && forallb _ (r :: l)).
      * apply list_elem_of_singleton in Hl. discriminate Hl.
      * apply elem_of_app in Hl as [Hl | Hl].
        -- apply list_elem_of_In, in_flat_map in Hl as (row & _ & Hl).
           apply list_elem_of_In in Hl.
           apply (print_row_first_char row _ Hl). reflexivity.
        -- apply list_elem_of_singleton in Hl.
           apply (f_equal first_char) in Hl. vm_compute in Hl. discriminate Hl.
Qed.

(** The number of rows of a tier. *)
Definition rows_of_tier (report : ReportData) (label : string) : nat :=
  length (filter (fun row => row_status row = label) (rows report)).

Lemma status_count_report_of config records (label : string) :
  status_count (report_of config records) label
  = rows_of_tier (report_of config records) label.
Proof.
  unfold status_count, rows_of_tier. simpl.
  rewrite tally_lookup, lookup_empty, statuses_of_rows, length_filter_map.
  reflexivity.
Qed.

Lemma rows_of_tier_report_of config records (label : string) :
  rows_of_tier (report_of config records) label
  = length (filter (fun s => s = label)
              (List.map (tier config) (displayed config records))).
Proof.
  unfold rows_of_tier. simpl.
  rewrite statuses_of_rows, (length_filter_map row_status (fun s => s = label)).
  reflexivity.
Qed.

Lemma length_by_tier (statuses : list string) :
  Forall (fun s => s = "JAILED" \/ s = "AT_RISK" \/ s = "HEALTHY") statuses ->
  (length (filter (fun s => s = "JAILED") statuses)
   + length (filter (fun s => s = "AT_RISK") statuses)
   + length (filter (fun s => s = "HEALTHY") statuses))%nat
  = length statuses.
Proof.
  induction 1 as [| s l Hs _ IH]; [reflexivity |].
  rewrite !filter_cons.
  destruct Hs as [-> | [-> | ->]];
    repeat (case_decide; try discriminate; try congruence); simpl; lia.
Qed.

(** X16. The summary line of a prepared report is computed from its
    rows: it lists, in the order JAILED, AT_RISK, HEALTHY, the tiers
    that have a row, each with its number of rows; these numbers add up
    to the total shown; and when there is a row there is a tier to
    list, so that the fallback "no validators listed" is not used. *)
Theorem print_validator_report_summary (config : AppConfig)
    (records : list ValidatorRecord) :
  Forall str_moniker records ->
  exists rd,
    prepare_report_data records config = Ok rd
    /\ summary_parts rd
       = List.map
           (fun label =>
              label +:+ ": " +:+ str_of_int (Z.of_nat (rows_of_tier rd label)))
           (List.filter (fun label => negb (rows_of_tier rd label =? 0)%nat)
              summary_labels)
    /\ (rows_of_tier rd "JAILED" + rows_of_tier rd "AT_RISK"
        + rows_of_tier rd "HEALTHY")%nat = total_shown rd
    /\ (rows rd <> [] ->
        summary_parts rd <> []
        /\ summary_line rd
           = "Summary -> total shown: " +:+ str_of_int (Z.of_nat (total_shown rd))
               +:+ "; " +:+ String.concat "; " (summary_parts rd)).
Proof.
  intros H. exists (report_of config records).
  split; [apply prepare_report_data_eq; exact H |].
  assert (Hsum : (rows_of_tier (report_of config records) "JAILED"
                  + rows_of_tier (report_of config records) "AT_RISK"
                  + rows_of_tier (report_of config records) "HEALTHY")%nat
                 = total_shown (report_of config records)).
  { rewrite !rows_of_tier_report_of, length_by_tier; [apply length_map |].
    apply List.Forall_forall. intros s Hs.
    apply in_map_iff in Hs as [r [<- _]]. apply tier_cases. }
  assert (Hparts : summary_parts (report_of config records)
       = List.map
           (fun label =>
              label +:+ ": "
              +:+ str_of_int (Z.of_nat (rows_of_tier (report_of config records) label)))
           (List.filter
              (fun label => negb (rows_of_tier (report_of config records) label =? 0)%nat)
              summary_labels)).
  { unfold summary_parts.
    rewrite (List.filter_ext _
               (fun label =>
                  negb (rows_of_tier (report_of config records) label =? 0)%nat))
      by (intros label; rewrite status_count_report_of; reflexivity).
    apply List.map_ext. intros label. rewrite status_count_report_of. reflexivity. }
  split; [exact Hparts |]. split; [exact Hsum |].
  intros Hrows.
  assert (Hne : summary_parts (report_of config records) <> []).
  { rewrite Hparts. intros Hnil. apply map_eq_nil in Hnil.
    assert (Hzero : forall label, In label summary_labels ->
                      rows_of_tier (report_of config records) label = 0%nat).
    { intros label Hin.
      destruct (rows_of_tier (report_of config records) label =? 0)%nat eqn:Hz;
        [apply Nat.eqb_eq; exact Hz |].
      assert (Hf : In label
                (List.filter
                   (fun label =>
                      negb (rows_of_tier (report_of config records) label =? 0)%nat)
                   summary_labels))
        by (apply filter_In; split; [exact Hin | rewrite Hz; reflexivity]).
      rewrite Hnil in Hf. destruct Hf. }
    rewrite !Hzero in Hsum by (simpl; auto).
    simpl in Hsum. apply Hrows. simpl.
    destruct (displayed config records); [reflexivity | discriminate]. }
  split; [exact Hne |].
  unfold summary_line. destruct (summary_parts (report_of config records));
    [congruence | reflexivity].
Qed.

(** *** The console icon *)

(** The emoji and the ASCII fallback of the three tiers. *)
Definition icons : list (string * (string * string)) :=
  [("JAILED", (string_of_list_byte [xe2; x9d; x8c], "X"));
   ("AT_RISK", (string_of_list_byte [xe2; x9a; xa0; xef; xb8; x8f], "!"));
   ("HEALTHY", (string_of_list_byte [xe2; x9c; x85], "+"))].

(** X17. For each of the three tiers the icon is the emoji of the tier
    when the console can encode it, and its ASCII fallback ([X], [!] or
    [+]) otherwise. Any other status gets the empty icon. So the icon is
    non-empty exactly for the three tiers, and on a console that can
    encode the three fallbacks it is always one the console can
    encode. *)
Theorem resolve_status_icon_encodable (status : string) :
  (forall emoji ascii_icon,
      In (status, (emoji, ascii_icon)) icons ->
      STATUS_ICONS !! status = Some emoji
      /\ STATUS_ICONS_ASCII !! status = Some ascii_icon
      /\ resolve_status_icon status
         = (if stdout_can_encode emoji then emoji else ascii_icon))
  /\ (~ In status summary_labels -> resolve_status_icon status = "")
  /\ (In status summary_labels <-> resolve_status_icon status <> "")
  /\ (Forall (fun s => stdout_can_encode s = true) ["X"; "!"; "+"] ->
      In status summary_labels ->
      stdout_can_encode (resolve_status_icon status) = true).
Proof.
  assert (Hother : ~ In status summary_labels -> resolve_status_icon status = "").
  { intros Hn. unfold resolve_status_icon, STATUS_ICONS, STATUS_ICONS_ASCII.
    rewrite !lookup_insert_ne, lookup_empty
      by (intros <-; apply Hn; simpl; auto). reflexivity. }
  assert (Hicon : forall emoji ascii_icon,
            In (status, (emoji, ascii_icon)) icons ->
            STATUS_ICONS !! status = Some emoji
            /\ STATUS_ICONS_ASCII !! status = Some ascii_icon
            /\ resolve_status_icon status
               = (if stdout_can_encode emoji then emoji else ascii_icon)).
  { intros emoji ascii_icon [[= <- <- <-] | [[= <- <- <-] | [[= <- <- <-] | []]]];
      (split; [reflexivity |]); (split; [reflexivity |]);
      unfold resolve_status_icon;
      match goal with
      | |- context [String.eqb ?a ?b] => change (String.eqb a b) with false
      end; cbv iota;
      destruct (stdout_can_encode _); reflexivity. }
  split; [exact Hicon |]. split; [exact Hother |]. split.
  - split.
    + intros [<- | [<- | [<- | []]]];
        [destruct (Hicon _ _ (or_introl eq_refl)) as (_ & _ & ->)
        | destruct (Hicon _ _ (or_intror (or_introl eq_refl))) as (_ & _ & ->)
        | destruct (Hicon _ _ (or_intror (or_intror (or_introl eq_refl)))) as (_ & _ & ->)];
        destruct (stdout_can_encode _); vm_compute; discriminate.
    + intros Hne. destruct (in_dec string_dec status summary_labels) as [Hin | Hn];
        [exact Hin | destruct (Hne (Hother Hn))].
  - intros Hascii Hin.
    apply Forall_cons in Hascii as [HX Hascii].
    apply Forall_cons in Hascii as [Hbang Hascii].
    apply Forall_cons in Hascii as [Hplus _].
    destruct Hin as [<- | [<- | [<- | []]]];
      [destruct (Hicon _ _ (or_introl eq_refl)) as (_ & _ & ->)
      | destruct (Hicon _ _ (or_intror (or_introl eq_refl))) as (_ & _ & ->)
      | destruct (Hicon _ _ (or_intror (or_intror (or_introl eq_refl)))) as (_ & _ & ->)];
      destruct (stdout_can_encode (string_of_list_byte _)) eqn:He; assumption.
Qed.

(** ** The entry point

    [main] is modelled from the parsed command line on: [args] holds
    the values [parser.parse_args()] returns, which are the fields of
    the configuration built from them. The calls of [logging], which
    write to the standard error stream, are left out. *)

(** [x <= 0] on a float *)
Variable float_le_zero : flt -> bool.

(** What a call of [write_html_report] does. *)
Inductive write_outcome : Type :=
| Written
| WriteOSError (exc : string)
| WriteRaised (e : exn).

Variable write_html_report : ReportData -> AppConfig -> write_outcome.

#[local] Ltac tidy ::=
  try clear write_html_report; try clear float_le_zero;
  try clear str_of_value; try clear console_replace;
  try clear server; try clear b64decode; try clear stdout_can_encode;
  try clear lower; try clear format_percent; try clear int_of_str;
  try clear int_of_float; try clear float_of_str; try clear float_of_int;
  try clear float_truthy; try clear sleep; try clear float_pow; try clear flt.

(** What a run does, in order. *)
Inductive effect : Type :=
| Requests (trace : list event)
| Print (line : string)
| WriteHtml (report : ReportData).

(** How a run ends: [main] returns, [parser.error] exits, or an
    exception escapes. *)
Inductive ending : Type :=
| Returned
| Exited (message : string)
| Raised (e : exn).

(** The four checks that follow [parser.parse_args()]; [Some message]
    is a call of [parser.error]. *)
Definition check_args (args : AppConfig) : option string :=
  if missed_blocks_threshold args <? 0 then
    Some "--missed-threshold must be an integer greater than or equal to 0."
  else if max_retries args <? 1 then
    Some "--max-retries must be an integer greater than or equal to 1."
  else if float_le_zero (retry_backoff args) then
    Some "--retry-backoff must be a positive number."
  else if max_results args <? 0 then
    Some "--top must be an integer greater than or equal to 0."
  else None.

(** [if config.html_output:] and what follows. *)
Definition write_html (report : ReportData) (config : AppConfig)
  : ending * list effect :=
  match html_output config with
  | Some (String _ _) =>
      match write_html_report report config with
      | WriteRaised e => (Raised e, [WriteHtml report])
      | _ => (Returned, [WriteHtml report])
      end
  | _ => (Returned, [])
  end.

Definition main (args : AppConfig) : option (ending * list effect) :=
  match check_args args with
  | Some message => Some (Exited message, [])
  | None =>
      let config := args in
      match fetch_signing_info_map config with
      | None => None
      | Some (Raise (ApiClientError exc), trace1) =>
          Some (Returned,
                [Requests trace1;
                 Print (newline +:+
                   "Unable to produce the report because signing info retrieval failed.")])
      | Some (Raise e, trace1) => Some (Raised e, [Requests trace1])
      | Some (Ok signing_info_map, trace1) =>
          match fetch_active_validators config with
          | None => None
          | Some (Raise (ApiClientError exc), trace2) =>
              Some (Returned,
                    [Requests trace1; Requests trace2;
                     Print (newline +:+
                       "Unable to produce the report because validator retrieval failed.")])
          | Some (Raise e, trace2) =>
              Some (Raised e, [Requests trace1; Requests trace2])
          | Some (Ok validators, trace2) =>
              let fetched := [Requests trace1; Requests trace2] in
              match collect_validator_records signing_info_map validators with
              | Raise e => Some (Raised e, fetched)
              | Ok records =>
                  match prepare_report_data records config with
                  | Raise e => Some (Raised e, fetched)
                  | Ok report =>
                      let printed :=
                        List.map Print (print_validator_report report config) in
                      let '(end_, written) := write_html report config in
                      Some (end_, fetched ++ printed ++ written)
                  end
              end
          end
      end
  end.

(** The GETs and the printed lines of a run. *)
Definition requests_of (effects : list effect) : list event :=
  flat_map (fun e => match e with Requests trace => trace | _ => [] end) effects.

Definition printed_of (effects : list effect) : list string :=
  flat_map (fun e => match e with Print line => [line] | _ => [] end) effects.

(** *** What a run does *)

Lemma fetch_signing_info_map_ends (config : AppConfig) :
  exists res trace,
    fetch_signing_info_map config = Some (res, trace)
    /\ Z.of_nat (count_gets trace) <= Z.max 1 (max_retries config).
Proof.
  destruct (get_api_data_ends SIGNING_INFOS_ENDPOINT (base_url config)
              (max_retries config) (retry_backoff config))
    as (res & trace & Hg & Hn).
  unfold fetch_signing_info_map. rewrite Hg.
  destruct res as [payload | e]; [| eauto].
  destruct (dict_get payload "info" JNull); eauto.
Qed.

Lemma fetch_active_validators_ends (config : AppConfig) :
  exists res trace,
    fetch_active_validators config = Some (res, trace)
    /\ Z.of_nat (count_gets trace) <= Z.max 1 (max_retries config).
Proof.
  destruct (get_api_data_ends VALIDATORS_ENDPOINT (base_url config)
              (max_retries config) (retry_backoff config))
    as (res & trace & Hg & Hn).
  unfold fetch_active_validators. rewrite Hg.
  destruct res as [payload | e]; [| eauto].
  destruct (dict_get payload "validators" JNull); eauto.
Qed.

(** A fetch that fails every one of its [max_retries] attempts, the
    sleeps between them returning, raises the fetch-failure error. *)
Lemma fetch_signing_info_map_exhausts (config : AppConfig) (delays : list flt) :
  let url := base_url config +:+ SIGNING_INFOS_ENDPOINT in
  Z.of_nat (S (length delays)) = max_retries config ->
  (forall j, (j <= length delays)%nat -> fails (server url j)) ->
  slept (retry_backoff config) 0 delays ->
  fetch_signing_info_map config
  = Some (Raise (ApiClientError ("Failed to fetch data from " +:+ url)),
          failed_attempts url (max_retries config) 0 delays ++ [EvGet url]).
Proof.
  tidy. intros url Hm Hf Hs. unfold fetch_signing_info_map.
  rewrite (get_api_data_exhausts SIGNING_INFOS_ENDPOINT (base_url config)
             (max_retries config) (retry_backoff config) delays eq_refl);
    [reflexivity | left; lia | exact Hf | exact Hs | lia].
Qed.

Lemma fetch_active_validators_exhausts (config : AppConfig) (delays : list flt) :
  let url := base_url config +:+ VALIDATORS_ENDPOINT in
  Z.of_nat (S (length delays)) = max_retries config ->
  (forall j, (j <= length delays)%nat -> fails (server url j)) ->
  slept (retry_backoff config) 0 delays ->
  fetch_active_validators config
  = Some (Raise (ApiClientError ("Failed to fetch data from " +:+ url)),
          failed_attempts url (max_retries config) 0 delays ++ [EvGet url]).
Proof.
  tidy. intros url Hm Hf Hs. unfold fetch_active_validators.
  rewrite (get_api_data_exhausts VALIDATORS_ENDPOINT (base_url config)
             (max_retries config) (retry_backoff config) delays eq_refl);
    [reflexivity | left; lia | exact Hf | exact Hs | lia].
Qed.

Lemma check_args_None (args : AppConfig) :
  check_args args = None <->
  0 <= missed_blocks_threshold args /\ 1 <= max_retries args
  /\ float_le_zero (retry_backoff args) = false /\ 0 <= max_results args.
Proof.
  unfold check_args.
  destruct (Z.ltb_spec (missed_blocks_threshold args) 0);
    destruct (Z.ltb_spec (max_retries args) 1);
    destruct (float_le_zero (retry_backoff args));
    destruct (Z.ltb_spec (max_results args) 0);
    split; try discriminate; try (intros _; repeat split; (lia || reflexivity));
    try (intros (? & ? & ? & ?); (lia || discriminate)); reflexivity.
Qed.

Lemma requests_of_app (a b : list effect) :
  requests_of (a ++ b) = requests_of a ++ requests_of b.
Proof. apply flat_map_app. Qed.

Lemma printed_of_app (a b : list effect) :
  printed_of (a ++ b) = printed_of a ++ printed_of b.
Proof. apply flat_map_app. Qed.

Lemma requests_of_Print (lines : list string) :
  requests_of (List.map Print lines) = [].
Proof. induction lines as [| l ls IH]; [reflexivity | exact IH]. Qed.

Lemma printed_of_Print (lines : list string) :
  printed_of (List.map Print lines) = lines.
Proof.
  induction lines as [| l ls IH]; [reflexivity |].
  change (printed_of (List.map Print (l :: ls)))
    with (l :: printed_of (List.map Print ls)).
  rewrite IH. reflexivity.
Qed.

Lemma write_html_effects (report : ReportData) (config : AppConfig) :
  requests_of (write_html report config).2 = []
  /\ printed_of (write_html report config).2 = []
  /\ (forall e, (write_html report config).1 = Raised e ->
                write_html_report report config = WriteRaised e)
  /\ (forall message, (write_html report config).1 <> Exited message).
Proof.
  unfold write_html. destruct (html_output config) as [[| c path] |];
    try (repeat split; discriminate).
  destruct (write_html_report report config);
    repeat split; try discriminate. intros e' [= ->]. reflexivity.
Qed.

(** Whether an exception is the one that [main] catches. *)
Definition is_api_client_error (e : exn) : bool :=
  match e with
  | ApiClientError _ => true
  | _ => false
  end.

(** X18. A run always ends. It sends at most [2 * max_retries] GETs,
    and does nothing at all (no request, no output) unless the four
    command line checks pass. An [ApiClientError] of a fetch never
    leaves [main]. An exception that does leave it is an exception of
    another kind that a fetch raised (the power, the sleep or the JSON
    decoder inside it), or it was raised after both fetches had
    succeeded, by the merger, by the report assembler or by the HTML
    writer. *)
Theorem main_outcome (args : AppConfig) :
  exists end_ effects,
    main args = Some (end_, effects)
    /\ Z.of_nat (count_gets (requests_of effects)) <= Z.max 0 (2 * max_retries args)
    /\ (effects <> [] ->
        0 <= missed_blocks_threshold args /\ 1 <= max_retries args
        /\ float_le_zero (retry_backoff args) = false /\ 0 <= max_results args)
    /\ (forall e, end_ = Raised e ->
        (exists trace1,
            fetch_signing_info_map args = Some (Raise e, trace1)
            /\ is_api_client_error e = false)
        \/ exists signing_info_map trace1,
             fetch_signing_info_map args = Some (Ok signing_info_map, trace1)
             /\ ((exists trace2,
                     fetch_active_validators args = Some (Raise e, trace2)
                     /\ is_api_client_error e = false)
                 \/ exists validators trace2,
                      fetch_active_validators args = Some (Ok validators, trace2)
                      /\ (collect_validator_records signing_info_map validators
                          = Raise e
                          \/ exists records,
                               collect_validator_records signing_info_map validators
                               = Ok records
                               /\ (prepare_report_data records args = Raise e
                                   \/ exists report,
                                        prepare_report_data records args = Ok report
                                        /\ write_html_report report args
                                           = WriteRaised e)))).
Proof.
  unfold main. destruct (check_args args) as [message |] eqn:Hc.
  - eexists _, _. split; [reflexivity |]. split; [unfold count_gets; simpl; lia |].
    split; [congruence | discriminate].
  - pose proof (proj1 (check_args_None args) Hc) as Hv.
    assert (Hr : 1 <= max_retries args) by tauto.
    destruct (fetch_signing_info_map_ends args) as (res1 & trace1 & H1 & Hn1).
    rewrite H1. destruct res1 as [sim | e1].
    + destruct (fetch_active_validators_ends args) as (res2 & trace2 & H2 & Hn2).
      rewrite H2.
      assert (Hgets : Z.of_nat (count_gets (trace1 ++ trace2))
                      <= Z.max 0 (2 * max_retries args))
        by (rewrite count_gets_app; lia).
      destruct res2 as [validators | e2].
      * destruct (collect_validator_records sim validators) as [records | e] eqn:Hcol.
        -- destruct (prepare_report_data records args) as [report | e] eqn:Hprep.
           ++ destruct (write_html_effects report args) as (Hq & _ & Hraise & _).
              destruct (write_html report args) as [end_ written]. simpl in Hq, Hraise.
              eexists _, _. split; [reflexivity |]. split.
              { rewrite !requests_of_app, requests_of_Print, Hq. simpl.
                rewrite !app_nil_r. exact Hgets. }
              split; [intros _; exact Hv |].
              intros e He. right. exists sim, trace1. split; [reflexivity |].
              right. exists validators, trace2. split; [reflexivity |].
              right. exists records. split; [exact Hcol |].
              right. exists report. split; [exact Hprep | exact (Hraise e He)].
           ++ eexists _, _. split; [reflexivity |]. split.
              { simpl. rewrite app_nil_r. exact Hgets. }
              split; [intros _; exact Hv |].
              intros e' [= <-]. right. exists sim, trace1. split; [reflexivity |].
              right. exists validators, trace2. split; [reflexivity |].
              right. exists records. split; [exact Hcol |]. left. exact Hprep.
        -- eexists _, _. split; [reflexivity |]. split.
           { simpl. rewrite app_nil_r. exact Hgets. }
           split; [intros _; exact Hv |].
           intros e' [= <-]. right. exists sim, trace1. split; [reflexivity |].
           right. exists validators, trace2. split; [reflexivity |]. left. exact Hcol.
      * assert (Hgets' : Z.of_nat (count_gets (requests_of
                                      [Requests trace1; Requests trace2]))
                         <= Z.max 0 (2 * max_retries args))
          by (simpl; rewrite app_nil_r; exact Hgets).
        destruct e2; eexists _, _; (split; [reflexivity |]);
          (split; [first [exact Hgets' | simpl; rewrite app_nil_r; exact Hgets] |]);
          (split; [intros _; exact Hv |]);
          intros e' [= <-]; right; exists sim, trace1; (split; [reflexivity |]);
          left; exists trace2; split; reflexivity.
    + assert (Hgets : Z.of_nat (count_gets (requests_of [Requests trace1]))
                      <= Z.max 0 (2 * max_retries args))
        by (simpl; rewrite app_nil_r; lia).
      destruct e1; eexists _, _; (split; [reflexivity |]);
        (split; [first [exact Hgets | simpl; rewrite app_nil_r; lia] |]);
        (split; [intros _; exact Hv |]);
        intros e' [= <-]; left; exists trace1; split; reflexivity.
Qed.

(** X19. When the arguments pass the checks and the server fails every
    one of the [max_retries] requests for the signing infos, the sleeps
    between them returning, the run prints one line, which names the
    fetch that failed, and returns: it has sent [max_retries] GETs, all
    for the signing infos, and none for the validators. The same holds
    of the validators once the signing infos are fetched. An exception
    of a fetch that is not an [ApiClientError] is not caught: it ends
    the run, and nothing is printed. *)
Theorem main_fetch_failure (args : AppConfig) (delays : list flt) :
  check_args args = None ->
  Z.of_nat (S (length delays)) = max_retries args ->
  slept (retry_backoff args) 0 delays ->
  let attempts url :=
    failed_attempts url (max_retries args) 0 delays ++ [EvGet url] in
  let down url := forall j, (j <= length delays)%nat -> fails (server url j) in
  (down (base_url args +:+ SIGNING_INFOS_ENDPOINT) ->
   main args
   = Some (Returned,
           [Requests (attempts (base_url args +:+ SIGNING_INFOS_ENDPOINT));
            Print (newline +:+
              "Unable to produce the report because signing info retrieval failed.")]))
  /\ (forall signing_info_map trace1,
        fetch_signing_info_map args = Some (Ok signing_info_map, trace1) ->
        down (base_url args +:+ VALIDATORS_ENDPOINT) ->
        main args
        = Some (Returned,
                [Requests trace1;
                 Requests (attempts (base_url args +:+ VALIDATORS_ENDPOINT));
                 Print (newline +:+
                   "Unable to produce the report because validator retrieval failed.")]))
  /\ (forall e trace1,
        fetch_signing_info_map args = Some (Raise e, trace1) ->
        is_api_client_error e = false ->
        main args = Some (Raised e, [Requests trace1]))
  /\ (forall signing_info_map trace1 e trace2,
        fetch_signing_info_map args = Some (Ok signing_info_map, trace1) ->
        fetch_active_validators args = Some (Raise e, trace2) ->
        is_api_client_error e = false ->
        main args = Some (Raised e, [Requests trace1; Requests trace2])).
Proof.
  intros Hc Hm Hs attempts down. unfold main. rewrite Hc.
  split; [| split; [| split]].
  - intros Hdown.
    rewrite (fetch_signing_info_map_exhausts args delays Hm Hdown Hs). reflexivity.
  - intros sim trace1 H1 Hdown.
    rewrite H1, (fetch_active_validators_exhausts args delays Hm Hdown Hs). reflexivity.
  - intros e trace1 H1 He. rewrite H1. destruct e; try discriminate; reflexivity.
  - intros sim trace1 e trace2 H1 H2 He. rewrite H1, H2.
    destruct e; try discriminate; reflexivity.
Qed.

Lemma collect_validator_records_all_skipped signing_info_map validators :
  Forall (fun v => merge_validator signing_info_map v = Ok None) validators ->
  collect_validator_records signing_info_map validators = Ok [].
Proof.
  intros H. unfold collect_validator_records.
  generalize (@nil ValidatorRecord).
  induction H as [| v vs Hv _ IH]; intros records; simpl; [reflexivity |].
  rewrite Hv. apply IH.
Qed.

(** X20. When both fetches succeed and every validator is skipped by
    the merger (in particular when the validators list is empty), the
    run prints the header and "No active validators found.", whatever
    the signing infos are, and sends no request beyond the two fetches;
    without an HTML output it returns. *)
Theorem main_no_records (args : AppConfig)
    (signing_info_map : gmap string (gmap string json)) (trace1 : list event)
    (validators : list (gmap string json)) (trace2 : list event) :
  check_args args = None ->
  fetch_signing_info_map args = Some (Ok signing_info_map, trace1) ->
  fetch_active_validators args = Some (Ok validators, trace2) ->
  Forall (fun v => merge_validator signing_info_map v = Ok None) validators ->
  exists end_ effects,
    main args = Some (end_, effects)
    /\ printed_of effects = report_header args ++ ["No active validators found."]
    /\ requests_of effects = trace1 ++ trace2
    /\ (html_output args = None -> end_ = Returned).
Proof.
  intros Hc H1 H2 Hskip. unfold main. rewrite Hc, H1, H2.
  rewrite (collect_validator_records_all_skipped _ _ Hskip).
  rewrite (prepare_report_data_eq args []) by constructor.
  destruct (write_html_effects (report_of args []) args) as (Hq & Hp & _ & _).
  assert (Hnone : html_output args = None ->
                  (write_html (report_of args []) args).1 = Returned)
    by (unfold write_html; intros ->; reflexivity).
  destruct (write_html (report_of args []) args) as [end_ written].
  simpl in Hq, Hp, Hnone.
  eexists _, _. split; [reflexivity |]. split; [| split; [| exact Hnone]].
  - rewrite !printed_of_app, printed_of_Print, Hp. simpl. rewrite ?app_nil_r.
    reflexivity.
  - rewrite !requests_of_app, requests_of_Print, Hq. simpl.
    rewrite ?app_nil_r. reflexivity.
Qed.

End Monitor.

(** ** A concrete instance

    Rationals stand for floating point numbers, with the overflow of
    the float range and of the clock; lower-casing is the ASCII one, the
    console encodes everything, base64 is the decoder above. *)

Module Demo.

Definition lower_ascii (c : ascii) : ascii :=
  let n := N_of_ascii c in
  if ((65 <=? n) && (n <=? 90))%N then ascii_of_N (n + 32) else c.

Fixpoint lower (s : string) : string :=
  match s with
  | EmptyString => EmptyString
  | String c s' => String (lower_ascii c) (lower s')
  end.

Fixpoint digits (fuel : nat) (n : Z) (acc : string) : string :=
  match fuel with
  | O => acc
  | S fuel' =>
      let acc := String (ascii_of_N (48 + Z.to_N (n mod 10))) acc in
      if n / 10 =? 0 then acc else digits fuel' (n / 10) acc
  end.

(** The rate as a percentage with two decimals, rounded half up. *)
Definition format_percent (rate : Q) : string :=
  let hundredths := Qfloor (Qplus (Qmult rate (inject_Z 10000)) (Qmake 1 2)) in
  digits 40 (hundredths / 100) ""
  +:+ "." +:+ digits 1 (hundredths mod 100 / 10) ""
  +:+ digits 1 (hundredths mod 10) "" +:+ "%".

(** Rationals stand for the floats, without rounding. The largest
    finite double is [2^1024 - 2^971]; a power beyond it raises
    [OverflowError]. The program only uses exponents [n >= 0]. *)
Definition float_max : Q := inject_Z (2 ^ 1024 - 2 ^ 971).

Definition float_pow (x : Q) (n : Z) : result Q :=
  let y := Qpower x n in
  if Qle_bool (Qopp float_max) y && Qle_bool y float_max then Ok y
  else Raise (OverflowError "(34, 'Numerical result out of range')").

(** [time.sleep] keeps the delay as a signed 64-bit count of
    nanoseconds, and refuses negative delays. *)
Definition sleep_max : Q := Qmake (2 ^ 63 - 1) (10 ^ 9).

Definition sleep (seconds : Q) : result unit :=
  if negb (Qle_bool (inject_Z 0) seconds) then
    Raise (ValueError "sleep length must be non-negative")
  else if Qle_bool seconds sleep_max then Ok tt
  else Raise (OverflowError "timestamp too large to convert to C _PyTime_t").

Definition stdout_can_encode (icon : string) : bool := true.

Definition config : AppConfig Q :=
  {| base_url := "https://rest.cosmos.directory/cosmoshub";
     missed_blocks_threshold := 500;
     max_retries := 3;
     retry_backoff := inject_Z 2;
     hide_healthy := false;
     max_results := 0;
     html_output := None;
     html_title := "Cosmos Validator Health Report" |}.

Definition config_top (n : Z) : AppConfig Q :=
  {| base_url := base_url Q config;
     missed_blocks_threshold := missed_blocks_threshold Q config;
     max_retries := max_retries Q config;
     retry_backoff := retry_backoff Q config;
     hide_healthy := hide_healthy Q config;
     max_results := n;
     html_output := html_output Q config;
     html_title := html_title Q config |}.

Definition record (moniker : string) (jailed : bool) (missed_blocks : Z)
  : ValidatorRecord Q :=
  {| rec_moniker := JStr Q moniker;
     rec_operator_address := JStr Q ("cosmosvaloper1" +:+ moniker);
     rec_consensus_address := "cosmosvalcons1" +:+ moniker;
     rec_jailed := jailed;
     rec_missed_blocks := missed_blocks;
     rec_commission_rate := Some (Qmake 5 100) |}.

Definition records : list (ValidatorRecord Q) :=
  [record "bob" false 0; record "Alice" true 10; record "carol" false 900;
   record "alice" false 3; record "Bob" false 7].

Definition healthy_records : list (ValidatorRecord Q) :=
  [record "bob" false 0; record "alice" false 500].

Definition prepare (records : list (ValidatorRecord Q)) (config : AppConfig Q)
  : result (ReportData Q) :=
  prepare_report_data Q format_percent lower stdout_can_encode records config.

Definition url : string := "https://rest.cosmos.directory/cosmoshub/validators".

(** A server that fails twice and then answers with a JSON object. *)
Definition payload : gmap string (json Q) := <["validators" := JList Q []]> ∅.

Definition server_flaky (url : string) (n : nat) : http_outcome Q :=
  match n with
  | 0%nat => HttpError Q "timeout"
  | 1%nat => HttpError Q "503"
  | _ => HttpResponse Q (JsonValue Q (JDict Q payload))
  end.

(** A server that answers at once, with a JSON array. *)
Definition server_array (url : string) (n : nat) : http_outcome Q :=
  HttpResponse Q (JsonValue Q (JList Q [JInt Q 1])).

Definition zero_key : string := "AAAAAAAAAAAAAAAAAAAAAAAAAAAAAAAAAAAAAAAAAAA=".

(** Decimal literals, as the REST API writes counters and rates. *)
Fixpoint parse_digits (cs : list ascii) (acc : Z) : option Z :=
  match cs with
  | [] => Some acc
  | c :: cs' =>
      let n := N_of_ascii c in
      if ((48 <=? n) && (n <=? 57))%N
      then parse_digits cs' (10 * acc + Z.of_N (n - 48))
      else None
  end.

Fixpoint split_dot (cs : list ascii) : list ascii * option (list ascii) :=
  match cs with
  | [] => ([], None)
  | c :: cs' =>
      if Ascii.eqb c "."%char then ([], Some cs')
      else let '(whole, frac) := split_dot cs' in (c :: whole, frac)
  end.

Definition int_of_str (s : string) : result Z :=
  match list_ascii_of_string s with
  | [] => Raise (ValueError "invalid literal for int() with base 10")
  | cs =>
      match parse_digits cs 0 with
      | Some n => Ok n
      | None => Raise (ValueError "invalid literal for int() with base 10")
      end
  end.

Definition float_of_str (s : string) : result Q :=
  let '(whole, frac) := split_dot (list_ascii_of_string s) in
  match whole, parse_digits whole 0, frac with
  | _ :: _, Some i, None => Ok (inject_Z i)
  | _ :: _, Some i, Some fs =>
      match parse_digits fs 0 with
      | Some f =>
          Ok (Qplus (inject_Z i)
                (Qmake f (Z.to_pos (10 ^ Z.of_nat (length fs)))))
      | None => Raise (ValueError "could not convert string to float")
      end
  | _, _, _ => Raise (ValueError "could not convert string to float")
  end.

Definition float_truthy (x : Q) : bool := negb (Qeq_bool x (inject_Z 0)).

Definition float_of_int (n : Z) : result Q := Ok (inject_Z n).

Definition int_of_float (x : Q) : result Z := Ok (Z.quot (Qnum x) (Z.pos (Qden x))).

Definition collect (signing_info_map : gmap string (gmap string (json Q)))
    (validators : list (gmap string (json Q))) : result (list (ValidatorRecord Q)) :=
  collect_validator_records Q float_truthy float_of_int float_of_str int_of_float
    int_of_str Base64.b64decode_strict signing_info_map validators.

Definition validator (moniker key rate : string) : gmap string (json Q) :=
  <["description" := JDict Q (<["moniker" := JStr Q moniker]> ∅)]>
  (<["operator_address" := JStr Q ("cosmosvaloper1" +:+ moniker)]>
  (<["consensus_pubkey" := JDict Q (<["key" := JStr Q key]> ∅)]>
  (<["jailed" := JBool Q false]>
  (<["commission" :=
       JDict Q (<["commission_rates" := JDict Q (<["rate" := JStr Q rate]> ∅)]> ∅)]>
   ∅)))).

Definition signing_infos : gmap string (gmap string (json Q)) :=
  <["cosmosvalcons1ve584t0cv27hwmy0cx9ca8uwyqyfw9y90lquj6" :=
      <["missed_blocks_counter" := JStr Q "12"]> ∅]> ∅.

(** The console can encode every text, so nothing is replaced. *)
Definition console_replace (text : string) : string := text.

(** [str] of the values the examples print. *)
Definition str_of_value (value : json Q) : string :=
  match value with
  | JNull _ => "None"
  | JBool _ true => "True"
  | JBool _ false => "False"
  | JInt _ n => str_of_int n
  | _ => type_name Q value
  end.

Definition float_le_zero (x : Q) : bool := Qle_bool x (inject_Z 0).

Definition write_html_report (report : ReportData Q) (config : AppConfig Q)
  : write_outcome := Written.

(** A server that answers both endpoints at once: one signing info, and
    one validator without a consensus key. *)
Definition server_api (url : string) (n : nat) : http_outcome Q :=
  if String.eqb url (base_url Q config +:+ SIGNING_INFOS_ENDPOINT) then
    HttpResponse Q
      (JsonValue Q (JDict Q
         (<["info" :=
              JList Q
                [JDict Q
                   (<["address" :=
                        JStr Q "cosmosvalcons1ve584t0cv27hwmy0cx9ca8uwyqyfw9y90lquj6"]>
                    (<["missed_blocks_counter" := JStr Q "12"]> ∅))]]> ∅)))
  else
    HttpResponse Q
      (JsonValue Q (JDict Q
         (<["validators" := JList Q [JDict Q (<["moniker" := JStr Q "bob"]> ∅)]]> ∅))).

(** A server that answers at once with a JSON array nested deeper than
    the decoder recurses. *)
Definition server_nested (url : string) (n : nat) : http_outcome Q :=
  HttpResponse Q
    (JsonRaises Q
       (RecursionError
          "maximum recursion depth exceeded while decoding a JSON array from a unicode string")).

(** [--retry-backoff 1e200 --max-retries 3]: the checks accept it. *)
Definition config_huge_backoff : AppConfig Q :=
  {| base_url := base_url Q config;
     missed_blocks_threshold := missed_blocks_threshold Q config;
     max_retries := 3;
     retry_backoff := inject_Z (10 ^ 200);
     hide_healthy := hide_healthy Q config;
     max_results := max_results Q config;
     html_output := html_output Q config;
     html_title := html_title Q config |}.

(** A server that is down. *)
Definition server_down (url : string) (n : nat) : http_outcome Q :=
  HttpError Q "timeout".

Definition merge (signing_info_map : gmap string (gmap string (json Q)))
    (validator : gmap string (json Q)) : result (option (ValidatorRecord Q)) :=
  merge_validator Q float_truthy float_of_int float_of_str int_of_float
    int_of_str Base64.b64decode_strict signing_info_map validator.

Definition print (report : ReportData Q) (config : AppConfig Q) : list string :=
  print_validator_report Q stdout_can_encode console_replace str_of_value report config.

Definition run (server : string -> nat -> http_outcome Q) (args : AppConfig Q)
  : option (ending * list (effect Q)) :=
  main Q float_pow sleep float_truthy float_of_int float_of_str int_of_float int_of_str
    format_percent lower stdout_can_encode Base64.b64decode_strict server
    console_replace str_of_value float_le_zero write_html_report args.

End Demo.

Example format_percent_five : Demo.format_percent (Qmake 5 100) = "5.00%".
Proof. vm_compute. reflexivity. Qed.

Example demo_address :
  convert_pubkey_to_cons_address Base64.b64decode_strict Demo.zero_key
  = Ok "cosmosvalcons1ve584t0cv27hwmy0cx9ca8uwyqyfw9y90lquj6".
Proof. vm_compute. reflexivity. Qed.

Example demo_address_rejected :
  convert_pubkey_to_cons_address Base64.b64decode_strict "not base64"
  = Raise (ValueError "Invalid base64 consensus public key").
Proof. vm_compute. reflexivity. Qed.

(** One validator merged with its signing info, one without a public
    key and one with a key that is not base64, both skipped. *)
Example demo_collect :
  exists record,
    Demo.collect Demo.signing_infos
      [Demo.validator "alice" Demo.zero_key "0.050000000000000000";
       <["moniker" := JStr Q "bob"]> ∅;
       Demo.validator "carol" "not base64" "0.1"]
    = Ok [record]
    /\ rec_moniker Q record = JStr Q "alice"
    /\ rec_consensus_address Q record
       = "cosmosvalcons1ve584t0cv27hwmy0cx9ca8uwyqyfw9y90lquj6"
    /\ rec_missed_blocks Q record = 12
    /\ option_map Demo.format_percent (rec_commission_rate Q record) = Some "5.00%".
Proof. eexists. split; [vm_compute; reflexivity |]. vm_compute. repeat split. Qed.

(** A counter that does not parse counts as 0, a rate that does not
    parse is unknown. *)
Example demo_collect_defaults :
  exists record,
    Demo.collect
      (<["cosmosvalcons1ve584t0cv27hwmy0cx9ca8uwyqyfw9y90lquj6" :=
           <["missed_blocks_counter" := JStr Q "many"]> ∅]> ∅)
      [Demo.validator "alice" Demo.zero_key "high"]
    = Ok [record]
    /\ rec_missed_blocks Q record = 0
    /\ rec_commission_rate Q record = None.
Proof. eexists. split; [vm_compute; reflexivity |]. vm_compute. repeat split. Qed.

(** The unguarded lookup of the rate: a null [commission_rates] aborts
    the batch as well. *)
Example demo_collect_aborts_on_commission :
  Demo.collect Demo.signing_infos
    [<["commission" := JDict Q (<["commission_rates" := JNull Q]> ∅)]>
       (Demo.validator "alice" Demo.zero_key "0.05")]
  = Raise (AttributeError "'NoneType' object has no attribute 'get'").
Proof. vm_compute. reflexivity. Qed.

(** Jailed first, then at risk, then healthy by lower-cased moniker,
    "bob" before "Bob" as in the input. *)
Example demo_row_order :
  exists rd,
    Demo.prepare Demo.records Demo.config = Ok rd
    /\ List.map (row_moniker Q) (rows Q rd)
       = List.map (JStr Q) ["Alice"; "carol"; "alice"; "bob"; "Bob"]
    /\ List.map (row_status Q) (rows Q rd)
       = ["JAILED"; "AT_RISK"; "HEALTHY"; "HEALTHY"; "HEALTHY"]
    /\ List.map (row_commission_display Q) (rows Q rd)
       = ["5.00%"; "5.00%"; "5.00%"; "5.00%"; "5.00%"]
    /\ status_counts Q rd !! "HEALTHY" = Some 3%nat
    /\ total_shown Q rd = 5%nat.
Proof. eexists. split; [vm_compute; reflexivity |]. vm_compute. repeat split. Qed.

Example demo_top_two :
  exists rd,
    Demo.prepare Demo.records (with_hide_healthy Q true (Demo.config_top 2)) = Ok rd
    /\ List.map (row_moniker Q) (rows Q rd) = List.map (JStr Q) ["Alice"; "carol"]
    /\ status_counts Q rd !! "HEALTHY" = None
    /\ total_records Q rd = 5%nat
    /\ filtered_out_healthy Q rd = false.
Proof. eexists. split; [vm_compute; reflexivity |]. vm_compute. repeat split. Qed.

Example demo_fetch_trace :
  get_api_data Q Demo.float_pow Demo.sleep Demo.server_flaky "/validators"
    (base_url Q Demo.config) 3 (inject_Z 2)
  = Some (Ok Demo.payload,
          [EvGet Q Demo.url;
           EvWarning Q "timeout" 1 3 (Qpower (inject_Z 2) 0);
           EvSleep Q (Qpower (inject_Z 2) 0);
           EvGet Q Demo.url;
           EvWarning Q "503" 2 3 (Qpower (inject_Z 2) 1);
           EvSleep Q (Qpower (inject_Z 2) 1);
           EvGet Q Demo.url]).
Proof. vm_compute. reflexivity. Qed.

Example demo_fetch_exhausted :
  get_api_data Q Demo.float_pow Demo.sleep Demo.server_flaky "/validators"
    (base_url Q Demo.config) 2 (inject_Z 2)
  = Some (Raise (ApiClientError ("Failed to fetch data from " +:+ Demo.url)),
          [EvGet Q Demo.url;
           EvWarning Q "timeout" 1 2 (Qpower (inject_Z 2) 0);
           EvSleep Q (Qpower (inject_Z 2) 0);
           EvGet Q Demo.url]).
Proof. vm_compute. reflexivity. Qed.

Example demo_fetch_bad_endpoint :
  get_api_data Q Demo.float_pow Demo.sleep Demo.server_flaky "validators"
    (base_url Q Demo.config) 3 (inject_Z 2)
  = Some (Raise (ValueError "Endpoint must start with '/'."), []).
Proof. vm_compute. reflexivity. Qed.

(** A backoff of 1e200: the second sleep is too long for the clock, and
    its [OverflowError] ends the fetch before the attempt that would
    have succeeded. *)
Example demo_fetch_overflow :
  get_api_data Q Demo.float_pow Demo.sleep Demo.server_flaky "/validators"
    (base_url Q Demo.config) 3 (inject_Z (10 ^ 200))
  = Some (Raise (OverflowError "timestamp too large to convert to C _PyTime_t"),
          [EvGet Q Demo.url;
           EvWarning Q "timeout" 1 3 (inject_Z 1);
           EvSleep Q (inject_Z 1);
           EvGet Q Demo.url;
           EvWarning Q "503" 2 3 (inject_Z (10 ^ 200));
           EvSleep Q (inject_Z (10 ^ 200))]).
Proof. vm_compute. reflexivity. Qed.

(** The same backoff given to [main]: the exception is not an
    [ApiClientError], nothing catches it and nothing is printed. *)
Example demo_run_overflow :
  exists trace1,
    Demo.run Demo.server_down Demo.config_huge_backoff
    = Some (Raised (OverflowError "timestamp too large to convert to C _PyTime_t"),
            [Requests Q trace1])
    /\ count_gets Q trace1 = 2%nat.
Proof. eexists. split; vm_compute; reflexivity. Qed.

(** ** The theorems at the concrete instance *)

Lemma demo_records_str : Forall (str_moniker Q) Demo.records.
Proof. repeat constructor; eexists; reflexivity. Qed.

Lemma demo_healthy_records_str : Forall (str_moniker Q) Demo.healthy_records.
Proof. repeat constructor; eexists; reflexivity. Qed.

Lemma determine_health_status_tiers_witness :
  determine_health_status Q true 0 Demo.config = JAILED
  /\ determine_health_status Q false 501 Demo.config = AT_RISK
  /\ determine_health_status Q false 500 Demo.config = HEALTHY.
Proof.
  pose proof (determine_health_status_tiers Q true 0 Demo.config) as Hj.
  pose proof (determine_health_status_tiers Q false 501 Demo.config) as Ha.
  pose proof (determine_health_status_tiers Q false 500 Demo.config) as Hh.
  cbv zeta in Hj, Ha, Hh.
  destruct Hj as (Hj & _), Ha as (_ & Ha & _), Hh as (_ & _ & Hh & _).
  split; [exact (Hj eq_refl) |].
  split; [apply Ha; [reflexivity | simpl; lia] |].
  apply Hh; [reflexivity | simpl; lia].
Defined.

Lemma convert_pubkey_to_cons_address_spec_witness :
  let address_bytes := take 20 (Sha256.digest (repeat x00 32)) in
  exists symbols address,
    convert_pubkey_to_cons_address Base64.b64decode_strict Demo.zero_key = Ok address
    /\ length address_bytes = 20%nat
    /\ length symbols = 32%nat
    /\ regrouped address_bytes symbols
    /\ Bech32.bech32_encode "cosmosvalcons" symbols = Ok address
    /\ String.prefix "cosmosvalcons1" address = true
    /\ String.length address = 52%nat.
Proof.
  destruct (convert_pubkey_to_cons_address_spec Base64.b64decode_strict Demo.zero_key)
    as [H _].
  apply (H (repeat x00 32)). vm_compute. reflexivity.
Defined.

Lemma get_api_data_retries_witness :
  Demo.server_flaky Demo.url 2 = HttpResponse Q (JsonValue Q (JDict Q Demo.payload))
  /\ exists trace,
       get_api_data Q Demo.float_pow Demo.sleep Demo.server_flaky "/validators"
         (base_url Q Demo.config) 3 (inject_Z (10 ^ 200))
       = Some (Raise (OverflowError "timestamp too large to convert to C _PyTime_t"),
               trace)
       /\ count_gets Q trace = 2%nat.
Proof.
  split; [reflexivity |].
  destruct (get_api_data_retries Q Demo.float_pow Demo.sleep Demo.server_flaky
              "/validators" (base_url Q Demo.config) 3 (inject_Z (10 ^ 200))
              [Qpower (inject_Z (10 ^ 200)) 0]
              (OverflowError "timestamp too large to convert to C _PyTime_t"))
    as (trace & H1 & _ & H3 & _).
  - reflexivity.
  - simpl. lia.
  - intros j Hj. destruct j as [| [| j]];
      [eexists; reflexivity | eexists; reflexivity | simpl in Hj; lia].
  - split; [vm_compute; reflexivity |]. split; [vm_compute; reflexivity | exact I].
  - right. exists (Qpower (inject_Z (10 ^ 200)) 1). split; vm_compute; reflexivity.
  - exists trace. split; assumption.
Defined.

Lemma get_api_data_payload_shape_witness :
  get_api_data Q Demo.float_pow Demo.sleep Demo.server_nested "/validators"
    (base_url Q Demo.config) 3 (inject_Z 2)
  = Some (Raise (RecursionError
                   "maximum recursion depth exceeded while decoding a JSON array from a unicode string"),
          [EvGet Q Demo.url]).
Proof.
  destruct (get_api_data_payload_shape Q Demo.float_pow Demo.sleep Demo.server_nested
              "/validators" (base_url Q Demo.config) 3 (inject_Z 2) []
              (JsonRaises Q
                 (RecursionError
                    "maximum recursion depth exceeded while decoding a JSON array from a unicode string"))
              eq_refl)
    as (H & _).
  - right. reflexivity.
  - intros j Hj. simpl in Hj. lia.
  - exact I.
  - reflexivity.
  - exact H.
Defined.

Lemma prepare_report_data_row_order_witness :
  exists rd shown_records,
    Demo.prepare Demo.records Demo.config = Ok rd
    /\ rows Q rd
       = List.map (make_row Q Demo.format_percent Demo.stdout_can_encode Demo.config)
           shown_records
    /\ shown_records `sublist_of` ordered Q Demo.lower Demo.config Demo.records
    /\ ordered Q Demo.lower Demo.config Demo.records ≡ₚ Demo.records
    /\ StronglySorted (record_le Q Demo.lower Demo.config)
         (ordered Q Demo.lower Demo.config Demo.records)
    /\ StronglySorted (row_le Q Demo.lower) (rows Q rd).
Proof.
  destruct (prepare_report_data_row_order Q Demo.format_percent Demo.lower
              Demo.stdout_can_encode Demo.config Demo.records demo_records_str)
    as (rd & shown_records & H1 & H2 & H3 & H4 & H5 & _ & _ & H7 & _).
  exists rd, shown_records. repeat split; assumption.
Defined.

Lemma prepare_report_data_max_results_witness :
  exists rd,
    Demo.prepare Demo.records (Demo.config_top 2) = Ok rd
    /\ Z.of_nat (length (rows Q rd)) <= 2
    /\ total_records Q rd = 5%nat.
Proof.
  destruct (prepare_report_data_max_results Q Demo.format_percent Demo.lower
              Demo.stdout_can_encode (Demo.config_top 2) Demo.records
              eq_refl demo_records_str)
    as (rd & H1 & H2 & _ & _ & _ & H6).
  exists rd. repeat split; assumption.
Defined.

Lemma prepare_report_data_totals_witness :
  exists rd,
    Demo.prepare Demo.records Demo.config = Ok rd
    /\ total_shown Q rd = length (rows Q rd)
    /\ length (rows Q rd) = sum_values (status_counts Q rd).
Proof.
  exact (prepare_report_data_totals Q Demo.format_percent Demo.lower
           Demo.stdout_can_encode Demo.config Demo.records demo_records_str).
Defined.

Lemma prepare_report_data_filtered_out_witness :
  exists rd,
    Demo.prepare Demo.healthy_records (with_hide_healthy Q true (Demo.config_top 1)) = Ok rd
    /\ filtered_out_healthy Q rd = true.
Proof.
  destruct (prepare_report_data_filtered_out Q Demo.format_percent Demo.lower
              Demo.stdout_can_encode (with_hide_healthy Q true (Demo.config_top 1))
              Demo.healthy_records demo_healthy_records_str)
    as (rd & H1 & _ & H3).
  exists rd. split; [exact H1 |].
  apply H3; [discriminate |].
  split; [reflexivity | repeat constructor].
Defined.

Lemma prepare_report_data_hide_healthy_witness :
  exists hidden full,
    Demo.prepare Demo.healthy_records (with_hide_healthy Q true Demo.config) = Ok hidden
    /\ Demo.prepare Demo.healthy_records (with_hide_healthy Q false Demo.config) = Ok full
    /\ total_shown Q hidden = 0%nat
    /\ filtered_out_healthy Q hidden = true
    /\ total_shown Q full = total_records Q full.
Proof.
  destruct (prepare_report_data_hide_healthy Q Demo.format_percent Demo.lower
              Demo.stdout_can_encode Demo.config Demo.healthy_records
              demo_healthy_records_str)
    as (hidden & full & H1 & H2 & _ & _ & _ & _ & H7).
  destruct H7 as (H8 & H9 & H10); [discriminate | repeat constructor |].
  exists hidden, full. repeat split; try assumption.
  apply H10. left. reflexivity.
Defined.

(** C5 as stated fails twice. Two HEALTHY records, no hide-healthy
    filter and a cap of one row: one row is shown out of two records.
    No record at all (every record of the empty list is HEALTHY) and the
    hide-healthy filter: the flag stays unset. *)
Lemma prepare_report_data_hide_healthy_counterexample :
  (Forall (fun r => tier Q (Demo.config_top 1) r = "HEALTHY") Demo.healthy_records
   /\ exists rd,
       Demo.prepare Demo.healthy_records (with_hide_healthy Q false (Demo.config_top 1))
       = Ok rd
       /\ total_shown Q rd <> total_records Q rd)
  /\ (Forall (fun r => tier Q Demo.config r = "HEALTHY") []
      /\ exists rd,
          Demo.prepare [] (with_hide_healthy Q true Demo.config) = Ok rd
          /\ filtered_out_healthy Q rd <> true).
Proof.
  split; split.
  - repeat constructor.
  - eexists. split; [vm_compute; reflexivity |]. vm_compute. discriminate.
  - constructor.
  - eexists. split; [vm_compute; reflexivity |]. vm_compute. discriminate.
Defined.

(** ** More of the program at the concrete instance *)

Example demo_print :
  exists rd,
    Demo.prepare [Demo.record "carol" false 900; Demo.record "Alice" true 10]
      Demo.config = Ok rd
    /\ Demo.print rd Demo.config
       = [ "=== Validator Health Report ===";
           "Missed blocks threshold: 500" +:+ newline;
           "[JAILED] " +:+ string_of_list_byte [xe2; x9d; x8c] +:+ " Validator 'Alice'";
           "    - Status: JAILED (Validator jailed)";
           "    - Missed Blocks: 10";
           "    - Commission: 5.00%";
           "";
           "[AT_RISK] " +:+ string_of_list_byte [xe2; x9a; xa0; xef; xb8; x8f]
             +:+ " Validator 'carol'";
           "    - Status: AT_RISK (High missed blocks)";
           "    - Missed Blocks: 900";
           "    - Commission: 5.00%";
           "";
           "Summary -> total shown: 2; JAILED: 1; AT_RISK: 1" ].
Proof. eexists. split; [vm_compute; reflexivity |]. vm_compute. reflexivity. Qed.

Example demo_run :
  exists trace1 trace2,
    Demo.run Demo.server_api Demo.config
    = Some (Returned,
            [Requests Q trace1; Requests Q trace2;
             Print Q "=== Validator Health Report ===";
             Print Q ("Missed blocks threshold: 500" +:+ newline);
             Print Q "No active validators found."])
    /\ count_gets Q trace1 = 1%nat /\ count_gets Q trace2 = 1%nat.
Proof. eexists _, _. split; [vm_compute; reflexivity |]. vm_compute. split; reflexivity. Qed.

Example demo_run_bad_arguments :
  Demo.run Demo.server_api (Demo.config_top (-1))
  = Some (Exited "--top must be an integer greater than or equal to 0.", []).
Proof. vm_compute. reflexivity. Qed.

Lemma get_api_data_trace_witness :
  exists (delays : list Q) res after_get,
    get_api_data Q Demo.float_pow Demo.sleep Demo.server_flaky "/validators"
      (base_url Q Demo.config) 3 (inject_Z 2)
    = Some (res, failed_attempts Q Demo.server_flaky Demo.url 3 0 delays
                 ++ EvGet Q Demo.url :: after_get)
    /\ Z.of_nat (S (length delays)) <= 3
    /\ slept Q Demo.float_pow Demo.sleep (inject_Z 2) 0 delays.
Proof.
  destruct (get_api_data_trace Q Demo.float_pow Demo.sleep Demo.server_flaky
              "/validators" (base_url Q Demo.config) 3 (inject_Z 2) eq_refl)
    as (delays & res & after_get & H1 & _ & _ & H4 & _ & H6 & _).
  exists delays, res, after_get. split; [exact H1 |]. split; [exact H4 | exact H6].
Defined.

Lemma get_api_data_backoff_witness :
  get_api_data Q Demo.float_pow Demo.sleep Demo.server_flaky "/validators"
    (base_url Q Demo.config) 3 (inject_Z 2)
  = Some (Ok Demo.payload,
          failed_attempts Q Demo.server_flaky Demo.url 3 0
            [Qpower (inject_Z 2) 0; Qpower (inject_Z 2) 1]
          ++ [EvGet Q Demo.url]).
Proof.
  destruct (get_api_data_backoff Q Demo.float_pow Demo.sleep Demo.server_flaky
              "/validators" (base_url Q Demo.config) 3 (inject_Z 2)
              [Qpower (inject_Z 2) 0; Qpower (inject_Z 2) 1] eq_refl)
    as (H & _).
  - left. simpl. lia.
  - intros j Hj. destruct j as [| [| j]];
      [eexists; reflexivity | eexists; reflexivity | simpl in Hj; lia].
  - split; [vm_compute; reflexivity |]. split; [vm_compute; reflexivity |].
    split; [vm_compute; reflexivity |]. split; [vm_compute; reflexivity | exact I].
  - exact (H Demo.payload eq_refl).
Defined.

Lemma get_api_data_single_attempt_witness :
  get_api_data Q Demo.float_pow Demo.sleep Demo.server_flaky "/validators"
    (base_url Q Demo.config) 1 (inject_Z 2)
  = Some (Raise (ApiClientError ("Failed to fetch data from " +:+ Demo.url)),
          [EvGet Q Demo.url]).
Proof.
  destruct (get_api_data_single_attempt Q Demo.float_pow Demo.sleep Demo.server_flaky
              "/validators" (base_url Q Demo.config) 1 (inject_Z 2) eq_refl ltac:(lia))
    as (res & H1 & H2).
  rewrite H1, H2; [reflexivity | eexists; reflexivity].
Defined.

Lemma merge_validator_record_witness :
  exists record,
    Demo.merge Demo.signing_infos (Demo.validator "alice" Demo.zero_key "0.05")
    = Ok (Some record)
    /\ String.prefix "cosmosvalcons1" (rec_consensus_address Q record) = true
    /\ String.length (rec_consensus_address Q record) = 52%nat
    /\ rec_jailed Q record = false.
Proof.
  assert (H : { record | Demo.merge Demo.signing_infos
                           (Demo.validator "alice" Demo.zero_key "0.05")
                         = Ok (Some record) })
    by (eexists; vm_compute; reflexivity).
  destruct H as [record H]. exists record. split; [exact H |].
  unfold Demo.merge in H.
  destruct (merge_validator_record Q Demo.float_truthy Demo.float_of_int
              Demo.float_of_str Demo.int_of_float Demo.int_of_str
              Base64.b64decode_strict Demo.signing_infos
              (Demo.validator "alice" Demo.zero_key "0.05") record H)
    as (_ & H2 & H3 & _ & _ & H6 & _).
  repeat split; [exact H2 | exact H3 |]. rewrite H6. vm_compute. reflexivity.
Defined.

Lemma merge_validator_defaults_witness :
  exists record,
    Demo.merge ∅ (<["consensus_pubkey" := JDict Q (<["key" := JStr Q Demo.zero_key]> ∅)]> ∅)
    = Ok (Some record)
    /\ rec_missed_blocks Q record = 0
    /\ rec_commission_rate Q record = None.
Proof.
  assert (H : { record | Demo.merge ∅
                           (<["consensus_pubkey" :=
                                JDict Q (<["key" := JStr Q Demo.zero_key]> ∅)]> ∅)
                         = Ok (Some record) })
    by (eexists; vm_compute; reflexivity).
  destruct H as [record H]. exists record. split; [exact H |].
  unfold Demo.merge in H.
  destruct (merge_validator_defaults Q Demo.float_truthy Demo.float_of_int
              Demo.float_of_str Demo.int_of_float Demo.int_of_str
              Base64.b64decode_strict ∅ _ record H)
    as (_ & H2 & H3).
  split; [apply H2; [apply lookup_empty | reflexivity] | apply H3; reflexivity].
Defined.

Lemma determine_health_status_monotone_witness :
  severity (health_status (determine_health_status Q false 600 Demo.config))
  <= severity (health_status (determine_health_status Q false 10 Demo.config))
  /\ severity (health_status (determine_health_status Q false 600 Demo.config))
     <= severity (health_status
                    (determine_health_status Q false 600
                       (with_hide_healthy Q true Demo.config))).
Proof.
  pose proof (determine_health_status_monotone Q false 10 600 Demo.config Demo.config
                ltac:(lia) ltac:(simpl; lia)) as H1.
  pose proof (determine_health_status_monotone Q false 600 600 Demo.config
                (with_hide_healthy Q true Demo.config)
                ltac:(lia) ltac:(simpl; lia)) as H2.
  cbv zeta in H1, H2. destruct H1 as (H1 & _), H2 as (_ & H2 & _).
  split; assumption.
Defined.

Lemma prepare_report_data_total_shown_witness :
  exists rd,
    Demo.prepare Demo.records (Demo.config_top 2) = Ok rd
    /\ total_shown Q rd = 2%nat.
Proof.
  destruct (prepare_report_data_total_shown Q Demo.format_percent Demo.lower
              Demo.stdout_can_encode (Demo.config_top 2) Demo.records demo_records_str)
    as (rd & H1 & H2 & _).
  exists rd. split; [exact H1 |]. rewrite H2. vm_compute. reflexivity.
Defined.

Lemma prepare_report_data_uncapped_witness :
  exists rd,
    Demo.prepare Demo.records Demo.config = Ok rd
    /\ rows Q rd
       ≡ₚ List.map (make_row Q Demo.format_percent Demo.stdout_can_encode Demo.config)
            Demo.records
    /\ total_shown Q rd = total_records Q rd.
Proof.
  destruct (prepare_report_data_uncapped Q Demo.format_percent Demo.lower
              Demo.stdout_can_encode Demo.config Demo.records eq_refl demo_records_str)
    as (rd & H1 & _ & H3).
  destruct (H3 eq_refl) as [H4 H5].
  exists rd. repeat split; assumption.
Defined.

Lemma prepare_report_data_status_counts_witness :
  exists rd,
    Demo.prepare Demo.records Demo.config = Ok rd
    /\ (status_counts Q rd !! "HEALTHY" = Some 3%nat ->
        3%nat = length (filter (fun row => row_status Q row = "HEALTHY") (rows Q rd))).
Proof.
  destruct (prepare_report_data_status_counts Q Demo.format_percent Demo.lower
              Demo.stdout_can_encode Demo.config Demo.records demo_records_str)
    as (rd & H1 & H2).
  exists rd. split; [exact H1 |].
  intros H. destruct (H2 "HEALTHY" 3%nat H) as (_ & H3 & _). exact H3.
Defined.

Lemma convert_pubkey_to_cons_address_same_witness :
  convert_pubkey_to_cons_address Base64.b64decode_strict Demo.zero_key
  = convert_pubkey_to_cons_address Base64.b64decode_strict "AAAA"
  <-> take 20 (Sha256.digest (repeat x00 32)) = take 20 (Sha256.digest (repeat x00 3)).
Proof.
  apply (convert_pubkey_to_cons_address_same Base64.b64decode_strict Demo.zero_key "AAAA");
    vm_compute; reflexivity.
Defined.

Lemma print_validator_report_prepared_witness :
  exists rd,
    Demo.prepare Demo.healthy_records (with_hide_healthy Q true Demo.config) = Ok rd
    /\ Demo.print rd (with_hide_healthy Q true Demo.config)
       = [ "=== Validator Health Report ===";
           "Missed blocks threshold: 500" +:+ newline;
           "No unhealthy validators found (healthy validators are hidden)." ]
    /\ "No validator records available."
       ∉ Demo.print rd (with_hide_healthy Q true Demo.config).
Proof.
  destruct (print_validator_report_prepared Q Demo.format_percent Demo.lower
              Demo.stdout_can_encode Demo.console_replace Demo.str_of_value
              (with_hide_healthy Q true Demo.config) Demo.healthy_records
              demo_healthy_records_str)
    as (rd & H1 & H2 & H3).
  exists rd. split; [exact H1 |]. split; [| exact H3].
  unfold Demo.print. rewrite H2. vm_compute. reflexivity.
Defined.

Lemma print_validator_report_summary_witness :
  exists rd,
    Demo.prepare Demo.records Demo.config = Ok rd
    /\ (rows_of_tier Q rd "JAILED" + rows_of_tier Q rd "AT_RISK"
        + rows_of_tier Q rd "HEALTHY")%nat = total_shown Q rd.
Proof.
  destruct (print_validator_report_summary Q Demo.format_percent Demo.lower
              Demo.stdout_can_encode Demo.config Demo.records demo_records_str)
    as (rd & H1 & _ & H3 & _).
  exists rd. split; assumption.
Defined.

Lemma main_fetch_failure_witness :
  let url := base_url Q Demo.config +:+ SIGNING_INFOS_ENDPOINT in
  let trace1 :=
    failed_attempts Q Demo.server_down url 3 0
      [Qpower (inject_Z 2) 0; Qpower (inject_Z 2) 1]
    ++ [EvGet Q url] in
  Demo.run Demo.server_down Demo.config
  = Some (Returned,
          [Requests Q trace1;
           Print Q (newline +:+
             "Unable to produce the report because signing info retrieval failed.")])
  /\ count_gets Q trace1 = 3%nat.
Proof.
  intros url trace1.
  assert (Hc : check_args Q Demo.float_le_zero Demo.config = None)
    by (vm_compute; reflexivity).
  assert (Hs : slept Q Demo.float_pow Demo.sleep (retry_backoff Q Demo.config) 0
                 [Qpower (inject_Z 2) 0; Qpower (inject_Z 2) 1]).
  { split; [vm_compute; reflexivity |]. split; [vm_compute; reflexivity |].
    split; [vm_compute; reflexivity |]. split; [vm_compute; reflexivity | exact I]. }
  destruct (main_fetch_failure Q Demo.float_pow Demo.sleep Demo.float_truthy
              Demo.float_of_int Demo.float_of_str Demo.int_of_float Demo.int_of_str
              Demo.format_percent Demo.lower Demo.stdout_can_encode
              Base64.b64decode_strict Demo.server_down Demo.console_replace
              Demo.str_of_value Demo.float_le_zero Demo.write_html_report Demo.config
              [Qpower (inject_Z 2) 0; Qpower (inject_Z 2) 1] Hc eq_refl Hs)
    as [H1 _].
  split; [| vm_compute; reflexivity].
  unfold Demo.run. apply H1. intros j Hj. eexists. reflexivity.
Defined.

Lemma main_no_records_witness :
  exists end_ effects,
    Demo.run Demo.server_api Demo.config = Some (end_, effects)
    /\ printed_of Q effects
       = [ "=== Validator Health Report ===";
           "Missed blocks threshold: 500" +:+ newline;
           "No active validators found." ]
    /\ end_ = Returned.
Proof.
  pose (signing_info_map :=
          <["cosmosvalcons1ve584t0cv27hwmy0cx9ca8uwyqyfw9y90lquj6" :=
              <["address" :=
                  JStr Q "cosmosvalcons1ve584t0cv27hwmy0cx9ca8uwyqyfw9y90lquj6"]>
              (<["missed_blocks_counter" := JStr Q "12"]> ∅)]>
          (∅ : gmap string (gmap string (json Q)))).
  pose (trace1 := [EvGet Q (base_url Q Demo.config +:+ SIGNING_INFOS_ENDPOINT)]).
  pose (trace2 := [EvGet Q (base_url Q Demo.config +:+ VALIDATORS_ENDPOINT)]).
  assert (Hc : check_args Q Demo.float_le_zero Demo.config = None)
    by (vm_compute; reflexivity).
  assert (H1 : fetch_signing_info_map Q Demo.float_pow Demo.sleep Demo.server_api Demo.config
               = Some (Ok signing_info_map, trace1))
    by (vm_compute; reflexivity).
  assert (H2 : fetch_active_validators Q Demo.float_pow Demo.sleep Demo.server_api Demo.config
               = Some (Ok [<["moniker" := JStr Q "bob"]> ∅], trace2))
    by (vm_compute; reflexivity).
  assert (Hskip : Forall
            (fun v => merge_validator Q Demo.float_truthy Demo.float_of_int
                        Demo.float_of_str Demo.int_of_float Demo.int_of_str
                        Base64.b64decode_strict signing_info_map v = Ok None)
            [<["moniker" := JStr Q "bob"]> ∅])
    by (constructor; [vm_compute; reflexivity | constructor]).
  destruct (main_no_records Q Demo.float_pow Demo.sleep Demo.float_truthy Demo.float_of_int
              Demo.float_of_str Demo.int_of_float Demo.int_of_str Demo.format_percent
              Demo.lower Demo.stdout_can_encode Base64.b64decode_strict Demo.server_api
              Demo.console_replace Demo.str_of_value Demo.float_le_zero
              Demo.write_html_report Demo.config signing_info_map trace1
              [<["moniker" := JStr Q "bob"]> ∅] trace2 Hc H1 H2 Hskip)
    as (end_ & effects & H3 & H4 & _ & H5).
  exists end_, effects. unfold Demo.run.
  split; [exact H3 |]. split; [| exact (H5 eq_refl)].
  rewrite H4. vm_compute. reflexivity.
Defined.
